(** * NUMA node discovery and memory-policy binding

    A shallow embedding of the NUMA helpers of stress-ng: the node
    counter that parses the [Mems_allowed:] line of /proc/self/status,
    the mask allocator, the cached node-count accessor, the static
    binder behind the --mbind option and the randomized per-page
    binder.

    Conventions.  C integers are modelled as [Z] with the conversions
    written out ([to_ulong], [to_long], [to_int]); the target is LP64
    Linux, so [unsigned long] and [size_t] are 64 bits wide.  C strings
    are [list ascii] without the terminating NUL.  The outside world
    (the status file, the allocator, the kernel, the random generator)
    is an explicit input of every function that consults it. *)

From Stdlib Require Import ZArith Ascii String DecimalString Bool Arith Lia.
From Stdlib Require Import List.
Import ListNotations.
Open Scope Z_scope.

(** ** Machine integers *)

Definition ULONG_BITS : Z := 64.
Definition ULONG_MOD : Z := 2 ^ ULONG_BITS.
Definition ULONG_MAX : Z := ULONG_MOD - 1.

(** Conversion to [unsigned long] (reduction modulo 2^64). *)
Definition to_ulong (z : Z) : Z := z mod ULONG_MOD.

(** Conversion of an [unsigned long] value to [long] (two's complement). *)
Definition to_long (z : Z) : Z :=
  let u := z mod ULONG_MOD in
  if u <? 2 ^ 63 then u else u - ULONG_MOD.

(** Conversion to [int] (32 bits, two's complement). *)
Definition to_int (z : Z) : Z :=
  let u := z mod 2 ^ 32 in
  if u <? 2 ^ 31 then u else u - 2 ^ 32.

(** Conversion to [uint32_t]. *)
Definition to_uint32 (z : Z) : Z := z mod 2 ^ 32.

Definition EXIT_FAILURE : Z := 1.

(** ** Characters and C strings *)

Definition cstr := list ascii.

Definition cs (s : string) : cstr := list_ascii_of_string s.

Definition ch_tab : ascii := ascii_of_nat 9.
Definition ch_nl : ascii := ascii_of_nat 10.
Definition ch_space : ascii := " "%char.
Definition ch_comma : ascii := ","%char.
Definition ch_minus : ascii := "-"%char.
Definition ch_plus : ascii := "+"%char.

Definition code (c : ascii) : Z := Z.of_nat (nat_of_ascii c).

Definition ascii_eqb (a b : ascii) : bool := Ascii.eqb a b.

(** [isspace] in the C locale: space, \t, \n, \v, \f, \r. *)
Definition isspace (c : ascii) : bool :=
  (code c =? 32) || ((9 <=? code c) && (code c <=? 13)).

Definition isdigit (c : ascii) : bool :=
  (48 <=? code c) && (code c <=? 57).

Definition digit_value (c : ascii) : Z := code c - 48.

(** Value of a hexadecimal digit, [None] for any other character. *)
Definition hex_value (c : ascii) : option Z :=
  let k := code c in
  if (48 <=? k) && (k <=? 57) then Some (k - 48)
  else if (97 <=? k) && (k <=? 102) then Some (k - 87)
  else if (65 <=? k) && (k <=? 70) then Some (k - 55)
  else None.

Fixpoint skip_space (s : cstr) : cstr :=
  match s with
  | c :: s' => if isspace c then skip_space s' else s
  | [] => []
  end.

(** [strncmp a b n == 0]; the end of a string compares as NUL. *)
Fixpoint strncmp_eq (a b : cstr) (n : nat) {struct n} : bool :=
  match n with
  | O => true
  | S n' =>
      match a, b with
      | [], [] => true
      | x :: a', y :: b' => ascii_eqb x y && strncmp_eq a' b' n'
      | _, _ => false
      end
  end.

(** ** The status file and [fgets] *)

(** A stream opened for reading is the list of characters not yet
    consumed. *)
Definition stream := list ascii.

(** [fgets_take room s]: copy characters up to and including the first
    newline, at most [room] of them; returns the line and the rest of
    the stream. *)
Fixpoint fgets_take (room : nat) (s : stream) : cstr * stream :=
  match room, s with
  | O, _ => ([], s)
  | _, [] => ([], [])
  | S r, c :: s' =>
      if ascii_eqb c ch_nl then ([c], s')
      else let (l, rest) := fgets_take r s' in (c :: l, rest)
  end.

(** [fgets(buffer, size, fp)]: [None] at end of file. *)
Definition fgets (size : nat) (s : stream) : option (cstr * stream) :=
  match s with
  | [] => None
  | _ => Some (fgets_take (size - 1) s)
  end.

Definition BUFFER_SIZE : nat := Z.to_nat 8192.

Definition mems_label : cstr := cs "Mems_allowed:".

(** The [while (fgets(...))] loop of [stress_numa_count_mem_nodes]:
    the first buffer that starts with the label, if any.  Every
    successful [fgets] consumes at least one character, so
    [S (length s)] iterations always suffice (see [find_label_fuel]). *)
Fixpoint find_label (fuel : nat) (s : stream) : option cstr :=
  match fuel with
  | O => None
  | S f =>
      match fgets BUFFER_SIZE s with
      | None => None
      | Some (buffer, rest) =>
          if strncmp_eq buffer mems_label 13 then Some buffer
          else find_label f rest
      end
  end.

(** ** stress_numa_count_mem_nodes *)

(** [sscanf(ptr, "%1x", &val)]: white space is skipped, then exactly one
    hexadecimal digit is converted; [None] when the call does not
    return 1. *)
Definition sscanf_1x (s : cstr) : option Z :=
  match skip_space s with
  | c :: _ => hex_value c
  | [] => None
  end.

Record count_state := mk_count_state {
  cs_n : Z;          (* long int n *)
  cs_node_id : Z;    (* unsigned long int node_id *)
  cs_max_node : Z    (* *max_node *)
}.

(** One iteration of [for (i = 0; i < 4; i++)]. *)
Definition count_bit (val : Z) (st : count_state) (i : Z) : count_state :=
  let n := if Z.land val (Z.shiftl 1 i) =? 0 then cs_n st else cs_n st + 1 in
  let node_id := to_ulong (cs_node_id st + 1) in
  let max_node := if cs_max_node st <? node_id then node_id else cs_max_node st in
  mk_count_state n node_id max_node.

Definition count_digit (val : Z) (st : count_state) : count_state :=
  fold_left (count_bit val) [0; 1; 2; 3] st.

(** Offset of [str] in [buffer]: [str = buffer + 13]. *)
Definition STR_OFF : nat := 13.

Definition char_at (buffer : cstr) (ptr : nat) : ascii := nth ptr buffer zero.

(** The backwards scan, [ptr] being an index into [buffer].  The result
    is the returned value (as [unsigned long]) and the final
    [*max_node]. *)
Fixpoint scan_nodes (buffer : cstr) (ptr : nat) (st : count_state) : Z * Z :=
  if negb (ascii_eqb (char_at buffer ptr) ch_space) && (STR_OFF <? ptr)%nat then
    match ptr with
    | O => (to_ulong (cs_n st), cs_max_node st)
    | S p =>
        if ascii_eqb (char_at buffer ptr) ch_comma then scan_nodes buffer p st
        else
          match sscanf_1x (skipn ptr buffer) with
          | None => (to_ulong (-1), cs_max_node st)
          | Some val => scan_nodes buffer p (count_digit val st)
          end
    end
  else (to_ulong (cs_n st), cs_max_node st).

(** [strlen]: the number of characters before the first NUL.  [fgets]
    stores the bytes of the file as they come, a NUL byte included, and
    appends the terminating NUL. *)
Fixpoint strlen (s : cstr) : nat :=
  match s with
  | [] => O
  | c :: s' => if ascii_eqb c zero then O else S (strlen s')
  end.

(** The string the C functions see in a buffer filled by [fgets]: the
    characters before the first NUL. *)
Definition c_string (bytes : cstr) : cstr := firstn (strlen bytes) bytes.

(** [stress_numa_count_mem_nodes(&max_node)]: the argument is the
    content of /proc/self/status, [None] when [fopen] fails.  Returns
    the function's value and the value stored in [*max_node].  The scan
    starts at [buffer + strlen(buffer) - 2] and, like [sscanf], sees
    the buffer as a string, which ends at the first NUL. *)
Definition stress_numa_count_mem_nodes (status : option stream) : Z * Z :=
  match status with
  | None => (to_ulong (-1), 0)
  | Some s =>
      match find_label (S (length s)) s with
      | None => (to_ulong (-1), 0)
      | Some bytes =>
          let buffer := c_string bytes in
          scan_nodes buffer (strlen buffer - 2) (mk_count_state 0 0 0)
      end
  end.

(** ** Bit masks *)

(** Modelled from the spec: the header core-numa.h is not among the
    sources; it declares [NUMA_LONG_BITS], the number of bits of an
    [unsigned long] (the spec's WORD_BITS), and the structure
    [stress_numa_mask_t] with a signed node count, the exclusive bound
    [max_nodes], the number of words, the size in bytes and the owned
    word buffer. *)
Definition NUMA_LONG_BITS : Z := ULONG_BITS.
Definition BITS_PER_BYTE : Z := 8.
Definition SIZEOF_ULONG : Z := ULONG_BITS / BITS_PER_BYTE.

Record stress_numa_mask_t := mk_numa_mask {
  nodes : Z;            (* long int nodes *)
  max_nodes : Z;        (* unsigned long int max_nodes *)
  numa_elements : Z;    (* unsigned long int numa_elements *)
  mask_size : Z;        (* size_t mask_size *)
  mask : list Z         (* unsigned long int *mask *)
}.

(** Replace word [k] of an array. *)
Fixpoint set_word (a : list Z) (k : nat) (w : Z) : list Z :=
  match a, k with
  | [], _ => []
  | _ :: a', O => w :: a'
  | x :: a', S k' => x :: set_word a' k' w
  end.

Definition in_bounds (a : list Z) (i : Z) : bool :=
  (0 <=? i) && (i / ULONG_BITS <? Z.of_nat (length a)).

(** Modelled from the spec: the bit macros of stress-ng.h are not among
    the sources.  [STRESS_SETBIT(a, i)] is
    [a[i / 64] |= 1UL << (i & 63)] and [STRESS_CLRBIT(a, i)] is
    [a[i / 64] &= ~(1UL << (i & 63))]; an index beyond the array is
    undefined behaviour ([None]). *)
Definition STRESS_SETBIT (a : list Z) (i : Z) : option (list Z) :=
  if in_bounds a i then
    let k := Z.to_nat (i / ULONG_BITS) in
    Some (set_word a k (Z.lor (nth k a 0) (Z.shiftl 1 (Z.land i (ULONG_BITS - 1)))))
  else None.

Definition STRESS_CLRBIT (a : list Z) (i : Z) : option (list Z) :=
  if in_bounds a i then
    let k := Z.to_nat (i / ULONG_BITS) in
    Some (set_word a k
            (Z.land (nth k a 0)
                    (Z.lxor ULONG_MAX (Z.shiftl 1 (Z.land i (ULONG_BITS - 1))))))
  else None.

(** Bit [i] of a mask, as the kernel reads it. *)
Definition mask_bit (a : list Z) (i : Z) : bool :=
  Z.testbit (nth (Z.to_nat (i / ULONG_BITS)) a 0) (i mod ULONG_BITS).

(** [calloc(size, 1)] viewed as an array of [unsigned long]. *)
Definition zero_words (size : Z) : list Z :=
  repeat 0 (Z.to_nat (size / SIZEOF_ULONG)).

(** [shim_memset(mask, 0, mask_size)] on a buffer of [mask_size] bytes. *)
Definition memset_zero (a : list Z) : list Z := map (fun _ => 0) a.

(** ** The outside world *)

Record world := mk_world {
  proc_status : option stream;  (* /proc/self/status, None: fopen fails *)
  malloc_ok : bool;             (* malloc returns non-NULL *)
  calloc_ok : bool;             (* calloc returns non-NULL *)
  optdup_ok : bool;             (* stress_const_optdup returns non-NULL *)
  (* shim_set_mempolicy(MPOL_BIND, nodemask, max_node), given the number
     of calls made before: None on success, Some errno on failure *)
  set_mempolicy : nat -> list Z -> Z -> option Z
}.

(** ** stress_numa_mask_alloc *)

Definition stress_numa_mask_alloc (w : world) : option stress_numa_mask_t :=
  if negb (malloc_ok w) then None
  else
    let (r, mx) := stress_numa_count_mem_nodes (proc_status w) in
    let nodes := to_long r in
    if (nodes <? 1) || (mx <? 1) then None
    else
      let el := to_ulong (mx + NUMA_LONG_BITS - 1) / NUMA_LONG_BITS in
      let el := if el =? 0 then 1 else el in
      let size := to_ulong (NUMA_LONG_BITS * el) / BITS_PER_BYTE in
      if negb (calloc_ok w) then None
      else Some (mk_numa_mask nodes mx el size (zero_words size)).

(** ** Diagnostics *)

Inductive diag :=
| WarnNoNodes (arg : cstr)
| ErrNodemaskAlloc
| ErrDupArg (arg : cstr)
| ErrInvalidNumber (str : cstr)
| ErrExpectNumber (token : cstr)
| ErrRangeOrder (token : cstr)
| ErrNotAllowedTo (node top : Z)
| ErrNotAllowedZero (node : Z)
| ErrSetPolicy (node errno : Z)
| ErrNotSupported.

Definition option_name : string := "option --mbind".

Definition dec (z : Z) : string := NilZero.string_of_uint (N.to_uint (Z.to_N z)).

Definition str_of (s : cstr) : string := string_of_list_ascii s.

Definition nl : string := String ch_nl EmptyString.

(** The text written to stderr; [strerror] is left to the caller. *)
Definition render (strerror : Z -> string) (d : diag) : string :=
  match d with
  | WarnNoNodes arg =>
      "no NUMA nodes found, ignoring --mbind setting '" ++ str_of arg ++ "'" ++ nl
  | ErrNodemaskAlloc =>
      "parsing --mbind: cannot allocate NUMA nodemask, out of memory" ++ nl
  | ErrDupArg arg =>
      "out of memory duplicating argument '" ++ str_of arg ++ "'" ++ nl
  | ErrInvalidNumber str =>
      option_name ++ ": invalid number '" ++ str_of str ++ "'" ++ nl
  | ErrExpectNumber token =>
      option_name ++ ": expecting number following '-' in '" ++ str_of token ++ "'" ++ nl
  | ErrRangeOrder token =>
      option_name ++ ": invalid range in '" ++ str_of token
        ++ "' (end value must be larger than start value" ++ nl
  | ErrNotAllowedTo node top =>
      option_name ++ ": invalid range, " ++ dec node
        ++ " is not allowed, allowed range: 0 to " ++ dec top ++ nl
  | ErrNotAllowedZero node =>
      option_name ++ ": invalid range, " ++ dec node
        ++ " is not allowed, allowed range: 0" ++ nl
  | ErrSetPolicy node errno =>
      option_name ++ ": could not set NUMA memory policy for node " ++ dec node
        ++ ", errno=" ++ dec errno ++ " (" ++ strerror errno ++ ")" ++ nl
  | ErrNotSupported =>
      option_name ++ ": setting NUMA memory policy binding not supported" ++ nl
  end%string.

(** ** Process state and outcomes *)

(** What a run leaves behind: the lines written to stderr and the
    memory-policy calls issued, each with the mask as it was at the
    time of the call and the [maxnode] argument; both oldest first. *)
Record trace := mk_trace {
  stderr : list diag;
  policy_calls : list (list Z * Z)
}.

Definition empty_trace : trace := mk_trace [] [].

Inductive outcome (A : Type) :=
| Ret (a : A)          (* the function returns *)
| Exit (status : Z)    (* _exit(status) *)
| Undef.               (* undefined behaviour or a loop out of its bound *)
Arguments Ret {A} a.
Arguments Exit {A} status.
Arguments Undef {A}.

Definition M (A : Type) : Type := trace -> outcome A * trace.

Definition ret {A} (a : A) : M A := fun t => (Ret a, t).

Definition bind {A B} (m : M A) (k : A -> M B) : M B :=
  fun t =>
    match m t with
    | (Ret a, t') => k a t'
    | (Exit c, t') => (Exit c, t')
    | (Undef, t') => (Undef, t')
    end.

Notation "x <- m ;; k" := (bind m (fun x => k))
  (at level 61, m at next level, right associativity).
Notation "m ;;; k" := (bind m (fun _ => k))
  (at level 61, right associativity).

Definition fprintf_stderr (d : diag) : M unit :=
  fun t => (Ret tt, mk_trace (stderr t ++ [d]) (policy_calls t)).

Definition _exit {A} (status : Z) : M A := fun t => (Exit status, t).

Definition undefined {A} : M A := fun t => (Undef, t).

Definition lift_ub {A} (o : option A) : M A :=
  match o with Some a => ret a | None => undefined end.

(** [shim_set_mempolicy(MPOL_BIND, nodemask, max_node)]: the call is
    recorded, the kernel's answer comes from the world. *)
Definition shim_set_mempolicy (w : world) (nodemask : list Z) (max_node : Z)
  : M (option Z) :=
  fun t =>
    (Ret (set_mempolicy w (length (policy_calls t)) nodemask max_node),
     mk_trace (stderr t) (policy_calls t ++ [(nodemask, max_node)])).

(** ** stress_check_numa_range *)

Definition stress_check_numa_range (max_node node : Z) : M unit :=
  if node >=? max_node then
    (if max_node >? 1
     then fprintf_stderr (ErrNotAllowedTo node (to_ulong (max_node - 1)))
     else fprintf_stderr (ErrNotAllowedZero node)) ;;;
    _exit EXIT_FAILURE
  else ret tt.

(** ** stress_numa_nodes *)

(** The function-local [static int nodes], initially -1. *)
Definition nodes_cache_init : Z := -1.

(** [stress_numa_nodes()]: the returned value, the new content of the
    static variable, and whether the node counter was run. *)
Definition stress_numa_nodes (status : option stream) (cache : Z) : Z * Z * bool :=
  if cache =? -1 then
    let nodes := to_int (fst (stress_numa_count_mem_nodes status)) in
    let nodes := if nodes <? 1 then 1 else nodes in
    (to_ulong nodes, nodes, true)
  else (to_ulong cache, cache, false).

(** The variant compiled when the NUMA system calls are unavailable. *)
Definition stress_numa_nodes_fallback : Z := 1.

(** ** stress_parse_node *)

(** The decimal digits at the head of a string, accumulated left to
    right. *)
Fixpoint scan_digits (acc : Z) (s : cstr) : Z :=
  match s with
  | c :: s' => if isdigit c then scan_digits (10 * acc + digit_value c) s' else acc
  | [] => acc
  end.

(** [sscanf(str, "%lu", &val)]: white space is skipped, a sign is
    accepted, then the longest run of decimal digits is converted the
    way [strtoul] does (a value that does not fit is [ULONG_MAX], a
    leading minus negates modulo 2^64); whatever follows the digits is
    left unread.  [None] when the call does not return 1. *)
Definition sscanf_lu (str : cstr) : option Z :=
  let s1 := skip_space str in
  let '(neg, s2) :=
    match s1 with
    | c :: r =>
        if ascii_eqb c ch_minus then (true, r)
        else if ascii_eqb c ch_plus then (false, r)
        else (false, s1)
    | [] => (false, s1)
    end in
  match s2 with
  | c :: _ =>
      if isdigit c then
        let v := scan_digits 0 s2 in
        Some (if ULONG_MAX <? v then ULONG_MAX
              else if neg then to_ulong (- v) else v)
      else None
  | [] => None
  end.

Definition stress_parse_node (str : cstr) : M Z :=
  match sscanf_lu str with
  | Some val => ret val
  | None => fprintf_stderr (ErrInvalidNumber str) ;;; _exit EXIT_FAILURE
  end.

(** ** stress_set_mbind *)

(** The fields between commas, empty ones included. *)
Fixpoint comma_fields (s : cstr) : list cstr :=
  match s with
  | [] => [[]]
  | c :: s' =>
      if ascii_eqb c ch_comma then [] :: comma_fields s'
      else
        match comma_fields s' with
        | f :: fs => (c :: f) :: fs
        | [] => [[c]]
        end
  end.

Definition nonempty (s : cstr) : bool :=
  match s with [] => false | _ => true end.

(** The successive results of [strtok(ptr, ",")] over the argument:
    the maximal non-empty runs of characters other than the comma. *)
Definition strtok_tokens (s : cstr) : list cstr :=
  filter nonempty (comma_fields s).

(** [strstr(token, "-")] followed by [tmpptr++]: the text after the
    first hyphen, [None] when there is no hyphen. *)
Fixpoint after_hyphen (token : cstr) : option cstr :=
  match token with
  | [] => None
  | c :: r => if ascii_eqb c ch_minus then Some r else after_hyphen r
  end.

(** [for (i = lo; i <= hi; i++)]; [fuel] bounds the number of
    iterations. *)
Fixpoint bind_range (w : world) (max_node : Z) (fuel : nat) (i hi : Z)
  (nodemask : list Z) : M (list Z) :=
  if i <=? hi then
    match fuel with
    | O => undefined
    | S f =>
        nodemask' <- lift_ub (STRESS_SETBIT nodemask i) ;;
        r <- shim_set_mempolicy w nodemask' max_node ;;
        match r with
        | Some errno =>
            fprintf_stderr (ErrSetPolicy i errno) ;;; _exit EXIT_FAILURE
        | None => bind_range w max_node f (to_ulong (i + 1)) hi nodemask'
        end
    end
  else ret nodemask.

(** The body of the token loop. *)
Definition bind_token (w : world) (max_node : Z) (nodemask : list Z)
  (token : cstr) : M (list Z) :=
  lo <- stress_parse_node token ;;
  hi <- match after_hyphen token with
        | Some tmpptr =>
            hi <- (if nonempty tmpptr then stress_parse_node tmpptr
                   else fprintf_stderr (ErrExpectNumber token) ;;;
                        _exit EXIT_FAILURE) ;;
            if hi <=? lo
            then fprintf_stderr (ErrRangeOrder token) ;;; _exit EXIT_FAILURE
            else ret hi
        | None => ret lo
        end ;;
  stress_check_numa_range max_node lo ;;;
  stress_check_numa_range max_node hi ;;;
  bind_range w max_node (Z.to_nat (hi - lo + 1)) lo hi nodemask.

Fixpoint bind_tokens (w : world) (max_node : Z) (nodemask : list Z)
  (tokens : list cstr) : M (list Z) :=
  match tokens with
  | [] => ret nodemask
  | token :: rest =>
      nodemask' <- bind_token w max_node nodemask token ;;
      bind_tokens w max_node nodemask' rest
  end.

Definition stress_set_mbind (w : world) (arg : cstr) : M Z :=
  let (found, max_node) := stress_numa_count_mem_nodes (proc_status w) in
  if found <? 1 then
    fprintf_stderr (WarnNoNodes arg) ;;; ret 0
  else
    let nodemask_bits := SIZEOF_ULONG * 8 in
    let nodemask_sz := to_ulong (max_node + (nodemask_bits - 1)) / nodemask_bits in
    if negb (calloc_ok w) then
      fprintf_stderr ErrNodemaskAlloc ;;; _exit EXIT_FAILURE
    else
      let nodemask := repeat 0 (Z.to_nat nodemask_sz) in
      if negb (optdup_ok w) then
        fprintf_stderr (ErrDupArg arg) ;;; _exit EXIT_FAILURE
      else
        bind_tokens w max_node nodemask (strtok_tokens arg) ;;;
        ret 0.

(** The variant compiled when the NUMA system calls are unavailable. *)
Definition stress_set_mbind_fallback (arg : cstr) : M Z :=
  fprintf_stderr ErrNotSupported ;;; _exit EXIT_FAILURE.

(** ** stress_numa_randomize_pages *)

Section Randomize.

(** The generator [stress_mwc32modn] is not among the sources: its
    state type and its step are parameters here. *)
Variable rng : Type.
Variable stress_mwc32modn : Z -> rng -> Z * rng.

(** A call [shim_mbind(ptr, page_size, MPOL_BIND, mask, max_nodes,
    MPOL_MF_MOVE)]: the offset of [ptr] in the buffer, the length, the
    mask at the time of the call and the [maxnode] argument. *)
Record mbind_call := mk_mbind_call {
  mb_offset : Z;
  mb_len : Z;
  mb_mask : list Z;
  mb_maxnode : Z
}.

(** The page loop, [off] being [ptr - buffer].  The result is the
    final mask, the generator state and the calls made; [None] when
    the loop writes outside the mask or runs past [fuel]
    iterations. *)
Fixpoint randomize_loop (fuel : nat) (nm : stress_numa_mask_t)
  (page_size buffer_size off : Z) (m : list Z) (g : rng)
  : option (list Z * rng * list mbind_call) :=
  if off <? buffer_size then
    match fuel with
    | O => None
    | S f =>
        let (node, g') := stress_mwc32modn (to_uint32 (nodes nm)) g in
        match STRESS_SETBIT m node with
        | None => None
        | Some m1 =>
            let call := mk_mbind_call off page_size m1 (max_nodes nm) in
            match STRESS_CLRBIT m1 node with
            | None => None
            | Some m2 =>
                match randomize_loop f nm page_size buffer_size
                        (off + page_size) m2 g' with
                | None => None
                | Some (m', g'', calls) => Some (m', g'', call :: calls)
                end
            end
        end
    end
  else Some (m, g, []).

(** [stress_numa_randomize_pages(numa_mask, buffer, page_size,
    buffer_size)].  With a positive page size the loop body runs at
    most [buffer_size] times. *)
Definition stress_numa_randomize_pages (nm : stress_numa_mask_t)
  (page_size buffer_size : Z) (g : rng)
  : option (stress_numa_mask_t * rng * list mbind_call) :=
  match randomize_loop (Z.to_nat buffer_size) nm page_size buffer_size 0
          (memset_zero (mask nm)) g with
  | None => None
  | Some (m', g', calls) =>
      Some (mk_numa_mask (nodes nm) (max_nodes nm) (numa_elements nm)
              (mask_size nm) m', g', calls)
  end.

(** The variant compiled when the NUMA system calls are unavailable. *)
Definition stress_numa_randomize_pages_fallback (nm : stress_numa_mask_t)
  : stress_numa_mask_t :=
  mk_numa_mask (nodes nm) (max_nodes nm) (numa_elements nm) (mask_size nm)
    (memset_zero (mask nm)).

(** The first [n] values drawn with modulus [k] from state [g]. *)
Fixpoint mwc_draws (k : Z) (n : nat) (g : rng) : list Z :=
  match n with
  | O => []
  | S n' => let (v, g') := stress_mwc32modn k g in v :: mwc_draws k n' g'
  end.

End Randomize.

(** ** Specification-level notions *)

(** Number of set bits among the four bits of a hexadecimal digit. *)
Definition bits_set (v : Z) : Z :=
  Z.b2z (Z.testbit v 0) + Z.b2z (Z.testbit v 1)
  + Z.b2z (Z.testbit v 2) + Z.b2z (Z.testbit v 3).

Definition bit_inc (val i : Z) : Z :=
  if Z.land val (Z.shiftl 1 i) =? 0 then 0 else 1.

(** The counters during a scan: the count never exceeds the number of
    slots, and [*max_node] is the number of slots. *)
Definition count_inv (st : count_state) : Prop :=
  0 <= cs_n st <= cs_node_id st /\ cs_max_node st = cs_node_id st.

Definition ceil_div (a b : Z) : Z := - ((- a) / b).

(** What holds of every mask the allocator hands out. *)
Record mask_ok (nm : stress_numa_mask_t) : Prop := mk_mask_ok {
  ok_nodes : 1 <= nodes nm <= max_nodes nm;
  ok_max : max_nodes nm <= 4 * 8191;
  ok_elements : numa_elements nm = Z.max 1 (ceil_div (max_nodes nm) NUMA_LONG_BITS);
  ok_size : mask_size nm = numa_elements nm * NUMA_LONG_BITS / 8;
  ok_length : Z.of_nat (length (mask nm)) = numa_elements nm
}.

(** Successive calls of [stress_numa_nodes], the status file being
    whatever it is at the time of each call: the value returned by each
    call and whether it ran the node counter. *)
Fixpoint numa_nodes_calls (statuses : list (option stream)) (cache : Z)
  : list (Z * bool) :=
  match statuses with
  | [] => []
  | s :: rest =>
      let '(v, cache', probed) := stress_numa_nodes s cache in
      (v, probed) :: numa_nodes_calls rest cache'
  end.

(** A mask with bit [node] set and every other bit clear. *)
Definition single_bit (m : list Z) (node : Z) : Prop :=
  forall b : Z, 0 <= b -> mask_bit m b = (b =? node).

(** A mask with every bit clear. *)
Definition all_clear (m : list Z) : Prop :=
  forall b : Z, 0 <= b -> mask_bit m b = false.

(** ** The shape of the status file *)

Definition no_newline (s : cstr) : bool :=
  forallb (fun c => negb (ascii_eqb c ch_nl)) s.

(** Text without a NUL byte: a buffer holding it is a string of the
    same length. *)
Definition no_nul (s : cstr) : bool :=
  forallb (fun c => negb (ascii_eqb c zero)) s.

Definition is_hex (c : ascii) : bool :=
  match hex_value c with Some _ => true | None => false end.

(** The characters of the bitmask proper: hexadecimal digits and the
    commas that group them. *)
Definition mask_char (c : ascii) : bool := is_hex c || ascii_eqb c ch_comma.

(** Number of set bits among the hexadecimal digits of a text. *)
Fixpoint set_bits_total (s : cstr) : Z :=
  match s with
  | [] => 0
  | c :: r =>
      match hex_value c with
      | Some v => bits_set v + set_bits_total r
      | None => set_bits_total r
      end
  end.

(** Number of hexadecimal digits of a text. *)
Fixpoint hex_digit_count (s : cstr) : Z :=
  match s with
  | [] => 0
  | c :: r => (if is_hex c then 1 else 0) + hex_digit_count r
  end.

(** A line of the status file other than the one looked for: it ends
    with a newline, fits the line buffer and does not start with the
    label. *)
Definition other_line (l : cstr) : Prop :=
  exists t, l = t ++ [ch_nl]
            /\ no_newline t = true
            /\ Z.of_nat (length l) <= 8191
            /\ strncmp_eq l mems_label 13 = false.

(** ** The shape of an --mbind specification *)

(** A decimal numeral: a non-empty run of decimal digits, and the
    number it denotes. *)
Definition numeral (ds : cstr) : bool := nonempty ds && forallb isdigit ds.

Definition numeral_value (ds : cstr) : Z :=
  fold_left (fun acc c => 10 * acc + digit_value c) ds 0.

(** An element of the list: one node or an inclusive range, written
    with numerals. *)
Inductive node_range :=
| Single (lo : cstr)
| Range (lo hi : cstr).

Definition range_text (r : node_range) : cstr :=
  match r with
  | Single lo => lo
  | Range lo hi => lo ++ ch_minus :: hi
  end.

Definition range_lo (r : node_range) : Z :=
  match r with Single lo | Range lo _ => numeral_value lo end.

Definition range_hi (r : node_range) : Z :=
  match r with Single lo => numeral_value lo | Range _ hi => numeral_value hi end.

(** Well-formed and in range: numerals, [lo < hi] for a range, and
    both ends below [max_node]. *)
Definition range_ok (max_node : Z) (r : node_range) : Prop :=
  match r with
  | Single lo => numeral lo = true /\ numeral_value lo < max_node
  | Range lo hi =>
      numeral lo = true /\ numeral hi = true
      /\ numeral_value lo < numeral_value hi /\ numeral_value hi < max_node
  end.

Fixpoint join_commas (ts : list cstr) : cstr :=
  match ts with
  | [] => []
  | [t] => t
  | t :: rest => t ++ ch_comma :: join_commas rest
  end.

(** The text of a specification. *)
Definition spec_text (rs : list node_range) : cstr :=
  join_commas (map range_text rs).

(** [n] consecutive integers from [lo]. *)
Fixpoint zrange (lo : Z) (n : nat) : list Z :=
  match n with
  | O => []
  | S n' => lo :: zrange (lo + 1) n'
  end.

(** The node indices of an element, ascending, and those of a
    specification, in left-to-right traversal order. *)
Definition range_nodes (r : node_range) : list Z :=
  zrange (range_lo r) (Z.to_nat (range_hi r - range_lo r + 1)).

Definition spec_nodes (rs : list node_range) : list Z :=
  flat_map range_nodes rs.

(** The mask [m] holds exactly the nodes of [set]. *)
Definition mask_holds (m : list Z) (set : list Z) : Prop :=
  forall b : Z, 0 <= b -> (mask_bit m b = true <-> In b set).

(** The calls made so far follow the traversal: the first call binds
    the nodes already seen and the first index, the next one those and
    the second index, and so on; [calls] may stop early. *)
Inductive cumulative (max_node : Z) : list Z -> list Z -> list (list Z * Z) -> Prop :=
| cumulative_nil (seen idxs : list Z) :
    cumulative max_node seen idxs []
| cumulative_cons (seen : list Z) (i : Z) (idxs : list Z)
    (m : list Z) (calls : list (list Z * Z)) :
    mask_holds m (seen ++ [i]) ->
    cumulative max_node (seen ++ [i]) idxs calls ->
    cumulative max_node seen (i :: idxs) ((m, max_node) :: calls).

(** The kernel accepts every [set_mempolicy] call. *)
Definition kernel_accepts (w : world) : Prop :=
  forall (k : nat) (m : list Z) (mx : Z), set_mempolicy w k m mx = None.

Definition comma_free (s : cstr) : bool :=
  forallb (fun c => negb (ascii_eqb c ch_comma)) s.

(** What follows a numeral is not a digit. *)
Definition ends_number (rest : cstr) : bool :=
  match rest with
  | [] => true
  | c :: _ => negb (isdigit c)
  end.

(** Saturation at [ULONG_MAX], as [strtoul] does. *)
Definition saturate (v : Z) : Z := if ULONG_MAX <? v then ULONG_MAX else v.

Definition hyphen_free (s : cstr) : bool :=
  forallb (fun c => negb (ascii_eqb c ch_minus)) s.

(** ** Tokens the static binder rejects *)

Definition strip_sign (s : cstr) : cstr :=
  match s with
  | c :: r => if ascii_eqb c ch_minus || ascii_eqb c ch_plus then r else s
  | [] => []
  end.

(** No decimal number can be read at the start of the text: after
    optional white space and an optional sign there is no digit. *)
Definition no_leading_number (s : cstr) : bool :=
  match strip_sign (skip_space s) with
  | c :: _ => negb (isdigit c)
  | [] => true
  end.

Inductive fatal_token : cstr -> Prop :=
| fatal_no_number (t : cstr) :
    no_leading_number t = true -> fatal_token t
| fatal_after_hyphen (a r : cstr) :
    hyphen_free a = true -> no_leading_number r = true ->
    fatal_token (a ++ ch_minus :: r)
| fatal_order (lo hi : cstr) :
    numeral lo = true -> numeral hi = true ->
    numeral_value hi <= numeral_value lo ->
    fatal_token (lo ++ ch_minus :: hi).

(** The diagnostics that precede [_exit]. *)
Definition is_error (d : diag) : bool :=
  match d with WarnNoNodes _ => false | _ => true end.

(** How a run ends when it does not return: with [_exit(EXIT_FAILURE)]
    after exactly one more diagnostic. *)
Definition fatal_exit (t t' : trace) : Prop :=
  exists d, is_error d = true /\ stderr t' = stderr t ++ [d].

(** What every step of the token loop guarantees: it returns with the
    mask as long as before and nothing written to stderr, or it exits
    with [EXIT_FAILURE] after one diagnostic; calls are only added. *)
Definition total_post (m : list Z) (t : trace) (res : outcome (list Z) * trace)
  : Prop :=
  exists calls,
    policy_calls (snd res) = policy_calls t ++ calls
    /\ match fst res with
       | Ret m' => length m' = length m /\ stderr (snd res) = stderr t
       | Exit c => c = EXIT_FAILURE /\ fatal_exit t (snd res)
       | Undef => False
       end.

(** ** Sample worlds *)

(** A status file whose [Mems_allowed:] line carries the given bitmask. *)
Definition status_with (body : string) : stream :=
  cs "Name:" ++ [ch_tab] ++ cs "stress-ng" ++ [ch_nl]
  ++ cs "Cpus_allowed_list:" ++ [ch_tab] ++ cs "0-7" ++ [ch_nl]
  ++ mems_label ++ [ch_tab] ++ cs body ++ [ch_nl]
  ++ cs "Mems_allowed_list:" ++ [ch_tab] ++ cs "0" ++ [ch_nl].

(** A world with that status file in which every allocation succeeds
    and the kernel accepts every binding. *)
Definition world_with (body : string) : world :=
  mk_world (Some (status_with body)) true true true (fun _ _ _ => None).

(** A world in which /proc/self/status cannot be opened. *)
Definition world_without_status : world :=
  mk_world None true true true (fun _ _ _ => None).

(** A small generator standing for [stress_mwc32modn]: the state is a
    counter, the value drawn is the counter reduced modulo [n]. *)
Definition counter_mwc32modn (n : Z) (g : Z) : Z * Z := (g mod n, g + 1).

(** The mask the allocator returns when nodes 0 to 2 are permitted. *)
Definition sample_mask : stress_numa_mask_t := mk_numa_mask 3 64 1 8 [0].


(** ** The binding loop over an explicit list of indices *)

(** The body of [for (i = lo; i <= hi; i++)] for one index: set the
    bit, call [set_mempolicy], leave on failure. *)
Definition bind_index (w : world) (max_node : Z) (nodemask : list Z) (i : Z)
  : M (list Z) :=
  nodemask' <- lift_ub (STRESS_SETBIT nodemask i) ;;
  r <- shim_set_mempolicy w nodemask' max_node ;;
  match r with
  | Some errno => fprintf_stderr (ErrSetPolicy i errno) ;;; _exit EXIT_FAILURE
  | None => ret nodemask'
  end.

(** That body run over a list of indices, in order. *)
Fixpoint bind_indices (w : world) (max_node : Z) (idxs : list Z)
  (nodemask : list Z) : M (list Z) :=
  match idxs with
  | [] => ret nodemask
  | i :: rest =>
      nodemask' <- bind_index w max_node nodemask i ;;
      bind_indices w max_node rest nodemask'
  end.

(** How the token loop goes on after the indices it could bind: to its
    end, or into a diagnostic and [_exit(EXIT_FAILURE)]. *)
Definition finish (d : option diag) (nodemask : list Z) : M (list Z) :=
  match d with
  | None => ret nodemask
  | Some d => fprintf_stderr d ;;; _exit EXIT_FAILURE
  end.

(** ** More shapes of tokens and arguments *)

(** What a token amounts to, whatever the mask and the trace: a
    diagnostic and [_exit(EXIT_FAILURE)] before any call, or the
    binding of a non-empty run of consecutive indices below
    [max_node]. *)
Definition token_dies (w : world) (max_node : Z) (token : cstr) : Prop :=
  exists d,
    is_error d = true
    /\ forall (m : list Z) (t : trace),
         bind_token w max_node m token t
         = (Exit EXIT_FAILURE, mk_trace (stderr t ++ [d]) (policy_calls t)).

Definition token_binds (w : world) (max_node : Z) (token : cstr) : Prop :=
  exists (lo : Z) (n : nat),
    0 <= lo /\ lo + Z.of_nat n <= max_node /\ (1 <= n)%nat
    /\ forall (m : list Z) (t : trace),
         bind_token w max_node m token t
         = bind_indices w max_node (zrange lo n) m t.

(** An element written with numerals whose node, or whose upper end,
    is not below [max_node]. *)
Definition range_beyond (max_node : Z) (r : node_range) : Prop :=
  match r with
  | Single lo => numeral lo = true /\ max_node <= numeral_value lo
  | Range lo hi =>
      numeral lo = true /\ numeral hi = true
      /\ numeral_value lo < numeral_value hi /\ max_node <= numeral_value hi
  end.



(** Tokens written with stray commas: [lead] commas first, then every
    token followed by one comma and [n] more. *)
Definition padded_text (lead : nat) (ts : list (cstr * nat)) : cstr :=
  repeat ch_comma lead
  ++ concat (map (fun tn => fst tn ++ repeat ch_comma (S (snd tn))) ts).

(** ** Pages and generator states *)

(** The offsets of [n] successive pages from [off]. *)
Fixpoint page_offsets (off page_size : Z) (n : nat) : list Z :=
  match n with
  | O => []
  | S n' => off :: page_offsets (off + page_size) page_size n'
  end.

Section Generator.

Variable rng : Type.
Variable stress_mwc32modn : Z -> rng -> Z * rng.

(** The state of the generator after [n] draws with modulus [k]. *)
Fixpoint mwc_state (k : Z) (n : nat) (g : rng) : rng :=
  match n with
  | O => g
  | S n' => mwc_state k n' (snd (stress_mwc32modn k g))
  end.

End Generator.

(** ** The heap of the mask allocator *)

(** The C heap as far as the allocator and [stress_numa_mask_free] see
    it: the blocks currently allocated and the next fresh block. *)
Record heap := mk_heap { live : list nat; fresh : nat }.

Definition heap_ok (h : heap) : Prop :=
  NoDup (live h) /\ Forall (fun b => (b < fresh h)%nat) (live h).

(** [malloc] and [calloc]: NULL when the world says so, else a block
    that was not allocated before. *)
Definition heap_alloc (ok : bool) (h : heap) : option nat * heap :=
  if ok then (Some (fresh h), mk_heap (fresh h :: live h) (S (fresh h)))
  else (None, h).

(** [free(p)]: nothing for NULL; undefined behaviour ([None]) for a
    block that is not allocated. *)
Definition heap_free (p : option nat) (h : heap) : option heap :=
  match p with
  | None => Some h
  | Some b =>
      if in_dec Nat.eq_dec b (live h)
      then Some (mk_heap (remove Nat.eq_dec b (live h)) (fresh h))
      else None
  end.

(** A [stress_numa_mask_t *]: the block of the structure, the block of
    its [mask] buffer and the content. *)
Record numa_mask_ref := mk_numa_mask_ref {
  ref_struct : nat;
  ref_mask : nat;
  ref_value : stress_numa_mask_t
}.

(** [stress_numa_mask_alloc] with its allocations and releases;
    [None] is undefined behaviour, [Some (None, h)] a NULL result. *)
Definition stress_numa_mask_alloc_heap (w : world) (h : heap)
  : option (option numa_mask_ref * heap) :=
  match heap_alloc (malloc_ok w) h with
  | (None, h1) => Some (None, h1)
  | (Some numa_mask, h1) =>
      let (r, mx) := stress_numa_count_mem_nodes (proc_status w) in
      let nodes := to_long r in
      if (nodes <? 1) || (mx <? 1) then
        match heap_free (Some numa_mask) h1 with
        | Some h2 => Some (None, h2)
        | None => None
        end
      else
        let el := to_ulong (mx + NUMA_LONG_BITS - 1) / NUMA_LONG_BITS in
        let el := if el =? 0 then 1 else el in
        let size := to_ulong (NUMA_LONG_BITS * el) / BITS_PER_BYTE in
        match heap_alloc (calloc_ok w) h1 with
        | (None, h2) =>
            match heap_free (Some numa_mask) h2 with
            | Some h3 => Some (None, h3)
            | None => None
            end
        | (Some buffer, h2) =>
            Some (Some (mk_numa_mask_ref numa_mask buffer
                          (mk_numa_mask nodes mx el size (zero_words size))),
                  h2)
        end
  end.

(** Reading a member through a pointer to a block: undefined
    behaviour ([None]) once the block is no longer allocated. *)
Definition heap_load {A : Type} (b : nat) (member : A) (h : heap) : option A :=
  if in_dec Nat.eq_dec b (live h) then Some member else None.

(** [stress_numa_mask_free(numa_mask)]: the blocks passed to [free], in
    the order of the calls, and the heap left.  [numa_mask->mask] is
    read from the structure before anything is released. *)
Definition stress_numa_mask_free (numa_mask : option numa_mask_ref) (h : heap)
  : option (list nat * heap) :=
  match numa_mask with
  | None => Some ([], h)
  | Some r =>
      match heap_load (ref_struct r) (ref_mask r) h with
      | None => None
      | Some buffer =>
          match heap_free (Some buffer) h with
          | None => None
          | Some h1 =>
              match heap_free (Some (ref_struct r)) h1 with
              | None => None
              | Some h2 => Some ([buffer; ref_struct r], h2)
              end
          end
      end
  end.

(** * Properties *)

(** ** Machine integers *)

Lemma ULONG_MOD_val : ULONG_MOD = 18446744073709551616.
Proof. reflexivity. Qed.

Lemma to_ulong_small (z : Z) : 0 <= z < ULONG_MOD -> to_ulong z = z.
Proof. intros H. unfold to_ulong. apply Z.mod_small. exact H. Qed.

Lemma to_ulong_minus1 : to_ulong (-1) = ULONG_MAX.
Proof. reflexivity. Qed.

Lemma BUFFER_SIZE_val : Z.of_nat BUFFER_SIZE = 8192.
Proof. unfold BUFFER_SIZE. lia. Qed.

Lemma some_inj {A : Type} (x y : A) : Some x = Some y -> x = y.
Proof. congruence. Qed.

(** ** Characters *)

Lemma code_range (c : ascii) : 0 <= code c < 256.
Proof.
  unfold code. pose proof (nat_ascii_bounded c). lia.
Qed.

Lemma ascii_eqb_eq (a b : ascii) : ascii_eqb a b = true <-> a = b.
Proof. apply Ascii.eqb_eq. Qed.

Lemma ascii_eqb_refl (a : ascii) : ascii_eqb a a = true.
Proof. apply Ascii.eqb_refl. Qed.

Lemma hex_value_range (c : ascii) (v : Z) : hex_value c = Some v -> 0 <= v <= 15.
Proof.
  unfold hex_value.
  repeat match goal with
         | |- context [if ?b then _ else _] => destruct b eqn:?
         end; intros H; inversion H; subst; lia.
Qed.

Lemma hex_not_space (c : ascii) (v : Z) : hex_value c = Some v -> isspace c = false.
Proof.
  unfold hex_value, isspace.
  repeat match goal with
         | |- context [if ?b then _ else _] => destruct b eqn:?
         end; intros H; try discriminate; lia.
Qed.

Lemma hex_not_comma (c : ascii) (v : Z) :
  hex_value c = Some v -> ascii_eqb c ch_comma = false.
Proof.
  intros H. destruct (ascii_eqb c ch_comma) eqn:E; [|reflexivity].
  apply ascii_eqb_eq in E. subst c. discriminate H.
Qed.

Lemma hex_not_blank (c : ascii) (v : Z) :
  hex_value c = Some v -> ascii_eqb c ch_space = false.
Proof.
  intros H. destruct (ascii_eqb c ch_space) eqn:E; [|reflexivity].
  apply ascii_eqb_eq in E. subst c. discriminate H.
Qed.

(** ** fgets and the label search *)

Lemma fgets_take_length (room : nat) (s : stream) :
  (length (fst (fgets_take room s)) <= room)%nat.
Proof.
  revert s. induction room as [|r IH]; intros s; simpl.
  - lia.
  - destruct s as [|c s']; simpl; [lia|].
    destruct (ascii_eqb c ch_nl); simpl; [lia|].
    specialize (IH s'). destruct (fgets_take r s'); simpl in *. lia.
Qed.

Lemma fgets_take_consumes (room : nat) (s : stream) :
  (length (snd (fgets_take room s)) <= length s)%nat.
Proof.
  revert s. induction room as [|r IH]; intros s; simpl.
  - lia.
  - destruct s as [|c s']; simpl; [lia|].
    destruct (ascii_eqb c ch_nl); simpl; [lia|].
    specialize (IH s'). destruct (fgets_take r s'); simpl in *. lia.
Qed.

Lemma fgets_take_progress (room : nat) (s : stream) :
  room <> O -> s <> [] ->
  (length (snd (fgets_take room s)) < length s)%nat.
Proof.
  intros Hr Hs. destruct room as [|r]; [congruence|].
  destruct s as [|c s']; [congruence|]. cbn [fgets_take].
  destruct (ascii_eqb c ch_nl); simpl; [lia|].
  pose proof (fgets_take_consumes r s') as Hc.
  destruct (fgets_take r s'); simpl in *. lia.
Qed.

Lemma fgets_some (size : nat) (s : stream) (buffer : cstr) (rest : stream) :
  fgets size s = Some (buffer, rest) ->
  s <> [] /\ fgets_take (size - 1) s = (buffer, rest).
Proof.
  unfold fgets. destruct s as [|c s']; [discriminate|].
  intros H. split; [discriminate|]. congruence.
Qed.

Lemma fgets_progress (s : stream) (buffer : cstr) (rest : stream) :
  fgets BUFFER_SIZE s = Some (buffer, rest) -> (length rest < length s)%nat.
Proof.
  intros H. apply fgets_some in H. destruct H as [Hs H1].
  assert (Hr : (BUFFER_SIZE - 1 <> 0)%nat) by (pose proof BUFFER_SIZE_val; lia).
  pose proof (fgets_take_progress (BUFFER_SIZE - 1) s Hr Hs) as Hp.
  rewrite H1 in Hp. exact Hp.
Qed.

Lemma fgets_length (s : stream) (buffer : cstr) (rest : stream) :
  fgets BUFFER_SIZE s = Some (buffer, rest) -> Z.of_nat (length buffer) <= 8191.
Proof.
  intros H. apply fgets_some in H. destruct H as [Hs H1].
  pose proof (fgets_take_length (BUFFER_SIZE - 1) s) as Hl.
  rewrite H1 in Hl. simpl in Hl. pose proof BUFFER_SIZE_val. lia.
Qed.

(** The bound [S (length s)] on the label search is never reached:
    more iterations change nothing. *)
Lemma find_label_fuel_aux (n : nat) :
  forall (s : stream) (fuel : nat),
    (length s <= n)%nat -> (length s < fuel)%nat ->
    find_label fuel s = find_label (S (length s)) s.
Proof.
  induction n as [|n IH]; intros s fuel Hn Hf.
  - destruct s; [|simpl in Hn; lia].
    destruct fuel; [lia|]. reflexivity.
  - destruct fuel as [|f]; [lia|].
    cbn [find_label].
    destruct (fgets BUFFER_SIZE s) as [[buffer rest]|] eqn:E; [|reflexivity].
    destruct (strncmp_eq buffer mems_label 13); [reflexivity|].
    pose proof (fgets_progress _ _ _ E) as Hp.
    rewrite (IH rest f) by lia.
    symmetry. apply IH; lia.
Qed.

Lemma find_label_fuel (fuel : nat) (s : stream) :
  (length s < fuel)%nat -> find_label fuel s = find_label (S (length s)) s.
Proof. intros H. apply (find_label_fuel_aux (length s)); lia. Qed.

Lemma find_label_length (fuel : nat) (s : stream) (buffer : cstr) :
  find_label fuel s = Some buffer -> Z.of_nat (length buffer) <= 8191.
Proof.
  revert s. induction fuel as [|f IH]; intros s; cbn [find_label];
    [discriminate|].
  destruct (fgets BUFFER_SIZE s) as [[b rest]|] eqn:E; [|discriminate].
  destruct (strncmp_eq b mems_label 13).
  - intros H. apply some_inj in H. subst b. eapply fgets_length; eauto.
  - apply IH.
Qed.

(** ** The backwards scan *)

Lemma bits_set_range (v : Z) : 0 <= bits_set v <= 4.
Proof.
  unfold bits_set.
  destruct (Z.testbit v 0), (Z.testbit v 1), (Z.testbit v 2), (Z.testbit v 3);
    simpl; lia.
Qed.

Lemma bit_inc_sum (val : Z) :
  0 <= val <= 15 ->
  bit_inc val 0 + bit_inc val 1 + bit_inc val 2 + bit_inc val 3 = bits_set val.
Proof.
  intros H.
  assert (E : val = 0 \/ val = 1 \/ val = 2 \/ val = 3 \/ val = 4 \/ val = 5
              \/ val = 6 \/ val = 7 \/ val = 8 \/ val = 9 \/ val = 10
              \/ val = 11 \/ val = 12 \/ val = 13 \/ val = 14 \/ val = 15)
    by lia.
  repeat (destruct E as [E|E]; [subst val; reflexivity|]).
  subst val; reflexivity.
Qed.

Lemma count_bit_step (val i : Z) (st : count_state) :
  0 <= cs_node_id st -> cs_node_id st + 1 < ULONG_MOD ->
  cs_max_node st = cs_node_id st ->
  count_bit val st i =
    mk_count_state (cs_n st + bit_inc val i) (cs_node_id st + 1) (cs_node_id st + 1).
Proof.
  intros H0 H1 Hm. unfold count_bit, bit_inc.
  rewrite to_ulong_small by lia. rewrite Hm.
  replace (cs_node_id st <? cs_node_id st + 1) with true
    by (symmetry; apply Z.ltb_lt; lia).
  destruct (Z.land val (Z.shiftl 1 i) =? 0); f_equal; lia.
Qed.

Lemma count_digit_spec (val : Z) (st : count_state) :
  0 <= val <= 15 ->
  0 <= cs_node_id st -> cs_node_id st + 4 < ULONG_MOD ->
  cs_max_node st = cs_node_id st ->
  count_digit val st =
    mk_count_state (cs_n st + bits_set val) (cs_node_id st + 4) (cs_node_id st + 4).
Proof.
  intros Hv H0 H4 Hm. unfold count_digit. cbn [fold_left].
  rewrite (count_bit_step val 0 st) by lia.
  rewrite (count_bit_step val 1 (mk_count_state _ _ _))
    by (cbn [cs_node_id cs_max_node]; lia).
  rewrite (count_bit_step val 2 (mk_count_state _ _ _))
    by (cbn [cs_node_id cs_max_node]; lia).
  rewrite (count_bit_step val 3 (mk_count_state _ _ _))
    by (cbn [cs_node_id cs_max_node]; lia).
  cbn [cs_n cs_node_id cs_max_node].
  rewrite <- (bit_inc_sum val Hv). f_equal; lia.
Qed.

Lemma scan_nodes_bounds (buffer : cstr) (ptr : nat) :
  forall st : count_state,
    count_inv st ->
    cs_node_id st + 4 * Z.of_nat ptr < ULONG_MOD ->
    let r := scan_nodes buffer ptr st in
    (fst r = ULONG_MAX \/ 0 <= fst r <= snd r)
    /\ 0 <= snd r <= cs_node_id st + 4 * Z.of_nat ptr.
Proof.
  induction ptr as [|p IH]; intros st [Hn Hm] Hb.
  - cbn [scan_nodes]. rewrite Bool.andb_false_r. cbn [fst snd].
    rewrite to_ulong_small by lia. lia.
  - cbn [scan_nodes].
    destruct (negb (ascii_eqb (char_at buffer (S p)) ch_space)
              && (STR_OFF <? S p)%nat).
    + destruct (ascii_eqb (char_at buffer (S p)) ch_comma).
      * specialize (IH st (conj Hn Hm)). cbv zeta in IH. lia.
      * destruct (sscanf_1x (skipn (S p) buffer)) as [val|] eqn:E.
        -- assert (Hv : 0 <= val <= 15).
           { unfold sscanf_1x in E. destruct (skip_space (skipn (S p) buffer));
               [discriminate|]. eapply hex_value_range; eauto. }
           pose proof (bits_set_range val) as Hs.
           rewrite count_digit_spec by lia.
           match goal with
           | |- context [scan_nodes buffer p ?s] => specialize (IH s)
           end.
           cbv zeta in IH. cbn [cs_n cs_node_id cs_max_node] in IH.
           unfold count_inv in IH. cbn [cs_n cs_node_id cs_max_node] in IH.
           lia.
        -- cbn [fst snd]. rewrite to_ulong_minus1. lia.
    + cbn [fst snd]. rewrite to_ulong_small by lia. lia.
Qed.

(** ** Strings in a buffer *)

Lemma strlen_le (s : cstr) : (strlen s <= length s)%nat.
Proof.
  induction s as [|c s IH]; cbn [strlen length]; [lia|].
  destruct (ascii_eqb c zero); lia.
Qed.

Lemma c_string_length (s : cstr) : length (c_string s) = strlen s.
Proof.
  unfold c_string. rewrite length_firstn. pose proof (strlen_le s). lia.
Qed.

Lemma strlen_c_string (s : cstr) : strlen (c_string s) = strlen s.
Proof.
  unfold c_string. induction s as [|c s IH]; [reflexivity|].
  cbn [strlen]. destruct (ascii_eqb c zero) eqn:E; [reflexivity|].
  cbn [firstn strlen]. rewrite E, IH. reflexivity.
Qed.

Lemma no_nul_strlen (s : cstr) : no_nul s = true -> strlen s = length s.
Proof.
  induction s as [|c s IH]; [reflexivity|].
  cbn [no_nul forallb strlen length]. intros H.
  apply Bool.andb_true_iff in H. destruct H as [Hc Hs].
  apply Bool.negb_true_iff in Hc. rewrite Hc, (IH Hs). reflexivity.
Qed.

Lemma no_nul_c_string (s : cstr) : no_nul s = true -> c_string s = s.
Proof.
  intros H. unfold c_string. rewrite (no_nul_strlen s H). apply firstn_all.
Qed.

Lemma no_nul_app (a b : cstr) : no_nul (a ++ b) = no_nul a && no_nul b.
Proof. unfold no_nul. apply forallb_app. Qed.

(** The value returned by the node counter is either the failure value
    [(unsigned long)-1] or a count that does not exceed [*max_node];
    [*max_node] is at most four times the size of the line buffer. *)
Lemma count_mem_nodes_bounds (status : option stream) :
  let r := stress_numa_count_mem_nodes status in
  (fst r = ULONG_MAX \/ 0 <= fst r <= snd r) /\ 0 <= snd r <= 4 * 8191.
Proof.
  unfold stress_numa_count_mem_nodes.
  destruct status as [s|]; [|cbn; lia].
  destruct (find_label (S (length s)) s) as [bytes|] eqn:E; [|cbn; lia].
  pose proof (find_label_length _ _ _ E) as Hl.
  pose proof (strlen_le bytes) as Hs.
  pose proof (c_string_length bytes) as Hc.
  pose proof (scan_nodes_bounds (c_string bytes) (strlen (c_string bytes) - 2)
                (mk_count_state 0 0 0)) as H.
  rewrite strlen_c_string in *.
  cbv zeta in *. cbn [cs_node_id] in H.
  rewrite ULONG_MOD_val in H.
  destruct H as [H1 H2]; [unfold count_inv; cbn; lia | lia |].
  split; [exact H1 | lia].
Qed.

(** ** Conversions of the counter's value *)

Lemma to_long_max : to_long ULONG_MAX = -1.
Proof. reflexivity. Qed.

Lemma to_long_small (z : Z) : 0 <= z < 2 ^ 63 -> to_long z = z.
Proof.
  intros H. unfold to_long. rewrite Z.mod_small by (rewrite ULONG_MOD_val; lia).
  destruct (z <? 2 ^ 63) eqn:E; [reflexivity|]. apply Z.ltb_ge in E. lia.
Qed.

Lemma to_int_max : to_int ULONG_MAX = -1.
Proof. reflexivity. Qed.

Lemma to_int_small (z : Z) : 0 <= z < 2 ^ 31 -> to_int z = z.
Proof.
  intros H. unfold to_int. rewrite Z.mod_small by lia.
  destruct (z <? 2 ^ 31) eqn:E; [reflexivity|]. apply Z.ltb_ge in E. lia.
Qed.

(** ** The mask allocator *)

Lemma ceil_div_64 (a : Z) : (a + 64 - 1) / 64 = ceil_div a 64.
Proof.
  unfold ceil_div.
  pose proof (Z.div_mod (a + 64 - 1) 64 ltac:(lia)).
  pose proof (Z.mod_pos_bound (a + 64 - 1) 64 ltac:(lia)).
  pose proof (Z.div_mod (- a) 64 ltac:(lia)).
  pose proof (Z.mod_pos_bound (- a) 64 ltac:(lia)).
  lia.
Qed.

Lemma zero_words_spec (size : Z) :
  zero_words size = repeat 0 (Z.to_nat (size / 8)).
Proof. reflexivity. Qed.

Lemma mask_alloc_some (w : world) (nm : stress_numa_mask_t) :
  stress_numa_mask_alloc w = Some nm ->
  mask_ok nm
  /\ mask nm = repeat 0 (Z.to_nat (numa_elements nm))
  /\ nodes nm = fst (stress_numa_count_mem_nodes (proc_status w))
  /\ max_nodes nm = snd (stress_numa_count_mem_nodes (proc_status w))
  /\ malloc_ok w = true /\ calloc_ok w = true.
Proof.
  unfold stress_numa_mask_alloc.
  destruct (malloc_ok w); [|discriminate]. cbn [negb].
  pose proof (count_mem_nodes_bounds (proc_status w)) as Hb. cbv zeta in Hb.
  destruct (stress_numa_count_mem_nodes (proc_status w)) as [r mx].
  cbn [fst snd] in *.
  destruct ((to_long r <? 1) || (mx <? 1)) eqn:Hc; [discriminate|].
  destruct (calloc_ok w); [|discriminate]. cbn [negb].
  apply Bool.orb_false_iff in Hc. destruct Hc as [Hc1 Hc2].
  apply Z.ltb_ge in Hc1, Hc2.
  destruct Hb as [[Hr|Hr] Hm].
  { subst r. rewrite to_long_max in Hc1. lia. }
  rewrite to_long_small in * by lia.
  unfold NUMA_LONG_BITS, ULONG_BITS, BITS_PER_BYTE.
  rewrite (to_ulong_small (mx + 64 - 1)) by (rewrite ULONG_MOD_val; lia).
  rewrite ceil_div_64.
  assert (Hcd : 1 <= ceil_div mx 64 <= 512).
  { rewrite <- ceil_div_64.
    pose proof (Z.div_mod (mx + 64 - 1) 64 ltac:(lia)).
    pose proof (Z.mod_pos_bound (mx + 64 - 1) 64 ltac:(lia)). lia. }
  destruct (ceil_div mx 64 =? 0) eqn:E0; [apply Z.eqb_eq in E0; lia|].
  rewrite (to_ulong_small (64 * ceil_div mx 64)) by (rewrite ULONG_MOD_val; lia).
  assert (Hsz : 64 * ceil_div mx 64 / 8 = 8 * ceil_div mx 64).
  { replace (64 * ceil_div mx 64) with (8 * ceil_div mx 64 * 8) by lia.
    apply Z.div_mul. lia. }
  assert (Hw : 8 * ceil_div mx 64 / 8 = ceil_div mx 64).
  { rewrite Z.mul_comm. apply Z.div_mul. lia. }
  rewrite Hsz, zero_words_spec, Hw.
  remember (8 * ceil_div mx 64) as sz eqn:Esz.
  intros [= <-].
  cbn [nodes max_nodes numa_elements mask_size mask fst snd].
  split; [|repeat split; reflexivity].
  constructor; unfold nodes, max_nodes, numa_elements, mask_size, mask.
  - lia.
  - lia.
  - unfold NUMA_LONG_BITS, ULONG_BITS. lia.
  - unfold NUMA_LONG_BITS, ULONG_BITS.
    replace (ceil_div mx 64 * 64) with (8 * ceil_div mx 64 * 8) by lia.
    rewrite Z.div_mul; lia.
  - rewrite repeat_length. lia.
Qed.

Lemma mask_alloc_none (w : world) :
  stress_numa_mask_alloc w = None <->
  malloc_ok w = false \/ calloc_ok w = false
  \/ to_long (fst (stress_numa_count_mem_nodes (proc_status w))) < 1
  \/ snd (stress_numa_count_mem_nodes (proc_status w)) < 1.
Proof.
  unfold stress_numa_mask_alloc.
  destruct (malloc_ok w); cbn [negb]; [|tauto].
  destruct (stress_numa_count_mem_nodes (proc_status w)) as [r mx].
  cbn [fst snd].
  destruct (to_long r <? 1) eqn:E1; cbn [orb].
  { apply Z.ltb_lt in E1. tauto. }
  destruct (mx <? 1) eqn:E2.
  { apply Z.ltb_lt in E2. tauto. }
  apply Z.ltb_ge in E1, E2.
  destruct (calloc_ok w); cbn [negb]; [|tauto].
  split; [discriminate|].
  intros [H|[H|[H|H]]]; try discriminate; lia.
Qed.

(** C7: every mask returned by [stress_numa_mask_alloc] has
    [numa_elements] equal to the ceiling of [max_nodes / NUMA_LONG_BITS]
    and at least 1, [mask_size] equal to
    [numa_elements * NUMA_LONG_BITS / 8], hence room for at least
    [max_nodes] bits, and a buffer of [numa_elements] zero words; and
    the allocator returns nothing exactly when the node count (read as a
    signed value) or the bound is below 1 or an allocation fails. *)
Theorem mask_alloc_invariants (w : world) :
  match stress_numa_mask_alloc w with
  | Some nm =>
      numa_elements nm = Z.max 1 (ceil_div (max_nodes nm) NUMA_LONG_BITS)
      /\ mask_size nm = numa_elements nm * NUMA_LONG_BITS / 8
      /\ mask_size nm * 8 >= max_nodes nm
      /\ ~ (mask_size nm * 8 < max_nodes nm)
      /\ mask nm = repeat 0 (Z.to_nat (numa_elements nm))
      /\ nodes nm = to_long (fst (stress_numa_count_mem_nodes (proc_status w)))
      /\ max_nodes nm = snd (stress_numa_count_mem_nodes (proc_status w))
      /\ 1 <= nodes nm /\ 1 <= max_nodes nm
      /\ malloc_ok w = true /\ calloc_ok w = true
  | None =>
      malloc_ok w = false \/ calloc_ok w = false
      \/ to_long (fst (stress_numa_count_mem_nodes (proc_status w))) < 1
      \/ snd (stress_numa_count_mem_nodes (proc_status w)) < 1
  end.
Proof.
  destruct (stress_numa_mask_alloc w) as [nm|] eqn:E.
  - apply mask_alloc_some in E.
    destruct E as [[Hn Hm He Hs Hl] [Hz [Hnodes [Hmaxn [Hma Hca]]]]].
    assert (Hsigned : nodes nm
                      = to_long (fst (stress_numa_count_mem_nodes (proc_status w)))).
    { rewrite <- Hnodes. symmetry. apply to_long_small. lia. }
    assert (Hbits : max_nodes nm <= mask_size nm * 8).
    { rewrite Hs, He. unfold NUMA_LONG_BITS, ULONG_BITS, ceil_div.
      pose proof (Z.div_mod (- max_nodes nm) 64 ltac:(lia)).
      pose proof (Z.mod_pos_bound (- max_nodes nm) 64 ltac:(lia)).
      replace (Z.max 1 (- (- max_nodes nm / 64)) * 64)
        with (8 * Z.max 1 (- (- max_nodes nm / 64)) * 8) by lia.
      rewrite Z.div_mul by lia. lia. }
    repeat split; try assumption; lia.
  - apply mask_alloc_none. exact E.
Qed.

(** ** The cached node count *)

Lemma numa_nodes_hit (status : option stream) (cache : Z) :
  1 <= cache < ULONG_MOD ->
  stress_numa_nodes status cache = (cache, cache, false).
Proof.
  intros H. unfold stress_numa_nodes.
  destruct (cache =? -1) eqn:E; [apply Z.eqb_eq in E; lia|].
  rewrite to_ulong_small by lia. reflexivity.
Qed.

Lemma numa_nodes_calls_hit (later : list (option stream)) (cache : Z) :
  1 <= cache < ULONG_MOD ->
  Forall (fun c => c = (cache, false)) (numa_nodes_calls later cache).
Proof.
  intros H. induction later as [|s rest IH]; cbn [numa_nodes_calls].
  - constructor.
  - rewrite numa_nodes_hit by exact H. constructor; [reflexivity | exact IH].
Qed.

Lemma numa_nodes_first (status : option stream) :
  let r := fst (stress_numa_count_mem_nodes status) in
  let v := if (r =? ULONG_MAX) || (r <? 1) then 1 else r in
  stress_numa_nodes status nodes_cache_init = (v, v, true)
  /\ 1 <= v < ULONG_MOD.
Proof.
  cbv zeta. unfold stress_numa_nodes, nodes_cache_init.
  change (-1 =? -1) with true. cbv iota.
  pose proof (count_mem_nodes_bounds status) as Hb. cbv zeta in Hb.
  destruct (stress_numa_count_mem_nodes status) as [r mx]. cbn [fst snd] in *.
  destruct Hb as [[Hr|Hr] Hm].
  - subst r. rewrite to_int_max. rewrite Z.eqb_refl. cbn [orb].
    change (-1 <? 1) with true. cbv iota.
    rewrite to_ulong_small by (rewrite ULONG_MOD_val; lia).
    rewrite ULONG_MOD_val. split; [reflexivity | lia].
  - rewrite to_int_small by lia.
    destruct (r =? ULONG_MAX) eqn:E.
    { apply Z.eqb_eq in E. subst r. unfold ULONG_MAX in Hr.
      rewrite ULONG_MOD_val in Hr. lia. }
    cbn [orb]. destruct (r <? 1) eqn:E1.
    + rewrite to_ulong_small by (rewrite ULONG_MOD_val; lia).
      rewrite ULONG_MOD_val. split; [reflexivity | lia].
    + apply Z.ltb_ge in E1.
      rewrite to_ulong_small by (rewrite ULONG_MOD_val; lia).
      rewrite ULONG_MOD_val. split; [reflexivity | lia].
Qed.

(** C8: the first call of [stress_numa_nodes] runs the node counter and
    returns its value, or 1 when discovery fails or reports fewer than
    one node; the value is at least 1; every later call returns that
    same value without running the node counter again, whatever the
    status file has become.  The variant for platforms without NUMA
    support returns 1. *)
Theorem numa_nodes_at_least_one_and_cached
  (status : option stream) (later : list (option stream)) :
  let r := fst (stress_numa_count_mem_nodes status) in
  let '(v, cache, probed) := stress_numa_nodes status nodes_cache_init in
  1 <= v
  /\ probed = true
  /\ v = (if (r =? ULONG_MAX) || (r <? 1) then 1 else r)
  /\ Forall (fun c => c = (v, false)) (numa_nodes_calls later cache)
  /\ 1 <= stress_numa_nodes_fallback.
Proof.
  cbv zeta.
  destruct (numa_nodes_first status) as [E Hv]. cbv zeta in E. rewrite E.
  repeat split.
  - lia.
  - apply numa_nodes_calls_hit. exact Hv.
  - unfold stress_numa_nodes_fallback. lia.
Qed.

(** ** Bit masks *)

Lemma set_word_length (a : list Z) (k : nat) (w : Z) :
  length (set_word a k w) = length a.
Proof.
  revert k. induction a as [|x a IH]; intros k; [reflexivity|].
  destruct k; simpl; [reflexivity | now rewrite IH].
Qed.

Lemma nth_set_word (a : list Z) (k j : nat) (w : Z) :
  (k < length a)%nat ->
  nth j (set_word a k w) 0 = if Nat.eqb j k then w else nth j a 0.
Proof.
  revert k j. induction a as [|x a IH]; intros k j Hk; [simpl in Hk; lia|].
  destruct k as [|k], j as [|j]; simpl; try reflexivity.
  apply IH. simpl in Hk. lia.
Qed.

Lemma in_bounds_spec (a : list Z) (i : Z) :
  in_bounds a i = true <-> 0 <= i < ULONG_BITS * Z.of_nat (length a).
Proof.
  unfold in_bounds, ULONG_BITS.
  rewrite Bool.andb_true_iff, Z.leb_le, Z.ltb_lt.
  pose proof (Z.div_mod i 64 ltac:(lia)).
  pose proof (Z.mod_pos_bound i 64 ltac:(lia)). lia.
Qed.

Lemma land_63 (i : Z) : 0 <= i -> Z.land i (ULONG_BITS - 1) = i mod ULONG_BITS.
Proof.
  intros H. change (ULONG_BITS - 1) with (Z.ones 6).
  rewrite Z.land_ones by lia. reflexivity.
Qed.

Lemma same_word (b i : Z) :
  0 <= b -> 0 <= i ->
  (Nat.eqb (Z.to_nat (b / ULONG_BITS)) (Z.to_nat (i / ULONG_BITS)) = true
   <-> b / ULONG_BITS = i / ULONG_BITS).
Proof.
  intros Hb Hi. rewrite Nat.eqb_eq. unfold ULONG_BITS.
  pose proof (Z.div_pos b 64 Hb ltac:(lia)).
  pose proof (Z.div_pos i 64 Hi ltac:(lia)). lia.
Qed.

Lemma bit_index_eq (b i : Z) :
  b / ULONG_BITS = i / ULONG_BITS ->
  ((i mod ULONG_BITS =? b mod ULONG_BITS) = (b =? i)).
Proof.
  unfold ULONG_BITS. intros H.
  pose proof (Z.div_mod b 64 ltac:(lia)).
  pose proof (Z.div_mod i 64 ltac:(lia)).
  destruct (b =? i) eqn:E.
  - apply Z.eqb_eq in E. subst. apply Z.eqb_refl.
  - apply Z.eqb_neq in E. apply Z.eqb_neq. lia.
Qed.

Lemma word_index_neq (b i : Z) :
  b / ULONG_BITS <> i / ULONG_BITS -> (b =? i) = false.
Proof. intros H. apply Z.eqb_neq. intros ->. apply H. reflexivity. Qed.

(** Setting bit [i] sets that bit and no other. *)
Lemma mask_bit_setbit (a a' : list Z) (i b : Z) :
  STRESS_SETBIT a i = Some a' -> 0 <= b ->
  mask_bit a' b = (b =? i) || mask_bit a b.
Proof.
  unfold STRESS_SETBIT. destruct (in_bounds a i) eqn:Hin; [|discriminate].
  intros [= <-] Hb. apply in_bounds_spec in Hin.
  assert (Hk : (Z.to_nat (i / ULONG_BITS) < length a)%nat).
  { unfold ULONG_BITS in *.
    pose proof (Z.div_mod i 64 ltac:(lia)).
    pose proof (Z.mod_pos_bound i 64 ltac:(lia)). lia. }
  unfold mask_bit. rewrite nth_set_word by exact Hk.
  destruct (Nat.eqb (Z.to_nat (b / ULONG_BITS)) (Z.to_nat (i / ULONG_BITS))) eqn:E.
  - apply same_word in E; try lia.
    rewrite Z.lor_spec, land_63 by lia.
    rewrite Z.shiftl_1_l, Z.pow2_bits_eqb
      by (apply Z.mod_pos_bound; reflexivity).
    rewrite (bit_index_eq b i E).
    replace (Z.to_nat (i / ULONG_BITS)) with (Z.to_nat (b / ULONG_BITS))
      by (rewrite E; reflexivity).
    apply Bool.orb_comm.
  - assert (b / ULONG_BITS <> i / ULONG_BITS) as Hne.
    { intros Heq. rewrite Heq, Nat.eqb_refl in E. discriminate. }
    rewrite (word_index_neq b i Hne). reflexivity.
Qed.

Lemma ulong_max_bits (m : Z) : 0 <= m < ULONG_BITS -> Z.testbit ULONG_MAX m = true.
Proof.
  intros H. change ULONG_MAX with (Z.ones 64).
  apply Z.ones_spec_low. unfold ULONG_BITS in H. lia.
Qed.

(** Clearing bit [i] clears that bit and no other. *)
Lemma mask_bit_clrbit (a a' : list Z) (i b : Z) :
  STRESS_CLRBIT a i = Some a' -> 0 <= b ->
  mask_bit a' b = negb (b =? i) && mask_bit a b.
Proof.
  unfold STRESS_CLRBIT. destruct (in_bounds a i) eqn:Hin; [|discriminate].
  intros Ha Hb. apply in_bounds_spec in Hin.
  symmetry in Ha. apply some_inj in Ha. subst a'.
  assert (Hk : (Z.to_nat (i / ULONG_BITS) < length a)%nat).
  { unfold ULONG_BITS in *.
    pose proof (Z.div_mod i 64 ltac:(lia)).
    pose proof (Z.mod_pos_bound i 64 ltac:(lia)). lia. }
  unfold mask_bit. rewrite nth_set_word by exact Hk.
  destruct (Nat.eqb (Z.to_nat (b / ULONG_BITS)) (Z.to_nat (i / ULONG_BITS))) eqn:E.
  - apply same_word in E; try lia.
    rewrite Z.land_spec, Z.lxor_spec, land_63 by lia.
    rewrite ulong_max_bits by (apply Z.mod_pos_bound; reflexivity).
    rewrite Z.shiftl_1_l, Z.pow2_bits_eqb
      by (apply Z.mod_pos_bound; reflexivity).
    rewrite (bit_index_eq b i E).
    replace (Z.to_nat (i / ULONG_BITS)) with (Z.to_nat (b / ULONG_BITS))
      by (rewrite E; reflexivity).
    cbn [xorb]. apply Bool.andb_comm.
  - assert (b / ULONG_BITS <> i / ULONG_BITS) as Hne.
    { intros Heq. rewrite Heq, Nat.eqb_refl in E. discriminate. }
    rewrite (word_index_neq b i Hne). reflexivity.
Qed.

Lemma setbit_length (a a' : list Z) (i : Z) :
  STRESS_SETBIT a i = Some a' -> length a' = length a.
Proof.
  unfold STRESS_SETBIT. destruct (in_bounds a i); [|discriminate].
  intros H. symmetry in H. apply some_inj in H. subst a'. apply set_word_length.
Qed.

Lemma clrbit_length (a a' : list Z) (i : Z) :
  STRESS_CLRBIT a i = Some a' -> length a' = length a.
Proof.
  unfold STRESS_CLRBIT. destruct (in_bounds a i); [|discriminate].
  intros H. symmetry in H. apply some_inj in H. subst a'. apply set_word_length.
Qed.

Lemma setbit_in_bounds (a : list Z) (i : Z) :
  0 <= i < ULONG_BITS * Z.of_nat (length a) -> exists a', STRESS_SETBIT a i = Some a'.
Proof.
  intros H. apply in_bounds_spec in H. unfold STRESS_SETBIT. rewrite H. eauto.
Qed.

Lemma clrbit_in_bounds (a : list Z) (i : Z) :
  0 <= i < ULONG_BITS * Z.of_nat (length a) -> exists a', STRESS_CLRBIT a i = Some a'.
Proof.
  intros H. apply in_bounds_spec in H. unfold STRESS_CLRBIT. rewrite H. eauto.
Qed.

Lemma nth_all_zero (a : list Z) (k : nat) :
  Forall (fun x => x = 0) a -> nth k a 0 = 0.
Proof.
  intros H. revert k. induction H as [|x a Hx _ IH]; intros k.
  - destruct k; reflexivity.
  - destruct k; simpl; [exact Hx | apply IH].
Qed.

Lemma mask_bit_all_zero (a : list Z) (b : Z) :
  Forall (fun x => x = 0) a -> mask_bit a b = false.
Proof.
  intros H. unfold mask_bit. rewrite nth_all_zero by exact H.
  apply Z.testbit_0_l.
Qed.

Lemma repeat_all_zero (n : nat) : Forall (fun x => x = 0) (repeat 0 n).
Proof. induction n; simpl; constructor; auto. Qed.

Lemma memset_zero_all_zero (a : list Z) : Forall (fun x => x = 0) (memset_zero a).
Proof. unfold memset_zero. induction a; simpl; constructor; auto. Qed.

Lemma memset_zero_length (a : list Z) : length (memset_zero a) = length a.
Proof. unfold memset_zero. apply length_map. Qed.

(** ** The randomized per-page binder *)

Lemma mask_ok_capacity (nm : stress_numa_mask_t) :
  mask_ok nm -> max_nodes nm <= ULONG_BITS * Z.of_nat (length (mask nm)).
Proof.
  intros [Hn Hm He Hs Hl]. rewrite Hl, He.
  unfold NUMA_LONG_BITS, ULONG_BITS, ceil_div.
  pose proof (Z.div_mod (- max_nodes nm) 64 ltac:(lia)).
  pose proof (Z.mod_pos_bound (- max_nodes nm) 64 ltac:(lia)). lia.
Qed.

Section RandomizeProps.

Variable rng : Type.
Variable stress_mwc32modn : Z -> rng -> Z * rng.

(** The generator's contract: a value below the modulus. *)
Hypothesis mwc32modn_range :
  forall (n : Z) (g : rng), 0 < n -> 0 <= fst (stress_mwc32modn n g) < n.

Lemma randomize_loop_spec (nm : stress_numa_mask_t) (page_size : Z) :
  1 <= nodes nm < 2 ^ 32 ->
  0 < page_size ->
  forall (n fuel : nat) (buffer_size off : Z) (m : list Z) (g : rng),
    buffer_size = off + Z.of_nat n * page_size ->
    (n <= fuel)%nat ->
    nodes nm <= ULONG_BITS * Z.of_nat (length m) ->
    all_clear m ->
    exists m' g' calls,
      randomize_loop rng stress_mwc32modn fuel nm page_size buffer_size off m g
        = Some (m', g', calls)
      /\ length calls = n
      /\ Forall2 (fun c node =>
                    0 <= node < nodes nm /\ single_bit (mb_mask c) node
                    /\ mb_len c = page_size /\ mb_maxnode c = max_nodes nm)
           calls (mwc_draws rng stress_mwc32modn (nodes nm) n g)
      /\ all_clear m'.
Proof.
  intros Hnodes Hps.
  assert (Hu : to_uint32 (nodes nm) = nodes nm).
  { unfold to_uint32. apply Z.mod_small. lia. }
  induction n as [|n IH]; intros fuel buffer_size off m g Hsz Hfuel Hcap Hclr.
  - exists m, g, []. destruct fuel; cbn [randomize_loop];
      (replace (off <? buffer_size) with false
        by (symmetry; apply Z.ltb_ge; lia));
      repeat split; try constructor; assumption.
  - destruct fuel as [|fuel]; [lia|]. cbn [randomize_loop mwc_draws].
    replace (off <? buffer_size) with true
      by (symmetry; apply Z.ltb_lt; nia).
    rewrite Hu.
    pose proof (mwc32modn_range (nodes nm) g ltac:(lia)) as Hr.
    destruct (stress_mwc32modn (nodes nm) g) as [node g1]. cbn [fst] in Hr.
    destruct (setbit_in_bounds m node ltac:(lia)) as [m1 Hset].
    rewrite Hset.
    pose proof (setbit_length _ _ _ Hset) as Hl1.
    destruct (clrbit_in_bounds m1 node ltac:(rewrite Hl1; lia)) as [m2 Hclr2].
    rewrite Hclr2.
    pose proof (clrbit_length _ _ _ Hclr2) as Hl2.
    assert (Hsingle : single_bit m1 node).
    { intros b Hb. rewrite (mask_bit_setbit _ _ _ _ Hset Hb).
      rewrite (Hclr b Hb). apply Bool.orb_false_r. }
    assert (Hclear2 : all_clear m2).
    { intros b Hb. rewrite (mask_bit_clrbit _ _ _ _ Hclr2 Hb).
      rewrite (Hsingle b Hb). destruct (b =? node); reflexivity. }
    destruct (IH fuel buffer_size (off + page_size) m2 g1)
      as (m' & g' & calls & Hrun & Hlen & Hall & Hfin);
      [lia | lia | rewrite Hl2, Hl1; exact Hcap | exact Hclear2 |].
    rewrite Hrun.
    eexists m', g', _. split; [reflexivity|].
    split; [cbn [length]; lia|].
    split; [|exact Hfin].
    constructor; [|exact Hall].
    cbn [mb_mask mb_len mb_maxnode]. repeat split; try lia. exact Hsingle.
Qed.

(** The [k]-th call of the page loop is made for the address
    [k * page_size] bytes after the one the loop started at. *)
Lemma randomize_loop_offsets (nm : stress_numa_mask_t) (page_size buffer_size : Z) :
  forall (fuel : nat) (off : Z) (m : list Z) (g : rng)
         (m' : list Z) (g' : rng) (calls : list mbind_call),
    randomize_loop rng stress_mwc32modn fuel nm page_size buffer_size off m g
      = Some (m', g', calls) ->
    forall (k : nat) (c : mbind_call),
      nth_error calls k = Some c ->
      mb_offset c = off + Z.of_nat k * page_size.
Proof.
  induction fuel as [|fuel IH]; intros off m g m' g' calls Hrun k c Hk;
    cbn [randomize_loop] in Hrun; destruct (off <? buffer_size).
  - discriminate Hrun.
  - apply some_inj in Hrun. assert (calls = []) by congruence. subst calls.
    destruct k; discriminate Hk.
  - destruct (stress_mwc32modn (to_uint32 (nodes nm)) g) as [node g1].
    destruct (STRESS_SETBIT m node) as [m1|]; [|discriminate Hrun].
    destruct (STRESS_CLRBIT m1 node) as [m2|]; [|discriminate Hrun].
    destruct (randomize_loop rng stress_mwc32modn fuel nm page_size buffer_size
                (off + page_size) m2 g1) as [[[m3 g3] rest]|] eqn:E;
      [|discriminate Hrun].
    apply some_inj in Hrun.
    assert (Hc : calls = mk_mbind_call off page_size m1 (max_nodes nm) :: rest)
      by congruence.
    subst calls. destruct k as [|k].
    + cbn [nth_error] in Hk. apply some_inj in Hk. subst c. cbn [mb_offset]. lia.
    + cbn [nth_error] in Hk. rewrite (IH _ _ _ _ _ _ E k c Hk). lia.
  - apply some_inj in Hrun. assert (calls = []) by congruence. subst calls.
    destruct k; discriminate Hk.
Qed.

(** C4: on a buffer of exactly [n] pages the randomized binder issues
    exactly [n] bind calls, one per page: the [k]-th call (from 0) is
    made for the page that starts [k * page_size] bytes into the buffer
    and for [page_size] bytes; at each call exactly one bit of the mask
    is set, namely the value just drawn from the generator with modulus
    [nodes], which lies in [0, nodes); and when the function returns
    every bit of the mask is clear. *)
Theorem randomize_pages_one_node_per_page
  (nm : stress_numa_mask_t) (page_size : Z) (n : nat) (g : rng) :
  mask_ok nm ->
  0 < page_size ->
  exists nm' g' calls,
    stress_numa_randomize_pages rng stress_mwc32modn nm page_size
      (Z.of_nat n * page_size) g = Some (nm', g', calls)
    /\ length calls = n
    /\ (forall (k : nat) (c : mbind_call),
          nth_error calls k = Some c -> mb_offset c = Z.of_nat k * page_size)
    /\ Forall2 (fun c node =>
                  0 <= node < nodes nm /\ single_bit (mb_mask c) node
                  /\ mb_len c = page_size /\ mb_maxnode c = max_nodes nm)
         calls (mwc_draws rng stress_mwc32modn (nodes nm) n g)
    /\ all_clear (mask nm').
Proof.
  intros Hok Hps.
  pose proof (mask_ok_capacity nm Hok) as Hcap.
  destruct Hok as [Hn Hm He Hs Hl].
  unfold stress_numa_randomize_pages.
  destruct (randomize_loop_spec nm page_size ltac:(lia) Hps n
              (Z.to_nat (Z.of_nat n * page_size)) (Z.of_nat n * page_size) 0
              (memset_zero (mask nm)) g)
    as (m' & g' & calls & Hrun & Hlen & Hall & Hfin).
  - lia.
  - nia.
  - rewrite memset_zero_length. lia.
  - intros b Hb. apply mask_bit_all_zero, memset_zero_all_zero.
  - rewrite Hrun. eexists _, g', calls. split; [reflexivity|].
    cbn [mask]. split; [exact Hlen|]. split; [|auto].
    intros k c Hk.
    rewrite (randomize_loop_offsets _ _ _ _ _ _ _ _ _ _ Hrun k c Hk). lia.
Qed.

End RandomizeProps.

(** ** The node counter on a well-formed status file *)

Lemma fgets_take_line (t : cstr) (rest : stream) :
  no_newline t = true ->
  forall room : nat,
    (length t < room)%nat ->
    fgets_take room (t ++ ch_nl :: rest) = (t ++ [ch_nl], rest).
Proof.
  induction t as [|c t IH]; intros Hnl room Hroom.
  - destruct room; [simpl in Hroom; lia|].
    cbn [app fgets_take]. rewrite ascii_eqb_refl. reflexivity.
  - cbn [no_newline forallb] in Hnl. apply Bool.andb_true_iff in Hnl.
    destruct Hnl as [Hc Ht]. apply Bool.negb_true_iff in Hc.
    destruct room; [simpl in Hroom; lia|].
    cbn [app fgets_take]. rewrite Hc.
    rewrite (IH Ht room) by (simpl in Hroom; lia). reflexivity.
Qed.

Lemma fgets_line (t : cstr) (rest : stream) :
  no_newline t = true ->
  Z.of_nat (length (t ++ [ch_nl])) <= 8191 ->
  fgets BUFFER_SIZE (t ++ ch_nl :: rest) = Some (t ++ [ch_nl], rest).
Proof.
  intros Hnl Hlen. unfold fgets.
  destruct (t ++ ch_nl :: rest) eqn:E.
  { destruct t; discriminate. }
  rewrite <- E. rewrite fgets_take_line; [reflexivity | exact Hnl |].
  rewrite length_app in Hlen. cbn [length] in Hlen.
  pose proof BUFFER_SIZE_val. lia.
Qed.

Lemma find_label_skips (before : list cstr) (line : cstr) (after : stream) :
  Forall other_line before ->
  (exists t, line = t ++ [ch_nl] /\ no_newline t = true
             /\ Z.of_nat (length line) <= 8191) ->
  strncmp_eq line mems_label 13 = true ->
  forall fuel : nat,
    (length before < fuel)%nat ->
    find_label fuel (concat before ++ line ++ after) = Some line.
Proof.
  intros Hbefore (t & -> & Hnl & Hlen) Hlabel.
  induction Hbefore as [|l before (u & -> & Hu & Hul & Hun) _ IH];
    intros fuel Hfuel.
  - destruct fuel; [simpl in Hfuel; lia|].
    cbn [concat app find_label]. rewrite <- app_assoc. cbn [app].
    rewrite fgets_line by assumption. rewrite Hlabel. reflexivity.
  - destruct fuel; [simpl in Hfuel; lia|].
    cbn [concat find_label].
    set (rest := (t ++ [ch_nl]) ++ after) in *.
    rewrite <- !app_assoc. cbn [app].
    rewrite fgets_line by assumption. rewrite Hun.
    apply IH. simpl in Hfuel. lia.
Qed.

Lemma concat_lines_length (before : list cstr) :
  Forall other_line before -> (length before <= length (concat before))%nat.
Proof.
  induction 1 as [|l before (u & -> & _) _ IH]; [simpl; lia|].
  cbn [concat length]. rewrite !length_app. cbn [length]. lia.
Qed.

Lemma set_bits_total_app (a b : cstr) :
  set_bits_total (a ++ b) = set_bits_total a + set_bits_total b.
Proof.
  induction a as [|c a IH]; [reflexivity|]. cbn [app set_bits_total].
  destruct (hex_value c); lia.
Qed.

Lemma hex_digit_count_app (a b : cstr) :
  hex_digit_count (a ++ b) = hex_digit_count a + hex_digit_count b.
Proof.
  induction a as [|c a IH]; [reflexivity|]. cbn [app hex_digit_count]. lia.
Qed.

Lemma hex_digit_count_bounds (s : cstr) :
  0 <= hex_digit_count s <= Z.of_nat (length s).
Proof.
  induction s as [|c s IH]; [simpl; lia|].
  cbn [hex_digit_count length]. destruct (is_hex c); lia.
Qed.

(** The scan over the bitmask text, from its last character back to its
    first: every digit adds its set bits to the count and four slots to
    the bound, a comma adds nothing. *)
Lemma scan_nodes_body (front : cstr) :
  (14 <= length front)%nat ->
  forall (body tail : cstr) (st : count_state),
    forallb mask_char body = true ->
    0 <= cs_node_id st ->
    cs_max_node st = cs_node_id st ->
    cs_node_id st + 4 * Z.of_nat (length body) < ULONG_MOD ->
    scan_nodes (front ++ body ++ tail) (length front + length body - 1) st
    = scan_nodes (front ++ body ++ tail) (length front - 1)
        (mk_count_state (cs_n st + set_bits_total body)
           (cs_node_id st + 4 * hex_digit_count body)
           (cs_node_id st + 4 * hex_digit_count body)).
Proof.
  intros Hfront body.
  induction body as [|c body IH] using rev_ind; intros tail st Hchars H0 Hmax Hb.
  - cbn [length set_bits_total hex_digit_count]. rewrite Nat.add_0_r.
    destruct st as [n id mx]. cbn [cs_n cs_node_id cs_max_node] in *. subst mx.
    f_equal. f_equal; lia.
  - rewrite forallb_app in Hchars. apply Bool.andb_true_iff in Hchars.
    destruct Hchars as [Hbody Hc]. cbn [forallb] in Hc.
    rewrite Bool.andb_true_r in Hc.
    rewrite length_app in *. cbn [length] in *.
    replace (length front + (length body + 1) - 1)%nat
      with (S (length front + length body - 1)) by lia.
    rewrite <- app_assoc. cbn [app].
    remember (front ++ body ++ c :: tail) as buffer eqn:Ebuf.
    assert (Hat : char_at buffer (S (length front + length body - 1)) = c).
    { unfold char_at. subst buffer. rewrite app_assoc.
      replace (S (length front + length body - 1)) with (length (front ++ body))
        by (rewrite length_app; lia).
      apply nth_middle. }
    assert (Hskip : skipn (S (length front + length body - 1)) buffer = c :: tail).
    { subst buffer. rewrite app_assoc.
      replace (S (length front + length body - 1)) with (length (front ++ body))
        by (rewrite length_app; lia).
      rewrite skipn_app, skipn_all, Nat.sub_diag. reflexivity. }
    cbn [scan_nodes]. rewrite Hat, Hskip.
    assert (Hoff : (STR_OFF <? S (length front + length body - 1))%nat = true).
    { apply Nat.ltb_lt. unfold STR_OFF. lia. }
    rewrite Hoff, Bool.andb_true_r.
    rewrite set_bits_total_app, hex_digit_count_app.
    cbn [set_bits_total hex_digit_count].
    unfold mask_char, is_hex in Hc. unfold is_hex.
    destruct (hex_value c) as [v|] eqn:Ev.
    + rewrite (hex_not_blank c v Ev), (hex_not_comma c v Ev). cbn [negb].
      unfold sscanf_1x. cbn [skip_space]. rewrite (hex_not_space c v Ev), Ev.
      pose proof (hex_value_range c v Ev) as Hv.
      rewrite count_digit_spec by lia.
      subst buffer. rewrite (IH (c :: tail)); cbn [cs_n cs_node_id cs_max_node];
        try assumption; try reflexivity; try lia.
      f_equal. f_equal; lia.
    + cbn [orb] in Hc. rewrite Hc.
      apply ascii_eqb_eq in Hc. subst c.
      change (ascii_eqb ch_comma ch_space) with false. cbn [negb].
      subst buffer. rewrite (IH (ch_comma :: tail)); try assumption; try lia.
      f_equal. f_equal; lia.
Qed.

Lemma set_bits_total_bounds (s : cstr) :
  0 <= set_bits_total s <= 4 * hex_digit_count s.
Proof.
  induction s as [|c s IH]; [simpl; lia|].
  cbn [set_bits_total hex_digit_count]. unfold is_hex.
  destruct (hex_value c) as [v|]; [pose proof (bits_set_range v)|]; lia.
Qed.

Lemma scan_nodes_stop (buffer : cstr) (ptr : nat) (st : count_state) :
  char_at buffer ptr = ch_space \/ (ptr <= STR_OFF)%nat ->
  scan_nodes buffer ptr st = (to_ulong (cs_n st), cs_max_node st).
Proof.
  intros H.
  assert (E : negb (ascii_eqb (char_at buffer ptr) ch_space)
              && (STR_OFF <? ptr)%nat = false).
  { destruct H as [H|H].
    - rewrite H, ascii_eqb_refl. reflexivity.
    - apply Bool.andb_false_iff. right. apply Nat.ltb_ge. exact H. }
  destruct ptr; cbn [scan_nodes]; rewrite E; reflexivity.
Qed.

Lemma mask_char_no_newline (body : cstr) :
  forallb mask_char body = true -> no_newline body = true.
Proof.
  induction body as [|c body IH]; [reflexivity|].
  cbn [forallb no_newline]. intros H. apply Bool.andb_true_iff in H.
  destruct H as [Hc Hb]. fold (no_newline body). rewrite (IH Hb), Bool.andb_true_r.
  apply Bool.negb_true_iff.
  destruct (ascii_eqb c ch_nl) eqn:E; [|reflexivity].
  apply ascii_eqb_eq in E. subst c. discriminate Hc.
Qed.

Lemma mask_char_no_nul (body : cstr) :
  forallb mask_char body = true -> no_nul body = true.
Proof.
  induction body as [|c body IH]; [reflexivity|].
  cbn [forallb no_nul]. intros H. apply Bool.andb_true_iff in H.
  destruct H as [Hc Hb]. fold (no_nul body). rewrite (IH Hb), Bool.andb_true_r.
  apply Bool.negb_true_iff.
  destruct (ascii_eqb c zero) eqn:E; [|reflexivity].
  apply ascii_eqb_eq in E. subst c. discriminate Hc.
Qed.

Lemma no_newline_app (a b : cstr) :
  no_newline (a ++ b) = no_newline a && no_newline b.
Proof. unfold no_newline. apply forallb_app. Qed.

(** C3: on a status file whose [Mems_allowed:] line holds, after the
    label and one separating character (or any text that ends with a
    space), neither holding a NUL byte, a bitmask of hexadecimal digits
    and commas closed by a newline, the node counter scans that bitmask
    from its last
    character back to the space or to the start of the string; it
    returns the number of set bits among the hexadecimal digits and
    stores four times the number of hexadecimal digits in [*max_node],
    commas counting for nothing. *)
Theorem count_mem_nodes_valid_line
  (before : list cstr) (junk : cstr) (c : ascii) (body : cstr) (after : stream) :
  Forall other_line before ->
  no_newline (junk ++ [c]) = true ->
  no_nul (junk ++ [c]) = true ->
  junk = [] \/ c = ch_space ->
  forallb mask_char body = true ->
  Z.of_nat (length (mems_label ++ (junk ++ [c]) ++ body ++ [ch_nl])) <= 8191 ->
  stress_numa_count_mem_nodes
    (Some (concat before
           ++ (mems_label ++ (junk ++ [c]) ++ body ++ [ch_nl]) ++ after))
  = (set_bits_total body, 4 * hex_digit_count body).
Proof.
  intros Hbefore Hjunk Hnul Hstop Hbody Hlen.
  unfold stress_numa_count_mem_nodes.
  set (line := mems_label ++ (junk ++ [c]) ++ body ++ [ch_nl]) in *.
  assert (Hline : line = (mems_label ++ (junk ++ [c]) ++ body) ++ [ch_nl]).
  { unfold line. rewrite <- !app_assoc. reflexivity. }
  rewrite (find_label_skips before line after Hbefore).
  - assert (Hstr : no_nul line = true).
    { unfold line.
      rewrite (no_nul_app mems_label), (no_nul_app (junk ++ [c])), Hnul.
      rewrite (no_nul_app body), (mask_char_no_nul body Hbody). reflexivity. }
    cbv beta iota zeta.
    rewrite (no_nul_c_string line Hstr), (no_nul_strlen line Hstr).
    assert (Hbuf : line = (mems_label ++ junk ++ [c]) ++ body ++ [ch_nl]).
    { unfold line. rewrite <- !app_assoc. reflexivity. }
    assert (Hfront : length (mems_label ++ junk ++ [c]) = (14 + length junk)%nat).
    { rewrite !length_app. cbn [length mems_label cs list_ascii_of_string]. lia. }
    assert (Hptr : (length line - 2 =
                    length (mems_label ++ junk ++ [c]) + length body - 1)%nat).
    { rewrite Hbuf, !length_app. cbn [length]. lia. }
    rewrite Hptr, Hbuf.
    assert (Hll : Z.of_nat (length line) =
                  Z.of_nat (length (mems_label ++ junk ++ [c]))
                  + Z.of_nat (length body) + 1).
    { rewrite Hbuf, !length_app. cbn [length]. lia. }
    rewrite scan_nodes_body;
      [| lia | exact Hbody | cbn; lia | reflexivity
       | cbn [cs_node_id]; rewrite ULONG_MOD_val; lia].
    cbn [cs_n cs_node_id].
    rewrite scan_nodes_stop.
    + cbn [cs_n cs_max_node].
      pose proof (set_bits_total_bounds body).
      pose proof (hex_digit_count_bounds body).
      rewrite to_ulong_small by (rewrite ULONG_MOD_val; lia).
      reflexivity.
    + rewrite Hfront. destruct Hstop as [->| ->].
      * right. cbn [length]. unfold STR_OFF. lia.
      * left. unfold char_at.
        replace (14 + length junk - 1)%nat with (length (mems_label ++ junk))
          by (rewrite length_app; cbn [length mems_label cs list_ascii_of_string]; lia).
        replace ((mems_label ++ junk ++ [ch_space]) ++ body ++ [ch_nl])
          with ((mems_label ++ junk) ++ ch_space :: body ++ [ch_nl])
          by (rewrite <- !app_assoc; reflexivity).
        apply nth_middle.
  - exists (mems_label ++ (junk ++ [c]) ++ body). repeat split.
    + exact Hline.
    + rewrite (no_newline_app mems_label), (no_newline_app (junk ++ [c])).
      rewrite Hjunk, (mask_char_no_newline body Hbody). reflexivity.
    + exact Hlen.
  - unfold line. reflexivity.
  - pose proof (concat_lines_length before Hbefore).
    rewrite length_app. lia.
Qed.

(** ** Tokens *)

Lemma comma_fields_nonnil (s : cstr) : comma_fields s <> [].
Proof.
  destruct s as [|c s]; cbn [comma_fields]; [discriminate|].
  destruct (ascii_eqb c ch_comma); [discriminate|].
  destruct (comma_fields s); discriminate.
Qed.

Lemma comma_fields_app (a b : cstr) :
  comma_fields (a ++ ch_comma :: b) = comma_fields a ++ comma_fields b.
Proof.
  induction a as [|c a IH]; cbn [app comma_fields].
  - rewrite ascii_eqb_refl. reflexivity.
  - destruct (ascii_eqb c ch_comma); [rewrite IH; reflexivity|].
    rewrite IH. pose proof (comma_fields_nonnil a) as Hne.
    destruct (comma_fields a); [congruence | reflexivity].
Qed.

Lemma strtok_tokens_app (a b : cstr) :
  strtok_tokens (a ++ ch_comma :: b) = strtok_tokens a ++ strtok_tokens b.
Proof. unfold strtok_tokens. rewrite comma_fields_app. apply filter_app. Qed.

Lemma comma_fields_single (t : cstr) : comma_free t = true -> comma_fields t = [t].
Proof.
  induction t as [|c t IH]; [reflexivity|].
  cbn [comma_free forallb]. intros H. apply Bool.andb_true_iff in H.
  destruct H as [Hc Ht]. apply Bool.negb_true_iff in Hc.
  cbn [comma_fields]. rewrite Hc, (IH Ht). reflexivity.
Qed.

Lemma strtok_tokens_single (t : cstr) :
  comma_free t = true -> nonempty t = true -> strtok_tokens t = [t].
Proof.
  intros Hc Hn. unfold strtok_tokens. rewrite comma_fields_single by exact Hc.
  cbn [filter]. rewrite Hn. reflexivity.
Qed.

Lemma strtok_tokens_join (ts : list cstr) :
  Forall (fun t => comma_free t = true /\ nonempty t = true) ts ->
  strtok_tokens (join_commas ts) = ts.
Proof.
  induction 1 as [|t ts [Hc Hn] Hts IH]; [reflexivity|].
  destruct ts as [|t' ts'].
  - cbn [join_commas]. apply strtok_tokens_single; assumption.
  - change (join_commas (t :: t' :: ts'))
      with (t ++ ch_comma :: join_commas (t' :: ts')).
    rewrite strtok_tokens_app, IH, strtok_tokens_single by assumption.
    reflexivity.
Qed.

(** ** Numerals and [sscanf] *)

Lemma digit_not_space (c : ascii) : isdigit c = true -> isspace c = false.
Proof.
  unfold isdigit, isspace. intros H.
  apply Bool.andb_true_iff in H. destruct H as [H1 H2].
  apply Z.leb_le in H1. apply Z.leb_le in H2.
  apply Bool.orb_false_iff. split.
  - apply Z.eqb_neq. lia.
  - apply Bool.andb_false_iff. right. apply Z.leb_gt. lia.
Qed.

Lemma digit_not_char (c d : ascii) :
  isdigit c = true -> isdigit d = false -> ascii_eqb c d = false.
Proof.
  intros Hc Hd. destruct (ascii_eqb c d) eqn:E; [|reflexivity].
  apply ascii_eqb_eq in E. subst. congruence.
Qed.

Lemma digit_value_range (c : ascii) : isdigit c = true -> 0 <= digit_value c <= 9.
Proof.
  unfold isdigit, digit_value. intros H.
  apply Bool.andb_true_iff in H. destruct H as [H1 H2].
  apply Z.leb_le in H1. apply Z.leb_le in H2. lia.
Qed.

Lemma scan_digits_numeral (ds rest : cstr) (acc : Z) :
  forallb isdigit ds = true -> ends_number rest = true ->
  scan_digits acc (ds ++ rest)
  = fold_left (fun a c => 10 * a + digit_value c) ds acc.
Proof.
  revert acc. induction ds as [|c ds IH]; intros acc Hd Hr.
  - cbn [app fold_left]. destruct rest as [|c rest]; [reflexivity|].
    cbn [ends_number] in Hr. apply Bool.negb_true_iff in Hr.
    cbn [scan_digits]. rewrite Hr. reflexivity.
  - cbn [forallb] in Hd. apply Bool.andb_true_iff in Hd. destruct Hd as [Hc Hd].
    cbn [app scan_digits fold_left]. rewrite Hc. apply IH; assumption.
Qed.

Lemma fold_digits_nonneg (ds : cstr) (acc : Z) :
  forallb isdigit ds = true -> 0 <= acc ->
  0 <= fold_left (fun a c => 10 * a + digit_value c) ds acc.
Proof.
  revert acc. induction ds as [|c ds IH]; intros acc Hd Ha; [exact Ha|].
  cbn [forallb] in Hd. apply Bool.andb_true_iff in Hd. destruct Hd as [Hc Hd].
  cbn [fold_left]. apply IH; [exact Hd|].
  pose proof (digit_value_range c Hc). lia.
Qed.

Lemma numeral_value_nonneg (ds : cstr) : numeral ds = true -> 0 <= numeral_value ds.
Proof.
  unfold numeral. intros H. apply Bool.andb_true_iff in H. destruct H as [_ H].
  apply fold_digits_nonneg; [exact H | lia].
Qed.

Lemma sscanf_lu_numeral (ds rest : cstr) :
  numeral ds = true -> ends_number rest = true ->
  sscanf_lu (ds ++ rest) = Some (saturate (numeral_value ds)).
Proof.
  unfold numeral. intros H Hr. apply Bool.andb_true_iff in H.
  destruct H as [Hne Hd]. destruct ds as [|c ds]; [discriminate|].
  pose proof Hd as Hd'. cbn [forallb] in Hd'.
  apply Bool.andb_true_iff in Hd'. destruct Hd' as [Hc _].
  unfold sscanf_lu. cbn [app skip_space]. rewrite (digit_not_space c Hc).
  rewrite (digit_not_char c ch_minus Hc eq_refl).
  rewrite (digit_not_char c ch_plus Hc eq_refl).
  rewrite Hc.
  change (c :: ds ++ rest) with ((c :: ds) ++ rest).
  rewrite scan_digits_numeral by assumption.
  reflexivity.
Qed.

Lemma saturate_small (v : Z) : v <= ULONG_MAX -> saturate v = v.
Proof.
  intros H. unfold saturate.
  destruct (ULONG_MAX <? v) eqn:E; [apply Z.ltb_lt in E; lia | reflexivity].
Qed.

Lemma saturate_mono (a b : Z) : a <= b -> saturate a <= saturate b.
Proof.
  intros H. unfold saturate.
  destruct (ULONG_MAX <? a) eqn:Ea, (ULONG_MAX <? b) eqn:Eb;
    try apply Z.ltb_lt in Ea; try apply Z.ltb_ge in Ea;
    try apply Z.ltb_lt in Eb; try apply Z.ltb_ge in Eb; lia.
Qed.

Lemma after_hyphen_split (a r : cstr) :
  hyphen_free a = true -> after_hyphen (a ++ ch_minus :: r) = Some r.
Proof.
  induction a as [|c a IH]; cbn [app after_hyphen hyphen_free forallb].
  - rewrite ascii_eqb_refl. reflexivity.
  - intros H. apply Bool.andb_true_iff in H. destruct H as [Hc Ha].
    apply Bool.negb_true_iff in Hc. rewrite Hc. apply IH. exact Ha.
Qed.

Lemma after_hyphen_none (a : cstr) :
  hyphen_free a = true -> after_hyphen a = None.
Proof.
  induction a as [|c a IH]; cbn [after_hyphen hyphen_free forallb]; [reflexivity|].
  intros H. apply Bool.andb_true_iff in H. destruct H as [Hc Ha].
  apply Bool.negb_true_iff in Hc. rewrite Hc. apply IH. exact Ha.
Qed.

Lemma digits_hyphen_free (ds : cstr) : forallb isdigit ds = true -> hyphen_free ds = true.
Proof.
  induction ds as [|c ds IH]; [reflexivity|]. cbn [forallb hyphen_free].
  intros H. apply Bool.andb_true_iff in H. destruct H as [Hc Hd].
  fold (hyphen_free ds). rewrite (IH Hd), (digit_not_char c ch_minus Hc eq_refl).
  reflexivity.
Qed.

Lemma digits_comma_free (ds : cstr) : forallb isdigit ds = true -> comma_free ds = true.
Proof.
  induction ds as [|c ds IH]; [reflexivity|]. cbn [forallb comma_free].
  intros H. apply Bool.andb_true_iff in H. destruct H as [Hc Hd].
  fold (comma_free ds). rewrite (IH Hd), (digit_not_char c ch_comma Hc eq_refl).
  reflexivity.
Qed.

(** ** The binding loop *)

Lemma mask_holds_setbit (m m1 seen : list Z) (i : Z) :
  STRESS_SETBIT m i = Some m1 -> 0 <= i ->
  mask_holds m seen -> mask_holds m1 (seen ++ [i]).
Proof.
  intros Hset Hi Hm b Hb.
  rewrite (mask_bit_setbit _ _ _ _ Hset Hb), in_app_iff, Bool.orb_true_iff.
  rewrite (Hm b Hb), Z.eqb_eq. cbn [In]. intuition congruence.
Qed.

Lemma zrange_length (lo : Z) (n : nat) : length (zrange lo n) = n.
Proof. revert lo. induction n; intros lo; simpl; [reflexivity | now rewrite IHn]. Qed.

Lemma in_zrange (lo : Z) (n : nat) (b : Z) :
  In b (zrange lo n) <-> lo <= b < lo + Z.of_nat n.
Proof.
  revert lo. induction n as [|n IH]; intros lo; cbn [zrange In]; [lia|].
  rewrite IH. lia.
Qed.

Lemma bind_range_spec (w : world) (max_node : Z) :
  max_node < ULONG_MOD ->
  forall (n fuel : nat) (i hi : Z) (m seen more : list Z) (t : trace),
    hi = i + Z.of_nat n - 1 -> (n <= fuel)%nat ->
    0 <= i -> hi < max_node ->
    max_node <= ULONG_BITS * Z.of_nat (length m) ->
    mask_holds m seen ->
    exists out t' calls,
      bind_range w max_node fuel i hi m t = (out, t')
      /\ policy_calls t' = policy_calls t ++ calls
      /\ cumulative max_node seen (zrange i n ++ more) calls
      /\ match out with
         | Ret m' =>
             length calls = n /\ mask_holds m' (seen ++ zrange i n)
             /\ length m' = length m /\ stderr t' = stderr t
         | Exit c =>
             c = EXIT_FAILURE /\ stderr t' <> [] /\ ~ kernel_accepts w
         | Undef => False
         end.
Proof.
  intros Hmax n. induction n as [|n IH];
    intros fuel i hi m seen more t Hhi Hfuel Hi Hlt Hcap Hm.
  - exists (Ret m), t, [].
    assert (E : (i <=? hi) = false) by (apply Z.leb_gt; lia).
    destruct fuel; cbn [bind_range]; rewrite E; unfold ret;
      (split; [reflexivity|]); rewrite !app_nil_r;
      (split; [reflexivity|]); (split; [constructor|]); auto.
  - destruct fuel as [|fuel]; [lia|].
    assert (E : (i <=? hi) = true) by (apply Z.leb_le; lia).
    cbn [bind_range]. rewrite E.
    destruct (setbit_in_bounds m i ltac:(lia)) as [m1 Hset].
    pose proof (mask_holds_setbit m m1 seen i Hset Hi Hm) as Hm1.
    pose proof (setbit_length _ _ _ Hset) as Hl1.
    unfold bind at 1. rewrite Hset. unfold lift_ub, ret.
    unfold bind at 1. unfold shim_set_mempolicy.
    destruct (set_mempolicy w (length (policy_calls t)) m1 max_node)
      as [errno|] eqn:Ek.
    + eexists (Exit EXIT_FAILURE), _, [(m1, max_node)].
      split; [reflexivity|]. cbn [policy_calls stderr].
      split; [reflexivity|].
      split; [cbn [zrange app]; constructor; [exact Hm1 | constructor]|].
      split; [reflexivity|]. split.
      * intros Habs. apply app_eq_nil in Habs. destruct Habs; discriminate.
      * intros Hacc. rewrite Hacc in Ek. discriminate.
    + rewrite (to_ulong_small (i + 1)) by lia.
      destruct (IH fuel (i + 1) hi m1 (seen ++ [i]) more
                  (mk_trace (stderr t) (policy_calls t ++ [(m1, max_node)])))
        as (out & t' & calls & Hrun & Hcalls & Hcum & Hout);
        [lia | lia | lia | lia | rewrite Hl1; exact Hcap | exact Hm1 |].
      exists out, t', ((m1, max_node) :: calls).
      split; [exact Hrun|].
      split; [rewrite Hcalls; cbn [policy_calls]; rewrite <- app_assoc; reflexivity|].
      split; [cbn [zrange app]; constructor; assumption|].
      destruct out as [m'| c |]; [|exact Hout|exact Hout].
      destruct Hout as (Hlen & Hm' & Hl' & Herr).
      cbn [length zrange]. rewrite <- app_assoc in Hm'. cbn [app] in Hm'.
      repeat split; try (apply Hm'; assumption); try lia; try assumption.
Qed.

Lemma check_numa_range_pass (max_node node : Z) (t : trace) :
  node < max_node -> stress_check_numa_range max_node node t = (Ret tt, t).
Proof.
  intros H. unfold stress_check_numa_range.
  replace (node >=? max_node) with false
    by (symmetry; rewrite Z.geb_leb; apply Z.leb_gt; lia).
  reflexivity.
Qed.

Lemma parse_node_numeral (ds rest : cstr) (t : trace) :
  numeral ds = true -> ends_number rest = true ->
  stress_parse_node (ds ++ rest) t = (Ret (saturate (numeral_value ds)), t).
Proof.
  intros Hd Hr. unfold stress_parse_node.
  rewrite sscanf_lu_numeral by assumption. reflexivity.
Qed.

Lemma numeral_parts (ds : cstr) :
  numeral ds = true -> nonempty ds = true /\ forallb isdigit ds = true.
Proof. unfold numeral. intros H. apply Bool.andb_true_iff in H. exact H. Qed.

Lemma parse_node_numeral_only (ds : cstr) (t : trace) :
  numeral ds = true ->
  stress_parse_node ds t = (Ret (saturate (numeral_value ds)), t).
Proof.
  intros Hd. rewrite <- (app_nil_r ds) at 1.
  apply parse_node_numeral; [exact Hd | reflexivity].
Qed.

Lemma bind_Ret {A B : Type} (m : M A) (k : A -> M B) (t t' : trace) (a : A) :
  m t = (Ret a, t') -> bind m k t = k a t'.
Proof. intros H. unfold bind. rewrite H. reflexivity. Qed.

Lemma bind_Exit {A B : Type} (m : M A) (k : A -> M B) (t t' : trace) (c : Z) :
  m t = (Exit c, t') -> bind m k t = (Exit c, t').
Proof. intros H. unfold bind. rewrite H. reflexivity. Qed.

Lemma bind_token_ok (w : world) (max_node : Z) (r : node_range)
  (m seen more : list Z) (t : trace) :
  max_node < ULONG_MOD ->
  range_ok max_node r ->
  max_node <= ULONG_BITS * Z.of_nat (length m) ->
  mask_holds m seen ->
  exists out t' calls,
    bind_token w max_node m (range_text r) t = (out, t')
    /\ policy_calls t' = policy_calls t ++ calls
    /\ cumulative max_node seen (range_nodes r ++ more) calls
    /\ match out with
       | Ret m' =>
           length calls = length (range_nodes r)
           /\ mask_holds m' (seen ++ range_nodes r)
           /\ length m' = length m /\ stderr t' = stderr t
       | Exit c =>
           c = EXIT_FAILURE /\ stderr t' <> [] /\ ~ kernel_accepts w
       | Undef => False
       end.
Proof.
  intros Hmax Hok Hcap Hm. unfold bind_token.
  destruct r as [lo|lo hi]; cbn [range_ok range_text] in *.
  - destruct Hok as [Hlo Hlt].
    destruct (numeral_parts lo Hlo) as [_ Hdig].
    pose proof (numeral_value_nonneg lo Hlo) as H0.
    rewrite (bind_Ret _ _ _ _ _ (parse_node_numeral_only lo t Hlo)).
    rewrite saturate_small by (unfold ULONG_MAX; lia).
    rewrite (after_hyphen_none lo (digits_hyphen_free lo Hdig)).
    rewrite (bind_Ret _ _ t t (numeral_value lo)) by reflexivity.
    rewrite (bind_Ret _ _ t t tt) by (apply check_numa_range_pass; exact Hlt).
    rewrite (bind_Ret _ _ t t tt) by (apply check_numa_range_pass; exact Hlt).
    destruct (bind_range_spec w max_node Hmax
                (Z.to_nat (numeral_value lo - numeral_value lo + 1))
                (Z.to_nat (numeral_value lo - numeral_value lo + 1))
                (numeral_value lo) (numeral_value lo) m seen more t)
      as (out & t' & calls & Hrun & Hcalls & Hcum & Hout);
      try assumption; try lia.
    exists out, t', calls. unfold range_nodes. cbn [range_lo range_hi].
    rewrite zrange_length in *. auto.
  - destruct Hok as (Hlo & Hhi & Hlt & Hltm).
    destruct (numeral_parts lo Hlo) as [_ Hdlo].
    destruct (numeral_parts hi Hhi) as [Hnhi Hdhi].
    pose proof (numeral_value_nonneg lo Hlo) as H0.
    rewrite (bind_Ret _ _ t t (saturate (numeral_value lo)))
      by (apply parse_node_numeral; [exact Hlo | reflexivity]).
    rewrite saturate_small by (unfold ULONG_MAX; lia).
    rewrite (after_hyphen_split lo hi (digits_hyphen_free lo Hdlo)).
    rewrite Hnhi.
    rewrite (bind_Ret _ _ t t (numeral_value hi)).
    2:{ rewrite (bind_Ret _ _ _ _ _ (parse_node_numeral_only hi t Hhi)).
        rewrite saturate_small by (unfold ULONG_MAX; lia).
        replace (numeral_value hi <=? numeral_value lo) with false
          by (symmetry; apply Z.leb_gt; lia).
        reflexivity. }
    rewrite (bind_Ret _ _ t t tt) by (apply check_numa_range_pass; lia).
    rewrite (bind_Ret _ _ t t tt) by (apply check_numa_range_pass; lia).
    destruct (bind_range_spec w max_node Hmax
                (Z.to_nat (numeral_value hi - numeral_value lo + 1))
                (Z.to_nat (numeral_value hi - numeral_value lo + 1))
                (numeral_value lo) (numeral_value hi) m seen more t)
      as (out & t' & calls & Hrun & Hcalls & Hcum & Hout);
      try assumption; try lia.
    exists out, t', calls. unfold range_nodes. cbn [range_lo range_hi].
    rewrite zrange_length in *. auto.
Qed.

Lemma cumulative_app (max_node : Z) (a : list Z) :
  forall (seen more : list Z) (ca cb : list (list Z * Z)),
    cumulative max_node seen (a ++ more) ca ->
    length ca = length a ->
    cumulative max_node (seen ++ a) more cb ->
    cumulative max_node seen (a ++ more) (ca ++ cb).
Proof.
  induction a as [|i a IH]; intros seen more ca cb Hca Hlen Hcb.
  - destruct ca; [|discriminate]. rewrite app_nil_r in Hcb. exact Hcb.
  - destruct ca as [|[m mx] ca]; [discriminate|].
    cbn [app] in *. inversion Hca; subst.
    constructor; [assumption|].
    apply IH; [assumption | simpl in Hlen; lia |].
    rewrite <- app_assoc. exact Hcb.
Qed.

Lemma cumulative_nth (max_node : Z) (seen idxs : list Z) (calls : list (list Z * Z)) :
  cumulative max_node seen idxs calls ->
  (length calls <= length idxs)%nat
  /\ forall (k : nat) (m : list Z) (mx : Z),
       nth_error calls k = Some (m, mx) ->
       mx = max_node /\ mask_holds m (seen ++ firstn (S k) idxs).
Proof.
  induction 1 as [seen idxs | seen i idxs m calls Hm Hc [IHl IHn]].
  - split; [simpl; lia|]. intros k m mx Hk. destruct k; discriminate.
  - split; [simpl; lia|]. intros k m' mx Hk. destruct k as [|k].
    + cbn [nth_error] in Hk. inversion Hk; subst.
      split; [reflexivity|]. exact Hm.
    + cbn [nth_error] in Hk. destruct (IHn k m' mx Hk) as [Hmx Hh].
      split; [exact Hmx|]. rewrite <- app_assoc in Hh. exact Hh.
Qed.

Lemma bind_tokens_ok (w : world) (max_node : Z) :
  max_node < ULONG_MOD ->
  forall (rs : list node_range) (m seen : list Z) (t : trace),
    Forall (range_ok max_node) rs ->
    max_node <= ULONG_BITS * Z.of_nat (length m) ->
    mask_holds m seen ->
    exists out t' calls,
      bind_tokens w max_node m (map range_text rs) t = (out, t')
      /\ policy_calls t' = policy_calls t ++ calls
      /\ cumulative max_node seen (spec_nodes rs) calls
      /\ match out with
         | Ret m' => length calls = length (spec_nodes rs) /\ stderr t' = stderr t
         | Exit c => c = EXIT_FAILURE /\ stderr t' <> [] /\ ~ kernel_accepts w
         | Undef => False
         end.
Proof.
  intros Hmax rs. induction rs as [|r rs IH]; intros m seen t Hok Hcap Hm.
  - exists (Ret m), t, []. cbn [map bind_tokens]. unfold ret.
    rewrite app_nil_r. repeat split. constructor.
  - inversion Hok as [|? ? Hr Hrs]; subst.
    cbn [map bind_tokens spec_nodes flat_map]. fold (spec_nodes rs).
    destruct (bind_token_ok w max_node r m seen (spec_nodes rs) t Hmax Hr Hcap Hm)
      as (out1 & t1 & c1 & Hrun1 & Hcalls1 & Hcum1 & Hout1).
    destruct out1 as [m1|c|]; [| |contradiction].
    + destruct Hout1 as (Hlen1 & Hm1 & Hl1 & Herr1).
      rewrite (bind_Ret _ _ _ _ _ Hrun1).
      destruct (IH m1 (seen ++ range_nodes r) t1 Hrs ltac:(rewrite Hl1; exact Hcap) Hm1)
        as (out & t' & c2 & Hrun & Hcalls & Hcum & Hout).
      exists out, t', (c1 ++ c2).
      split; [exact Hrun|].
      split; [rewrite Hcalls, Hcalls1, app_assoc; reflexivity|].
      split; [apply cumulative_app; assumption|].
      destruct out as [m'|c|]; [| exact Hout | exact Hout].
      destruct Hout as [Hlen Herr]. rewrite !length_app. split; [lia | congruence].
    + rewrite (bind_Exit _ _ _ _ _ Hrun1).
      exists (Exit c), t1, c1. repeat split; try assumption; apply Hout1.
Qed.

Lemma range_text_token (max_node : Z) (r : node_range) :
  range_ok max_node r ->
  comma_free (range_text r) = true /\ nonempty (range_text r) = true.
Proof.
  destruct r as [lo|lo hi]; cbn [range_ok range_text].
  - intros [Hlo _]. destruct (numeral_parts lo Hlo) as [Hn Hd].
    split; [apply digits_comma_free; exact Hd | exact Hn].
  - intros (Hlo & Hhi & _). destruct (numeral_parts lo Hlo) as [Hn Hd].
    destruct (numeral_parts hi Hhi) as [_ Hdh].
    split.
    + unfold comma_free. rewrite forallb_app. cbn [forallb].
      fold (comma_free lo). fold (comma_free hi).
      rewrite (digits_comma_free lo Hd), (digits_comma_free hi Hdh). reflexivity.
    + destruct lo; [discriminate | reflexivity].
Qed.

Lemma spec_text_tokens (max_node : Z) (rs : list node_range) :
  Forall (range_ok max_node) rs ->
  strtok_tokens (spec_text rs) = map range_text rs.
Proof.
  intros H. unfold spec_text. apply strtok_tokens_join.
  induction H as [|r rs Hr _ IH]; cbn [map]; constructor; [|exact IH].
  apply (range_text_token max_node). exact Hr.
Qed.

Lemma nodemask_capacity (max_node : Z) :
  0 <= max_node <= 4 * 8191 ->
  max_node <= ULONG_BITS
              * Z.of_nat (length (repeat 0
                   (Z.to_nat (to_ulong (max_node + (SIZEOF_ULONG * 8 - 1))
                              / (SIZEOF_ULONG * 8))))).
Proof.
  intros H. rewrite repeat_length.
  change (SIZEOF_ULONG * 8) with 64. change ULONG_BITS with 64.
  rewrite to_ulong_small by (rewrite ULONG_MOD_val; lia).
  pose proof (Z.div_mod (max_node + (64 - 1)) 64 ltac:(lia)).
  pose proof (Z.mod_pos_bound (max_node + (64 - 1)) 64 ltac:(lia)).
  lia.
Qed.

Lemma mask_holds_zero (n : nat) : mask_holds (repeat 0 n) [].
Proof.
  intros b Hb. rewrite mask_bit_all_zero by apply repeat_all_zero.
  cbn [In]. split; [discriminate | contradiction].
Qed.

(** The static binder on a well-formed, in-range specification. *)
Lemma set_mbind_ok (w : world) (rs : list node_range) (found max_node : Z) :
  stress_numa_count_mem_nodes (proc_status w) = (found, max_node) ->
  1 <= found -> calloc_ok w = true -> optdup_ok w = true ->
  Forall (range_ok max_node) rs ->
  exists out t,
    stress_set_mbind w (spec_text rs) empty_trace = (out, t)
    /\ cumulative max_node [] (spec_nodes rs) (policy_calls t)
    /\ match out with
       | Ret v =>
           v = 0 /\ length (policy_calls t) = length (spec_nodes rs)
           /\ stderr t = []
       | Exit c => c = EXIT_FAILURE /\ stderr t <> [] /\ ~ kernel_accepts w
       | Undef => False
       end.
Proof.
  intros Hcount Hfound Hcalloc Hdup Hok.
  pose proof (count_mem_nodes_bounds (proc_status w)) as Hb. cbv zeta in Hb.
  rewrite Hcount in Hb. cbn [fst snd] in Hb. destruct Hb as [_ Hmax].
  unfold stress_set_mbind. rewrite Hcount.
  replace (found <? 1) with false by (symmetry; apply Z.ltb_ge; lia).
  rewrite Hcalloc, Hdup. cbn [negb].
  rewrite (spec_text_tokens max_node rs Hok).
  destruct (bind_tokens_ok w max_node ltac:(rewrite ULONG_MOD_val; lia) rs
              (repeat 0 (Z.to_nat (to_ulong (max_node + (SIZEOF_ULONG * 8 - 1))
                                   / (SIZEOF_ULONG * 8))))
              [] empty_trace Hok (nodemask_capacity max_node Hmax)
              (mask_holds_zero _))
    as (out & t' & calls & Hrun & Hcalls & Hcum & Hout).
  cbn [policy_calls empty_trace app] in Hcalls. subst calls.
  destruct out as [m'|c|]; [| |contradiction].
  - rewrite (bind_Ret _ _ _ _ _ Hrun). exists (Ret 0), t'.
    split; [reflexivity|]. split; [exact Hcum|].
    destruct Hout as [Hlen Herr]. auto.
  - rewrite (bind_Exit _ _ _ _ _ Hrun). exists (Exit c), t'. auto.
Qed.

(** ** The static binder: cumulative bindings *)

(** C2: on a well-formed, in-range specification, the [k]-th
    [set_mempolicy] call is made with [max_node] and with a mask that
    holds exactly the first [k] node indices of the left-to-right
    traversal, so nothing is ever cleared between indices or tokens;
    the calls stop early only if the kernel refuses one, and otherwise
    there is one per index and the function returns 0.  For "2-4" with
    [max_node = 8] the three calls carry the masks of {2}, {2,3} and
    {2,3,4}. *)
Theorem mbind_calls_cumulative
  (w : world) (rs : list node_range) (found max_node : Z) :
  stress_numa_count_mem_nodes (proc_status w) = (found, max_node) ->
  1 <= found -> calloc_ok w = true -> optdup_ok w = true ->
  Forall (range_ok max_node) rs ->
  let res := stress_set_mbind w (spec_text rs) empty_trace in
  let calls := policy_calls (snd res) in
  (length calls <= length (spec_nodes rs))%nat
  /\ (forall (k : nat) (m : list Z) (mx : Z),
         nth_error calls k = Some (m, mx) ->
         mx = max_node /\ mask_holds m (firstn (S k) (spec_nodes rs)))
  /\ (kernel_accepts w ->
      fst res = Ret 0 /\ length calls = length (spec_nodes rs))
  /\ stress_set_mbind (world_with "ff") (cs "2-4") empty_trace
     = (Ret 0, mk_trace [] [([4], 8); ([12], 8); ([28], 8)]).
Proof.
  intros Hcount Hfound Hcalloc Hdup Hok. cbv zeta.
  destruct (set_mbind_ok w rs found max_node Hcount Hfound Hcalloc Hdup Hok)
    as (out & t & Hrun & Hcum & Hout).
  rewrite Hrun. cbn [fst snd].
  destruct (cumulative_nth _ _ _ _ Hcum) as [Hlen Hnth].
  split; [exact Hlen|]. split; [exact Hnth|]. split; [|reflexivity].
  intros Hacc. destruct out as [v|c|]; [| |contradiction].
  - destruct Hout as (-> & Hl & _). auto.
  - destruct Hout as (_ & _ & Hno). contradiction.
Qed.

Lemma mbind_calls_cumulative_witness :
  let res := stress_set_mbind (world_with "ff")
               (spec_text [Range (cs "2") (cs "4")]) empty_trace in
  let calls := policy_calls (snd res) in
  (length calls <= length (spec_nodes [Range (cs "2") (cs "4")]))%nat
  /\ (forall (k : nat) (m : list Z) (mx : Z),
         nth_error calls k = Some (m, mx) ->
         mx = 8
         /\ mask_holds m (firstn (S k) (spec_nodes [Range (cs "2") (cs "4")])))
  /\ (kernel_accepts (world_with "ff") ->
      fst res = Ret 0
      /\ length calls = length (spec_nodes [Range (cs "2") (cs "4")]))
  /\ stress_set_mbind (world_with "ff") (cs "2-4") empty_trace
     = (Ret 0, mk_trace [] [([4], 8); ([12], 8); ([28], 8)]).
Proof.
  apply (mbind_calls_cumulative (world_with "ff") [Range (cs "2") (cs "4")] 8 8).
  - reflexivity.
  - lia.
  - reflexivity.
  - reflexivity.
  - constructor; [|constructor]. cbn. repeat split; lia.
Defined.

Lemma firstn_S_nth (l : list Z) (n : nat) :
  (n < length l)%nat -> firstn (S n) l = firstn n l ++ [nth n l 0].
Proof.
  revert n. induction l as [|x l IH]; intros n Hn; [simpl in Hn; lia|].
  destruct n as [|n]; [reflexivity|].
  cbn [firstn nth app]. rewrite <- IH by (simpl in Hn; lia). reflexivity.
Qed.

(** C10: duplicate and overlapping indices are accepted.  When the
    kernel accepts every call, a well-formed, in-range specification is
    processed to the end without any diagnostic and with one
    [set_mempolicy] call per listed index, repeated indices included; a
    call for an index that was already listed carries the same node set
    as the call before it.  For "2,1-3" with [max_node = 8] there are
    four calls, the third with the same mask as the second. *)
Theorem mbind_duplicates_accepted
  (w : world) (rs : list node_range) (found max_node : Z) :
  stress_numa_count_mem_nodes (proc_status w) = (found, max_node) ->
  1 <= found -> calloc_ok w = true -> optdup_ok w = true ->
  Forall (range_ok max_node) rs ->
  kernel_accepts w ->
  let res := stress_set_mbind w (spec_text rs) empty_trace in
  let calls := policy_calls (snd res) in
  let idxs := spec_nodes rs in
  fst res = Ret 0
  /\ stderr (snd res) = []
  /\ length calls = length idxs
  /\ (forall (k : nat) (m0 m1 : list Z) (mx0 mx1 : Z),
         nth_error calls k = Some (m0, mx0) ->
         nth_error calls (S k) = Some (m1, mx1) ->
         In (nth (S k) idxs 0) (firstn (S k) idxs) ->
         forall b : Z, 0 <= b -> mask_bit m1 b = mask_bit m0 b)
  /\ stress_set_mbind (world_with "ff") (cs "2,1-3") empty_trace
     = (Ret 0, mk_trace [] [([4], 8); ([6], 8); ([6], 8); ([14], 8)]).
Proof.
  intros Hcount Hfound Hcalloc Hdup Hok Hacc. cbv zeta.
  destruct (set_mbind_ok w rs found max_node Hcount Hfound Hcalloc Hdup Hok)
    as (out & t & Hrun & Hcum & Hout).
  rewrite Hrun. cbn [fst snd].
  destruct (cumulative_nth _ _ _ _ Hcum) as [Hlen Hnth].
  destruct out as [v|c|]; [| |contradiction].
  2:{ destruct Hout as (_ & _ & Hno). contradiction. }
  destruct Hout as (-> & Hl & Herr).
  repeat split; try assumption; try reflexivity.
  intros k m0 m1 mx0 mx1 H0 H1 Hdup' b Hb.
  destruct (Hnth k m0 mx0 H0) as [_ Hm0].
  destruct (Hnth (S k) m1 mx1 H1) as [_ Hm1].
  cbn [app] in Hm0, Hm1.
  assert (Hk : (S k < length (spec_nodes rs))%nat).
  { rewrite <- Hl. apply nth_error_Some. congruence. }
  rewrite (firstn_S_nth _ (S k) Hk) in Hm1.
  specialize (Hm0 b Hb). specialize (Hm1 b Hb).
  rewrite in_app_iff in Hm1. cbn [In] in Hm1.
  destruct (mask_bit m1 b) eqn:E1, (mask_bit m0 b) eqn:E0; try reflexivity.
  - exfalso. destruct Hm1 as [Hm1 _]. destruct (Hm1 eq_refl) as [Hin|[Heq|[]]].
    + apply Hm0 in Hin. discriminate.
    + subst b. apply Hm0 in Hdup'. discriminate.
  - exfalso. destruct Hm1 as [_ Hm1]. destruct Hm0 as [Hm0 _].
    specialize (Hm1 (or_introl (Hm0 eq_refl))). discriminate.
Qed.

Lemma mbind_duplicates_accepted_witness :
  let res := stress_set_mbind (world_with "ff")
               (spec_text [Single (cs "2"); Range (cs "1") (cs "3")])
               empty_trace in
  let calls := policy_calls (snd res) in
  let idxs := spec_nodes [Single (cs "2"); Range (cs "1") (cs "3")] in
  fst res = Ret 0
  /\ stderr (snd res) = []
  /\ length calls = length idxs
  /\ (forall (k : nat) (m0 m1 : list Z) (mx0 mx1 : Z),
         nth_error calls k = Some (m0, mx0) ->
         nth_error calls (S k) = Some (m1, mx1) ->
         In (nth (S k) idxs 0) (firstn (S k) idxs) ->
         forall b : Z, 0 <= b -> mask_bit m1 b = mask_bit m0 b)
  /\ stress_set_mbind (world_with "ff") (cs "2,1-3") empty_trace
     = (Ret 0, mk_trace [] [([4], 8); ([6], 8); ([6], 8); ([14], 8)]).
Proof.
  apply (mbind_duplicates_accepted (world_with "ff")
           [Single (cs "2"); Range (cs "1") (cs "3")] 8 8).
  - reflexivity.
  - lia.
  - reflexivity.
  - reflexivity.
  - repeat constructor; cbn; lia.
  - intros k m mx. reflexivity.
Defined.

(** ** The static binder on arbitrary input *)

Lemma scan_digits_nonneg (s : cstr) (acc : Z) : 0 <= acc -> 0 <= scan_digits acc s.
Proof.
  revert acc. induction s as [|c s IH]; intros acc Ha; cbn [scan_digits]; [exact Ha|].
  destruct (isdigit c) eqn:Ec; [|exact Ha].
  apply IH. pose proof (digit_value_range c Ec). lia.
Qed.

Lemma sscanf_lu_range (s : cstr) (v : Z) :
  sscanf_lu s = Some v -> 0 <= v <= ULONG_MAX.
Proof.
  unfold sscanf_lu.
  destruct (match skip_space s with
            | [] => (false, skip_space s)
            | c :: r =>
                if ascii_eqb c ch_minus then (true, r)
                else if ascii_eqb c ch_plus then (false, r)
                else (false, skip_space s)
            end) as [neg s2].
  destruct s2 as [|c s2]; [discriminate|].
  destruct (isdigit c); [|discriminate].
  pose proof (scan_digits_nonneg (c :: s2) 0 ltac:(lia)) as Hv.
  intros H. apply some_inj in H. subst v.
  destruct (ULONG_MAX <? scan_digits 0 (c :: s2)) eqn:E.
  - unfold ULONG_MAX. rewrite ULONG_MOD_val. lia.
  - apply Z.ltb_ge in E. destruct neg; [|lia].
    unfold to_ulong, ULONG_MAX.
    pose proof (Z.mod_pos_bound (- scan_digits 0 (c :: s2)) ULONG_MOD
                  ltac:(rewrite ULONG_MOD_val; lia)).
    lia.
Qed.

Lemma sscanf_lu_no_number (s : cstr) :
  no_leading_number s = true -> sscanf_lu s = None.
Proof.
  unfold no_leading_number, strip_sign, sscanf_lu.
  destruct (skip_space s) as [|c r]; [reflexivity|].
  destruct (ascii_eqb c ch_minus) eqn:Em; cbn [orb].
  - destruct r as [|d r]; [reflexivity|].
    intros H. apply Bool.negb_true_iff in H. rewrite H. reflexivity.
  - destruct (ascii_eqb c ch_plus) eqn:Ep.
    + destruct r as [|d r]; [reflexivity|].
      intros H. apply Bool.negb_true_iff in H. rewrite H. reflexivity.
    + intros H. apply Bool.negb_true_iff in H. rewrite H. reflexivity.
Qed.

Lemma bind_range_total (w : world) (max_node : Z) :
  max_node < ULONG_MOD ->
  forall (n fuel : nat) (i hi : Z) (m : list Z) (t : trace),
    hi = i + Z.of_nat n - 1 -> (n <= fuel)%nat ->
    0 <= i -> hi < max_node ->
    max_node <= ULONG_BITS * Z.of_nat (length m) ->
    exists out t' calls,
      bind_range w max_node fuel i hi m t = (out, t')
      /\ policy_calls t' = policy_calls t ++ calls
      /\ match out with
         | Ret m' => length m' = length m /\ stderr t' = stderr t
         | Exit c => c = EXIT_FAILURE /\ fatal_exit t t'
         | Undef => False
         end.
Proof.
  intros Hmax n. induction n as [|n IH];
    intros fuel i hi m t Hhi Hfuel Hi Hlt Hcap.
  - exists (Ret m), t, [].
    assert (E : (i <=? hi) = false) by (apply Z.leb_gt; lia).
    destruct fuel; cbn [bind_range]; rewrite E; unfold ret;
      rewrite app_nil_r; auto.
  - destruct fuel as [|fuel]; [lia|].
    assert (E : (i <=? hi) = true) by (apply Z.leb_le; lia).
    cbn [bind_range]. rewrite E.
    destruct (setbit_in_bounds m i ltac:(lia)) as [m1 Hset].
    pose proof (setbit_length _ _ _ Hset) as Hl1.
    unfold bind at 1. rewrite Hset. unfold lift_ub, ret.
    unfold bind at 1. unfold shim_set_mempolicy.
    destruct (set_mempolicy w (length (policy_calls t)) m1 max_node)
      as [errno|] eqn:Ek.
    + eexists (Exit EXIT_FAILURE), _, [(m1, max_node)].
      split; [reflexivity|]. cbn [policy_calls stderr].
      split; [reflexivity|]. split; [reflexivity|].
      exists (ErrSetPolicy i errno). split; reflexivity.
    + rewrite (to_ulong_small (i + 1)) by lia.
      destruct (IH fuel (i + 1) hi m1
                  (mk_trace (stderr t) (policy_calls t ++ [(m1, max_node)])))
        as (out & t' & calls & Hrun & Hcalls & Hout);
        [lia | lia | lia | lia | rewrite Hl1; exact Hcap |].
      exists out, t', ((m1, max_node) :: calls).
      split; [exact Hrun|].
      split; [rewrite Hcalls; cbn [policy_calls]; rewrite <- app_assoc; reflexivity|].
      destruct out as [m'| c |]; [|exact Hout|exact Hout].
      destruct Hout as (Hl' & Herr). split; [congruence | exact Herr].
Qed.

Lemma die_eq {A : Type} (d : diag) (t : trace) :
  (fprintf_stderr d ;;; @_exit A EXIT_FAILURE) t
  = (Exit EXIT_FAILURE, mk_trace (stderr t ++ [d]) (policy_calls t)).
Proof. reflexivity. Qed.

Lemma die_post (m : list Z) (d : diag) (t : trace) :
  is_error d = true ->
  total_post m t ((fprintf_stderr d ;;; _exit EXIT_FAILURE) t).
Proof.
  intros Hd. rewrite die_eq. exists []. cbn [fst snd policy_calls stderr].
  rewrite app_nil_r. split; [reflexivity|]. split; [reflexivity|].
  exists d. auto.
Qed.

Lemma check_numa_range_fail (max_node node : Z) (t : trace) :
  max_node <= node ->
  exists d, is_error d = true
            /\ stress_check_numa_range max_node node t
               = (Exit EXIT_FAILURE, mk_trace (stderr t ++ [d]) (policy_calls t)).
Proof.
  intros H. unfold stress_check_numa_range.
  replace (node >=? max_node) with true
    by (symmetry; rewrite Z.geb_leb; apply Z.leb_le; lia).
  destruct (max_node >? 1); eexists; (split; [|reflexivity]); reflexivity.
Qed.

Lemma bind_checked_post (w : world) (max_node lo hi : Z) (m : list Z) (t : trace) :
  0 <= max_node < ULONG_MOD ->
  0 <= lo <= hi ->
  max_node <= ULONG_BITS * Z.of_nat (length m) ->
  total_post m t
    ((stress_check_numa_range max_node lo ;;;
      stress_check_numa_range max_node hi ;;;
      bind_range w max_node (Z.to_nat (hi - lo + 1)) lo hi m) t).
Proof.
  intros Hmax Hlo Hcap.
  destruct (Z_lt_le_dec lo max_node) as [Hl|Hl].
  2:{ destruct (check_numa_range_fail max_node lo t Hl) as (d & Hd & E).
      rewrite (bind_Exit _ _ _ _ _ E). exists [].
      cbn [fst snd policy_calls stderr]. rewrite app_nil_r.
      split; [reflexivity|]. split; [reflexivity|]. exists d. auto. }
  rewrite (bind_Ret _ _ t t tt) by (apply check_numa_range_pass; exact Hl).
  destruct (Z_lt_le_dec hi max_node) as [Hh|Hh].
  2:{ destruct (check_numa_range_fail max_node hi t Hh) as (d & Hd & E).
      rewrite (bind_Exit _ _ _ _ _ E). exists [].
      cbn [fst snd policy_calls stderr]. rewrite app_nil_r.
      split; [reflexivity|]. split; [reflexivity|]. exists d. auto. }
  rewrite (bind_Ret _ _ t t tt) by (apply check_numa_range_pass; exact Hh).
  destruct (bind_range_total w max_node ltac:(lia)
              (Z.to_nat (hi - lo + 1)) (Z.to_nat (hi - lo + 1)) lo hi m t)
    as (out & t' & calls & Hrun & Hcalls & Hout); try lia.
  rewrite Hrun. exists calls. cbn [fst snd]. auto.
Qed.

Lemma bind_token_any (w : world) (max_node : Z) (token : cstr)
  (m : list Z) (t : trace) :
  0 <= max_node < ULONG_MOD ->
  max_node <= ULONG_BITS * Z.of_nat (length m) ->
  total_post m t (bind_token w max_node m token t).
Proof.
  intros Hmax Hcap. unfold bind_token, stress_parse_node.
  destruct (sscanf_lu token) as [lo|] eqn:Elo.
  2:{ rewrite (bind_Exit _ _ _ _ _ (die_eq (ErrInvalidNumber token) t)).
      rewrite <- (die_eq (A:=list Z)). apply die_post. reflexivity. }
  pose proof (sscanf_lu_range _ _ Elo) as Hlo.
  rewrite (bind_Ret _ _ t t lo) by reflexivity.
  destruct (after_hyphen token) as [tmpptr|].
  - destruct (nonempty tmpptr).
    + destruct (sscanf_lu tmpptr) as [hi|] eqn:Ehi.
      * pose proof (sscanf_lu_range _ _ Ehi) as Hhi.
        destruct (hi <=? lo) eqn:Ecmp.
        -- erewrite bind_Exit.
           2:{ rewrite (bind_Ret _ _ t t hi) by reflexivity.
               rewrite Ecmp. apply die_eq. }
           rewrite <- (die_eq (A:=list Z)). apply die_post. reflexivity.
        -- apply Z.leb_gt in Ecmp.
           rewrite (bind_Ret _ _ t t hi).
           2:{ rewrite (bind_Ret _ _ t t hi) by reflexivity.
               replace (hi <=? lo) with false by (symmetry; apply Z.leb_gt; lia).
               reflexivity. }
           apply bind_checked_post; [exact Hmax | lia | exact Hcap].
      * erewrite bind_Exit.
        2:{ erewrite bind_Exit; [reflexivity|]. apply die_eq. }
        rewrite <- (die_eq (A:=list Z)). apply die_post. reflexivity.
    + erewrite bind_Exit.
      2:{ erewrite bind_Exit; [reflexivity|]. apply die_eq. }
      rewrite <- (die_eq (A:=list Z)). apply die_post. reflexivity.
  - rewrite (bind_Ret _ _ t t lo) by reflexivity.
    apply bind_checked_post; [exact Hmax | lia | exact Hcap].
Qed.

Lemma bind_token_fatal (w : world) (max_node : Z) (token : cstr)
  (m : list Z) (t : trace) :
  fatal_token token ->
  exists d,
    is_error d = true
    /\ bind_token w max_node m token t
       = (Exit EXIT_FAILURE, mk_trace (stderr t ++ [d]) (policy_calls t)).
Proof.
  intros Hbad. unfold bind_token, stress_parse_node.
  destruct Hbad as [tok Hno | a r Ha Hno | lo hi Hlo Hhi Hle].
  - rewrite (sscanf_lu_no_number tok Hno).
    exists (ErrInvalidNumber tok). split; [reflexivity|].
    apply bind_Exit. apply die_eq.
  - destruct (sscanf_lu (a ++ ch_minus :: r)) as [lo|].
    + rewrite (bind_Ret _ _ t t lo) by reflexivity.
      rewrite (after_hyphen_split a r Ha).
      destruct (nonempty r).
      * rewrite (sscanf_lu_no_number r Hno).
        exists (ErrInvalidNumber r). split; [reflexivity|].
        apply bind_Exit. apply bind_Exit. apply die_eq.
      * exists (ErrExpectNumber (a ++ ch_minus :: r)). split; [reflexivity|].
        apply bind_Exit. apply bind_Exit. apply die_eq.
    + exists (ErrInvalidNumber (a ++ ch_minus :: r)). split; [reflexivity|].
      apply bind_Exit. apply die_eq.
  - destruct (numeral_parts lo Hlo) as [_ Hdlo].
    destruct (numeral_parts hi Hhi) as [Hnhi _].
    rewrite (sscanf_lu_numeral lo (ch_minus :: hi) Hlo eq_refl).
    rewrite (bind_Ret _ _ t t (saturate (numeral_value lo))) by reflexivity.
    rewrite (after_hyphen_split lo hi (digits_hyphen_free lo Hdlo)).
    rewrite Hnhi.
    exists (ErrRangeOrder (lo ++ ch_minus :: hi)). split; [reflexivity|].
    apply bind_Exit.
    rewrite <- (app_nil_r hi) at 1.
    rewrite (sscanf_lu_numeral hi [] Hhi eq_refl).
    rewrite (bind_Ret _ _ t t (saturate (numeral_value hi))) by reflexivity.
    replace (saturate (numeral_value hi) <=? saturate (numeral_value lo)) with true
      by (symmetry; apply Z.leb_le, saturate_mono; exact Hle).
    apply die_eq.
Qed.

Lemma bind_tokens_fatal (w : world) (max_node : Z) (token : cstr) (post : list cstr) :
  0 <= max_node < ULONG_MOD ->
  fatal_token token ->
  forall (pre : list cstr) (m : list Z) (t : trace),
    max_node <= ULONG_BITS * Z.of_nat (length m) ->
    exists t',
      bind_tokens w max_node m (pre ++ token :: post) t = (Exit EXIT_FAILURE, t')
      /\ policy_calls t' = policy_calls (snd (bind_tokens w max_node m pre t))
      /\ stderr t' <> [].
Proof.
  intros Hmax Hbad pre. induction pre as [|p pre IH]; intros m t Hcap.
  - cbn [app bind_tokens].
    destruct (bind_token_fatal w max_node token m t Hbad) as (d & Hd & E).
    rewrite (bind_Exit _ _ _ _ _ E). eexists. split; [reflexivity|].
    cbn [policy_calls stderr snd]. unfold ret. cbn [snd].
    split; [reflexivity|].
    intros Habs. apply app_eq_nil in Habs. destruct Habs; discriminate.
  - cbn [app bind_tokens].
    destruct (bind_token_any w max_node p m t Hmax Hcap) as (calls & Hcalls & Hout).
    destruct (bind_token w max_node m p t) as [[m1|c|] t1] eqn:E;
      cbn [fst snd] in *; [| |contradiction].
    + destruct Hout as [Hl1 _].
      rewrite !(bind_Ret _ _ _ _ _ E).
      apply IH. rewrite Hl1. exact Hcap.
    + destruct Hout as (-> & d & Hd & Herr).
      rewrite !(bind_Exit _ _ _ _ _ E). exists t1.
      split; [reflexivity|]. split; [reflexivity|].
      rewrite Herr. intros Habs. apply app_eq_nil in Habs.
      destruct Habs; discriminate.
Qed.

(** The static binder stops at a token it rejects: the process exits
    with [EXIT_FAILURE] after a diagnostic, and the binding calls made
    are those of the text before the token. *)
Lemma set_mbind_fatal (w : world) (arg before token : cstr) (post : list cstr) :
  strtok_tokens arg = strtok_tokens before ++ token :: post ->
  1 <= fst (stress_numa_count_mem_nodes (proc_status w)) ->
  fatal_token token ->
  exists t,
    stress_set_mbind w arg empty_trace = (Exit EXIT_FAILURE, t)
    /\ stderr t <> []
    /\ policy_calls t = policy_calls (snd (stress_set_mbind w before empty_trace)).
Proof.
  intros Htok Hfound Hbad.
  pose proof (count_mem_nodes_bounds (proc_status w)) as Hb. cbv zeta in Hb.
  unfold stress_set_mbind.
  destruct (stress_numa_count_mem_nodes (proc_status w)) as [found max_node].
  cbn [fst snd] in *. destruct Hb as [_ Hmax].
  replace (found <? 1) with false by (symmetry; apply Z.ltb_ge; lia).
  destruct (calloc_ok w); cbn [negb].
  2:{ eexists. split; [reflexivity|]. split; [|reflexivity]. discriminate. }
  destruct (optdup_ok w); cbn [negb].
  2:{ eexists. split; [reflexivity|]. split; [|reflexivity]. discriminate. }
  rewrite Htok.
  destruct (bind_tokens_fatal w max_node token post
              ltac:(rewrite ULONG_MOD_val; lia) Hbad (strtok_tokens before)
              _ empty_trace (nodemask_capacity max_node Hmax))
    as (t' & Hrun & Hcalls & Herr).
  rewrite (bind_Exit _ _ _ _ _ Hrun). exists t'.
  split; [reflexivity|]. split; [exact Herr|].
  rewrite Hcalls.
  destruct (bind_tokens w max_node _ (strtok_tokens before) empty_trace)
    as [[m1|c|] t1] eqn:E.
  - rewrite (bind_Ret _ _ _ _ _ E). reflexivity.
  - rewrite (bind_Exit _ _ _ _ _ E). reflexivity.
  - unfold bind. rewrite E. reflexivity.
Qed.

Lemma bind_tokens_any (w : world) (max_node : Z) :
  0 <= max_node < ULONG_MOD ->
  forall (tokens : list cstr) (m : list Z) (t : trace),
    max_node <= ULONG_BITS * Z.of_nat (length m) ->
    total_post m t (bind_tokens w max_node m tokens t).
Proof.
  intros Hmax tokens. induction tokens as [|p tokens IH]; intros m t Hcap.
  - exists []. cbn [bind_tokens]. unfold ret. cbn [fst snd].
    rewrite app_nil_r. auto.
  - cbn [bind_tokens].
    destruct (bind_token_any w max_node p m t Hmax Hcap) as (c1 & Hc1 & Hout1).
    destruct (bind_token w max_node m p t) as [[m1|c|] t1] eqn:E;
      cbn [fst snd] in *; [| |contradiction].
    + destruct Hout1 as [Hl1 He1].
      rewrite (bind_Ret _ _ _ _ _ E).
      destruct (IH m1 t1 ltac:(rewrite Hl1; exact Hcap)) as (c2 & Hc2 & Hout2).
      exists (c1 ++ c2). split; [rewrite Hc2, Hc1, app_assoc; reflexivity|].
      destruct (fst (bind_tokens w max_node m1 tokens t1)) as [m2|c|].
      * destruct Hout2. split; congruence.
      * destruct Hout2 as (-> & d & Hd & Herr). split; [reflexivity|].
        exists d. split; [exact Hd | congruence].
      * contradiction.
    + rewrite (bind_Exit _ _ _ _ _ E). exists c1. cbn [fst snd]. auto.
Qed.

(** When the node counter reports no node, the static binder warns and
    returns 0 without binding anything. *)
Lemma set_mbind_no_nodes (w : world) (arg : cstr) (max_node : Z) :
  stress_numa_count_mem_nodes (proc_status w) = (0, max_node) ->
  stress_set_mbind w arg empty_trace = (Ret 0, mk_trace [WarnNoNodes arg] []).
Proof. intros H. unfold stress_set_mbind. rewrite H. reflexivity. Qed.

(** When the node counter fails, its value [(unsigned long)-1] is not
    below 1: the warning is not written, and the run goes on with
    whatever [*max_node] holds. *)
Lemma set_mbind_discovery_failure (w : world) (arg : cstr) :
  fst (stress_numa_count_mem_nodes (proc_status w)) = ULONG_MAX ->
  let res := stress_set_mbind w arg empty_trace in
  ~ In (WarnNoNodes arg) (stderr (snd res))
  /\ (fst res = Ret 0 -> stderr (snd res) = []).
Proof.
  intros Hfail. cbv zeta.
  pose proof (count_mem_nodes_bounds (proc_status w)) as Hb. cbv zeta in Hb.
  unfold stress_set_mbind.
  destruct (stress_numa_count_mem_nodes (proc_status w)) as [found max_node].
  cbn [fst snd] in *. subst found. destruct Hb as [_ Hmax].
  change (ULONG_MAX <? 1) with false. cbv iota.
  destruct (calloc_ok w); cbn [negb].
  2:{ cbn. split; [intros [H|[]]; discriminate | discriminate]. }
  destruct (optdup_ok w); cbn [negb].
  2:{ cbn. split; [intros [H|[]]; discriminate | discriminate]. }
  destruct (bind_tokens_any w max_node ltac:(rewrite ULONG_MOD_val; lia)
              (strtok_tokens arg) _ empty_trace (nodemask_capacity max_node Hmax))
    as (calls & Hcalls & Hout).
  destruct (bind_tokens w max_node _ (strtok_tokens arg) empty_trace)
    as [[m1|c|] t1] eqn:E; cbn [fst snd] in *; [| |contradiction].
  - rewrite (bind_Ret _ _ _ _ _ E). unfold ret. cbn [fst snd].
    destruct Hout as [_ Herr]. rewrite Herr. cbn. auto.
  - rewrite (bind_Exit _ _ _ _ _ E). cbn [fst snd].
    destruct Hout as (-> & d & Hd & Herr). rewrite Herr. cbn.
    split; [|discriminate]. intros [H|[]]. subst d. discriminate.
Qed.

(** The static binder always ends, by returning 0 or by
    [_exit(EXIT_FAILURE)]: the bound on the binding loop is never
    reached and the mask is never written out of bounds. *)
Lemma set_mbind_ends (w : world) (arg : cstr) :
  fst (stress_set_mbind w arg empty_trace) = Ret 0
  \/ fst (stress_set_mbind w arg empty_trace) = Exit EXIT_FAILURE.
Proof.
  pose proof (count_mem_nodes_bounds (proc_status w)) as Hb. cbv zeta in Hb.
  unfold stress_set_mbind.
  destruct (stress_numa_count_mem_nodes (proc_status w)) as [found max_node].
  cbn [fst snd] in *. destruct Hb as [_ Hmax].
  destruct (found <? 1); [left; reflexivity|].
  destruct (calloc_ok w); cbn [negb]; [|right; reflexivity].
  destruct (optdup_ok w); cbn [negb]; [|right; reflexivity].
  destruct (bind_tokens_any w max_node ltac:(rewrite ULONG_MOD_val; lia)
              (strtok_tokens arg) _ empty_trace (nodemask_capacity max_node Hmax))
    as (calls & Hcalls & Hout).
  destruct (bind_tokens w max_node _ (strtok_tokens arg) empty_trace)
    as [[m1|c|] t1] eqn:E; cbn [fst snd] in *; [| |contradiction].
  - rewrite (bind_Ret _ _ _ _ _ E). left. reflexivity.
  - rewrite (bind_Exit _ _ _ _ _ E). right. destruct Hout as [-> _]. reflexivity.
Qed.

(** C1: evaluation at a failing input.  When /proc/self/status cannot
    be opened the node counter returns [(unsigned long)-1] with
    [*max_node = 0]; the static binder, asked to bind node 0, does not
    warn and return 0: it rejects the node as out of range and
    terminates the process with [EXIT_FAILURE]. *)
Theorem mbind_discovery_failure_is_fatal :
  stress_numa_count_mem_nodes (proc_status world_without_status) = (ULONG_MAX, 0)
  /\ stress_set_mbind world_without_status (cs "0") empty_trace
     = (Exit EXIT_FAILURE, mk_trace [ErrNotAllowedZero 0] []).
Proof. split; reflexivity. Qed.

(** ** The static binder: rejected tokens *)

(** C6, as stated, fails: the token "3abc" is not a decimal number, yet
    the static binder reads the 3, ignores the rest, binds node 3 and
    returns 0. *)
Lemma mbind_trailing_text_accepted :
  ~ (numeral (cs "3abc") = false ->
     exists t,
       stress_set_mbind (world_with "ff") (cs "3abc") empty_trace
       = (Exit EXIT_FAILURE, t)
       /\ policy_calls t = []).
Proof.
  intros H. destruct (H eq_refl) as (t & Hrun & _).
  assert (E : stress_set_mbind (world_with "ff") (cs "3abc") empty_trace
              = (Ret 0, mk_trace [] [([8], 8)])) by reflexivity.
  rewrite E in Hrun. discriminate Hrun.
Qed.

(** C6, amended: a token at whose start (after optional white space and
    a sign) no decimal number can be read, a token with nothing or no
    readable number after its first hyphen, and a range [lo-hi] with
    [hi <= lo] are fatal once nodes were discovered: the process exits
    with [EXIT_FAILURE] after a diagnostic, and the binding calls made
    are those of the tokens before it, none for the token itself.  For
    "5-3" the diagnostic says that the end value must be larger than the
    start value and no call is made. *)
Theorem mbind_rejected_token_is_fatal
  (w : world) (arg before token : cstr) (post : list cstr) :
  strtok_tokens arg = strtok_tokens before ++ token :: post ->
  1 <= fst (stress_numa_count_mem_nodes (proc_status w)) ->
  fatal_token token ->
  let res := stress_set_mbind w arg empty_trace in
  fst res = Exit EXIT_FAILURE
  /\ stderr (snd res) <> []
  /\ policy_calls (snd res)
     = policy_calls (snd (stress_set_mbind w before empty_trace))
  /\ stress_set_mbind (world_with "ff") (cs "5-3") empty_trace
     = (Exit EXIT_FAILURE, mk_trace [ErrRangeOrder (cs "5-3")] [])
  /\ forall strerror : Z -> string,
       render strerror (ErrRangeOrder (cs "5-3"))
       = ("option --mbind: invalid range in '5-3' "
          ++ "(end value must be larger than start value" ++ nl)%string.
Proof.
  intros Htok Hfound Hbad. cbv zeta.
  destruct (set_mbind_fatal w arg before token post Htok Hfound Hbad)
    as (t & Hrun & Herr & Hcalls).
  rewrite Hrun. cbn [fst snd].
  repeat split; try assumption; reflexivity.
Qed.

Lemma mbind_rejected_token_is_fatal_witness :
  let res := stress_set_mbind (world_with "ff") (cs "1,5-3,2") empty_trace in
  fst res = Exit EXIT_FAILURE
  /\ stderr (snd res) <> []
  /\ policy_calls (snd res)
     = policy_calls (snd (stress_set_mbind (world_with "ff") (cs "1") empty_trace))
  /\ stress_set_mbind (world_with "ff") (cs "5-3") empty_trace
     = (Exit EXIT_FAILURE, mk_trace [ErrRangeOrder (cs "5-3")] [])
  /\ forall strerror : Z -> string,
       render strerror (ErrRangeOrder (cs "5-3"))
       = ("option --mbind: invalid range in '5-3' "
          ++ "(end value must be larger than start value" ++ nl)%string.
Proof.
  apply (mbind_rejected_token_is_fatal (world_with "ff")
           (cs "1,5-3,2") (cs "1") (cs "5-3") [cs "2"]).
  - reflexivity.
  - vm_compute. discriminate.
  - apply (fatal_order (cs "5") (cs "3")); [reflexivity | reflexivity |].
    vm_compute. discriminate.
Defined.

(** ** Range check *)

(** C5: the range check passes exactly when [0 <= node < max_node].
    Every other node, the node equal to [max_node] first of all,
    terminates the process: the check does not return, it leaves with
    [EXIT_FAILURE] after a diagnostic that gives the allowed range as
    0 to [max_node - 1], or as just 0 when [max_node] is 1; the node
    [max_node - 1] passes.  With [max_node = 4] the static binder
    rejects node 4, alone or as the end of a range, and binds node 3. *)
Theorem check_numa_range_bound (max_node node : Z) (t : trace) :
  0 <= node < ULONG_MOD ->
  0 <= max_node < ULONG_MOD ->
  (stress_check_numa_range max_node node t = (Ret tt, t)
   <-> 0 <= node < max_node)
  /\ (max_node <= node ->
      stress_check_numa_range max_node node t
      = (Exit EXIT_FAILURE,
         mk_trace
           (stderr t ++ [if max_node <=? 1 then ErrNotAllowedZero node
                         else ErrNotAllowedTo node (max_node - 1)])
           (policy_calls t)))
  /\ (node = max_node - 1 ->
      stress_check_numa_range max_node node t = (Ret tt, t))
  /\ stress_numa_count_mem_nodes (proc_status (world_with "f")) = (4, 4)
  /\ stress_set_mbind (world_with "f") (cs "4") empty_trace
     = (Exit EXIT_FAILURE, mk_trace [ErrNotAllowedTo 4 3] [])
  /\ stress_set_mbind (world_with "f") (cs "2-4") empty_trace
     = (Exit EXIT_FAILURE, mk_trace [ErrNotAllowedTo 4 3] [])
  /\ stress_set_mbind (world_with "f") (cs "3") empty_trace
     = (Ret 0, mk_trace [] [([8], 4)])
  /\ forall strerror : Z -> string,
       render strerror (ErrNotAllowedTo 4 3)
       = ("option --mbind: invalid range, 4 is not allowed, "
          ++ "allowed range: 0 to 3" ++ nl)%string
       /\ render strerror (ErrNotAllowedZero 1)
          = ("option --mbind: invalid range, 1 is not allowed, "
             ++ "allowed range: 0" ++ nl)%string.
Proof.
  intros Hnode Hmax.
  split; [|split; [|split; [|repeat split; reflexivity]]].
  - split.
    + intros H. destruct (Z_lt_le_dec node max_node) as [Hlt|Hge]; [lia|].
      destruct (check_numa_range_fail max_node node t Hge) as (d & _ & E).
      rewrite E in H. discriminate H.
    + intros H. apply check_numa_range_pass. lia.
  - intros Hge. unfold stress_check_numa_range.
    replace (node >=? max_node) with true
      by (symmetry; rewrite Z.geb_leb; apply Z.leb_le; exact Hge).
    destruct (max_node <=? 1) eqn:E.
    + apply Z.leb_le in E.
      replace (max_node >? 1) with false
        by (symmetry; rewrite Z.gtb_ltb; apply Z.ltb_ge; lia).
      reflexivity.
    + apply Z.leb_gt in E.
      replace (max_node >? 1) with true
        by (symmetry; rewrite Z.gtb_ltb; apply Z.ltb_lt; lia).
      rewrite to_ulong_small by lia. reflexivity.
  - intros ->. apply check_numa_range_pass. lia.
Qed.

Lemma check_numa_range_bound_witness :
  (stress_check_numa_range 4 4 empty_trace = (Ret tt, empty_trace)
   <-> 0 <= 4 < 4)
  /\ (4 <= 4 ->
      stress_check_numa_range 4 4 empty_trace
      = (Exit EXIT_FAILURE,
         mk_trace
           (stderr empty_trace ++ [if 4 <=? 1 then ErrNotAllowedZero 4
                                   else ErrNotAllowedTo 4 (4 - 1)])
           (policy_calls empty_trace)))
  /\ (4 = 4 - 1 ->
      stress_check_numa_range 4 4 empty_trace = (Ret tt, empty_trace))
  /\ stress_numa_count_mem_nodes (proc_status (world_with "f")) = (4, 4)
  /\ stress_set_mbind (world_with "f") (cs "4") empty_trace
     = (Exit EXIT_FAILURE, mk_trace [ErrNotAllowedTo 4 3] [])
  /\ stress_set_mbind (world_with "f") (cs "2-4") empty_trace
     = (Exit EXIT_FAILURE, mk_trace [ErrNotAllowedTo 4 3] [])
  /\ stress_set_mbind (world_with "f") (cs "3") empty_trace
     = (Ret 0, mk_trace [] [([8], 4)])
  /\ forall strerror : Z -> string,
       render strerror (ErrNotAllowedTo 4 3)
       = ("option --mbind: invalid range, 4 is not allowed, "
          ++ "allowed range: 0 to 3" ++ nl)%string
       /\ render strerror (ErrNotAllowedZero 1)
          = ("option --mbind: invalid range, 1 is not allowed, "
             ++ "allowed range: 0" ++ nl)%string.
Proof.
  apply (check_numa_range_bound 4 4 empty_trace).
  - rewrite ULONG_MOD_val. lia.
  - rewrite ULONG_MOD_val. lia.
Defined.

(** ** Count and bound *)

(** C9: when the node counter does not fail, the count it returns does
    not exceed the bound it stores in [*max_node]; hence every mask the
    allocator returns has [nodes <= max_nodes], and an index drawn
    below [nodes] by the randomized binder is below [max_nodes] and
    lies inside the mask buffer. *)
Theorem node_count_within_max_node (w : world) :
  let r := stress_numa_count_mem_nodes (proc_status w) in
  (fst r <> ULONG_MAX -> 0 <= fst r <= snd r)
  /\ (forall nm : stress_numa_mask_t,
         stress_numa_mask_alloc w = Some nm ->
         nodes nm <= max_nodes nm
         /\ (forall node : Z,
                0 <= node < nodes nm ->
                node < max_nodes nm /\ in_bounds (mask nm) node = true)
         /\ (forall (rng : Type) (stress_mwc32modn : Z -> rng -> Z * rng),
                (forall (n : Z) (g : rng),
                    0 < n -> 0 <= fst (stress_mwc32modn n g) < n) ->
                forall g : rng,
                  0 <= fst (stress_mwc32modn (to_uint32 (nodes nm)) g)
                  < max_nodes nm)).
Proof.
  cbv zeta. split.
  - intros Hok.
    pose proof (count_mem_nodes_bounds (proc_status w)) as [[H|H] _]; [congruence|].
    exact H.
  - intros nm Halloc. apply mask_alloc_some in Halloc.
    destruct Halloc as [Hok _].
    pose proof (mask_ok_capacity nm Hok) as Hcap.
    destruct Hok as [Hn Hm He Hs Hl].
    split; [lia|]. split.
    + intros node Hnode. split; [lia|]. apply in_bounds_spec. lia.
    + intros rng mwc Hrange g.
      assert (Hu : to_uint32 (nodes nm) = nodes nm).
      { unfold to_uint32. apply Z.mod_small. lia. }
      rewrite Hu. pose proof (Hrange (nodes nm) g ltac:(lia)). lia.
Qed.

(** ** Instances *)

Lemma count_mem_nodes_valid_line_witness :
  stress_numa_count_mem_nodes
    (Some (concat [cs "Name:" ++ [ch_tab] ++ cs "stress-ng" ++ [ch_nl]]
           ++ (mems_label ++ ([] ++ [ch_tab]) ++ cs "00000000,00000003" ++ [ch_nl])
           ++ cs "Mems_allowed_list:" ++ [ch_tab] ++ cs "0-1" ++ [ch_nl]))
  = (set_bits_total (cs "00000000,00000003"),
     4 * hex_digit_count (cs "00000000,00000003")).
Proof.
  apply (count_mem_nodes_valid_line
           [cs "Name:" ++ [ch_tab] ++ cs "stress-ng" ++ [ch_nl]]
           [] ch_tab (cs "00000000,00000003")
           (cs "Mems_allowed_list:" ++ [ch_tab] ++ cs "0-1" ++ [ch_nl])).
  - constructor; [|constructor].
    exists (cs "Name:" ++ [ch_tab] ++ cs "stress-ng").
    repeat split; try reflexivity. vm_compute. discriminate.
  - reflexivity.
  - reflexivity.
  - left. reflexivity.
  - reflexivity.
  - vm_compute. discriminate.
Defined.

Lemma randomize_pages_one_node_per_page_witness :
  exists nm' g' calls,
    stress_numa_randomize_pages Z counter_mwc32modn sample_mask 4096
      (Z.of_nat 3 * 4096) 5 = Some (nm', g', calls)
    /\ length calls = 3%nat
    /\ (forall (k : nat) (c : mbind_call),
          nth_error calls k = Some c -> mb_offset c = Z.of_nat k * 4096)
    /\ Forall2 (fun c node =>
                  0 <= node < nodes sample_mask /\ single_bit (mb_mask c) node
                  /\ mb_len c = 4096 /\ mb_maxnode c = max_nodes sample_mask)
         calls (mwc_draws Z counter_mwc32modn (nodes sample_mask) 3 5)
    /\ all_clear (mask nm').
Proof.
  apply (randomize_pages_one_node_per_page Z counter_mwc32modn).
  - intros n g Hn. unfold counter_mwc32modn. cbn [fst].
    apply Z.mod_pos_bound. exact Hn.
  - constructor; cbn; try lia; reflexivity.
  - lia.
Defined.

Lemma sample_mask_allocated :
  stress_numa_mask_alloc (world_with "00000000,00000007") = Some sample_mask.
Proof. reflexivity. Qed.

Lemma node_count_within_max_node_witness :
  let r := stress_numa_count_mem_nodes (proc_status (world_with "ff")) in
  (fst r <> ULONG_MAX -> 0 <= fst r <= snd r)
  /\ (forall nm : stress_numa_mask_t,
         stress_numa_mask_alloc (world_with "ff") = Some nm ->
         nodes nm <= max_nodes nm
         /\ (forall node : Z,
                0 <= node < nodes nm ->
                node < max_nodes nm /\ in_bounds (mask nm) node = true)
         /\ (forall (rng : Type) (stress_mwc32modn : Z -> rng -> Z * rng),
                (forall (n : Z) (g : rng),
                    0 < n -> 0 <= fst (stress_mwc32modn n g) < n) ->
                forall g : rng,
                  0 <= fst (stress_mwc32modn (to_uint32 (nodes nm)) g)
                  < max_nodes nm)).
Proof. exact (node_count_within_max_node (world_with "ff")). Defined.

(** * Further properties *)

(** ** The node counter: failures and edge cases *)

Lemma find_label_no_label (lines : list cstr) :
  Forall other_line lines ->
  forall fuel : nat, find_label fuel (concat lines) = None.
Proof.
  induction 1 as [|l lines (u & -> & Hu & Hul & Hun) _ IH]; intros fuel.
  - destruct fuel; reflexivity.
  - destruct fuel; [reflexivity|].
    cbn [concat find_label]. rewrite <- app_assoc. cbn [app].
    rewrite fgets_line by assumption. rewrite Hun. apply IH.
Qed.

(** X1: when /proc/self/status cannot be opened, or consists of
    newline-terminated lines of at most 8191 characters each (so that
    [fgets] reads every line whole), none of which starts with the
    label, the node counter returns [(unsigned long)-1] and leaves
    [*max_node] at 0; the allocator then returns no mask and the cached
    accessor returns 1. *)
Theorem count_mem_nodes_without_label (w : world) (lines : list cstr) :
  proc_status w = None
  \/ (proc_status w = Some (concat lines) /\ Forall other_line lines) ->
  stress_numa_count_mem_nodes (proc_status w) = (ULONG_MAX, 0)
  /\ stress_numa_mask_alloc w = None
  /\ stress_numa_nodes (proc_status w) nodes_cache_init = (1, 1, true).
Proof.
  intros H.
  assert (E : stress_numa_count_mem_nodes (proc_status w) = (ULONG_MAX, 0)).
  { destruct H as [-> | [-> Hl]]; [reflexivity|].
    unfold stress_numa_count_mem_nodes.
    rewrite (find_label_no_label lines Hl). reflexivity. }
  split; [exact E|]. split.
  - apply mask_alloc_none. rewrite E. cbn [fst snd]. right. right. right. lia.
  - destruct (numa_nodes_first (proc_status w)) as [Hn _]. cbv zeta in Hn.
    rewrite Hn, E. reflexivity.
Qed.

Lemma count_mem_nodes_without_label_witness :
  stress_numa_count_mem_nodes
    (proc_status (mk_world (Some (concat [cs "Name:" ++ [ch_tab] ++ cs "sh" ++ [ch_nl];
                                           cs "Mems_allowed_list:" ++ [ch_tab]
                                           ++ cs "0" ++ [ch_nl]]))
                    true true true (fun _ _ _ => None)))
  = (ULONG_MAX, 0)
  /\ stress_numa_mask_alloc
       (mk_world (Some (concat [cs "Name:" ++ [ch_tab] ++ cs "sh" ++ [ch_nl];
                                cs "Mems_allowed_list:" ++ [ch_tab]
                                ++ cs "0" ++ [ch_nl]]))
          true true true (fun _ _ _ => None)) = None
  /\ stress_numa_nodes
       (proc_status (mk_world (Some (concat [cs "Name:" ++ [ch_tab] ++ cs "sh" ++ [ch_nl];
                                             cs "Mems_allowed_list:" ++ [ch_tab]
                                             ++ cs "0" ++ [ch_nl]]))
                       true true true (fun _ _ _ => None)))
       nodes_cache_init = (1, 1, true).
Proof.
  apply (count_mem_nodes_without_label _
           [cs "Name:" ++ [ch_tab] ++ cs "sh" ++ [ch_nl];
            cs "Mems_allowed_list:" ++ [ch_tab] ++ cs "0" ++ [ch_nl]]).
  right. split; [reflexivity|].
  constructor; [|constructor; [|constructor]].
  - exists (cs "Name:" ++ [ch_tab] ++ cs "sh").
    repeat split; try reflexivity. vm_compute. discriminate.
  - exists (cs "Mems_allowed_list:" ++ [ch_tab] ++ cs "0").
    repeat split; try reflexivity. vm_compute. discriminate.
Defined.

Lemma find_label_reaches (before : list cstr) (s : stream) (buffer : cstr)
  (rest : stream) :
  Forall other_line before ->
  fgets BUFFER_SIZE s = Some (buffer, rest) ->
  strncmp_eq buffer mems_label 13 = true ->
  forall fuel : nat,
    (length before < fuel)%nat ->
    find_label fuel (concat before ++ s) = Some buffer.
Proof.
  intros Hbefore Hget Hlabel.
  induction Hbefore as [|l before (u & -> & Hu & Hul & Hun) _ IH];
    intros fuel Hfuel.
  - destruct fuel; [simpl in Hfuel; lia|].
    cbn [concat app find_label]. rewrite Hget, Hlabel. reflexivity.
  - destruct fuel; [simpl in Hfuel; lia|].
    cbn [concat find_label]. rewrite <- !app_assoc. cbn [app].
    rewrite fgets_line by assumption. rewrite Hun.
    apply IH. simpl in Hfuel. lia.
Qed.

Lemma count_on_buffer (before : list cstr) (s : stream) (buffer : cstr)
  (rest : stream) :
  Forall other_line before ->
  fgets BUFFER_SIZE s = Some (buffer, rest) ->
  strncmp_eq buffer mems_label 13 = true ->
  no_nul buffer = true ->
  stress_numa_count_mem_nodes (Some (concat before ++ s))
  = scan_nodes buffer (length buffer - 2) (mk_count_state 0 0 0).
Proof.
  intros Hbefore Hget Hlabel Hstr. unfold stress_numa_count_mem_nodes.
  rewrite (find_label_reaches before s buffer rest Hbefore Hget Hlabel).
  - cbv beta iota zeta.
    rewrite (no_nul_c_string buffer Hstr), (no_nul_strlen buffer Hstr).
    reflexivity.
  - pose proof (concat_lines_length before Hbefore). rewrite length_app. lia.
Qed.







Lemma fgets_take_eof (t : cstr) :
  no_newline t = true ->
  forall room : nat, (length t <= room)%nat -> fgets_take room t = (t, []).
Proof.
  induction t as [|c t IH]; intros Hnl room Hroom.
  - destruct room; reflexivity.
  - cbn [no_newline forallb] in Hnl. apply Bool.andb_true_iff in Hnl.
    destruct Hnl as [Hc Ht]. apply Bool.negb_true_iff in Hc.
    destruct room; [simpl in Hroom; lia|].
    cbn [fgets_take]. rewrite Hc.
    rewrite (IH Ht room) by (simpl in Hroom; lia). reflexivity.
Qed.

Lemma fgets_eof (t : cstr) :
  t <> [] -> no_newline t = true -> Z.of_nat (length t) <= 8191 ->
  fgets BUFFER_SIZE t = Some (t, []).
Proof.
  intros Hne Hnl Hlen. unfold fgets. destruct t as [|c t]; [congruence|].
  rewrite fgets_take_eof; [reflexivity | exact Hnl |].
  pose proof BUFFER_SIZE_val. lia.
Qed.



Lemma scan_nodes_slots (buffer : cstr) (ptr : nat) :
  forall st : count_state,
    cs_max_node st = cs_node_id st ->
    0 <= cs_node_id st ->
    cs_node_id st + 4 * Z.of_nat ptr < ULONG_MOD ->
    exists k : Z,
      0 <= k <= Z.of_nat ptr
      /\ snd (scan_nodes buffer ptr st) = cs_node_id st + 4 * k.
Proof.
  induction ptr as [|p IH]; intros st Hm H0 Hb.
  - exists 0. cbn [scan_nodes]. rewrite Bool.andb_false_r. cbn [snd]. lia.
  - cbn [scan_nodes].
    destruct (negb (ascii_eqb (char_at buffer (S p)) ch_space)
              && (STR_OFF <? S p)%nat).
    + destruct (ascii_eqb (char_at buffer (S p)) ch_comma).
      * destruct (IH st Hm H0 ltac:(lia)) as (k & Hk & E).
        exists k. split; [lia | exact E].
      * destruct (sscanf_1x (skipn (S p) buffer)) as [val|] eqn:E.
        -- assert (Hv : 0 <= val <= 15).
           { unfold sscanf_1x in E. destruct (skip_space (skipn (S p) buffer));
               [discriminate|]. eapply hex_value_range; eauto. }
           rewrite count_digit_spec by lia.
           match goal with
           | |- context [scan_nodes buffer p ?s] =>
               destruct (IH s) as (k & Hk & Ek)
           end; cbn [cs_node_id cs_max_node]; try lia.
           exists (k + 1). split; [lia|]. rewrite Ek. cbn [cs_node_id]. lia.
        -- exists 0. cbn [snd]. lia.
    + exists 0. cbn [snd]. lia.
Qed.

(** X4: whatever the status file holds, the bound the node counter
    stores in [*max_node] is four times a number of scanned digits: a
    multiple of 4, at most four times the size of the line buffer. *)
Theorem max_node_counts_slots_of_four (status : option stream) :
  exists k : Z,
    0 <= k <= 8191
    /\ snd (stress_numa_count_mem_nodes status) = 4 * k.
Proof.
  unfold stress_numa_count_mem_nodes.
  destruct status as [s|]; [|exists 0; cbn; lia].
  destruct (find_label (S (length s)) s) as [bytes|] eqn:E;
    [|exists 0; cbn; lia].
  pose proof (find_label_length _ _ _ E) as Hl.
  pose proof (strlen_le bytes) as Hs.
  cbv zeta. rewrite strlen_c_string.
  destruct (scan_nodes_slots (c_string bytes) (strlen bytes - 2)
              (mk_count_state 0 0 0))
    as (k & Hk & Ek); cbn [cs_node_id cs_max_node];
    try reflexivity; try lia; [rewrite ULONG_MOD_val; lia|].
  exists k. split; [lia|]. rewrite Ek. cbn [cs_node_id]. lia.
Qed.

(** ** The binding loop, index by index *)

Lemma bind_assoc {A B C : Type} (m : M A) (k : A -> M B) (h : B -> M C) (t : trace) :
  bind (bind m k) h t = bind m (fun a => bind (k a) h) t.
Proof. unfold bind. destruct (m t) as [[a|c|] t']; reflexivity. Qed.

Lemma bind_ext {A B : Type} (m : M A) (k k' : A -> M B) (t : trace) :
  (forall (a : A) (t' : trace), k a t' = k' a t') -> bind m k t = bind m k' t.
Proof. intros H. unfold bind. destruct (m t) as [[a|c|] t']; auto. Qed.

Lemma bind_ret_r {A : Type} (m : M A) (t : trace) : bind m ret t = m t.
Proof. unfold bind, ret. destruct (m t) as [[a|c|] t']; reflexivity. Qed.

Lemma bind_range_unroll (w : world) (max_node : Z) :
  forall (n fuel : nat) (i hi : Z) (m : list Z) (t : trace),
    hi = i + Z.of_nat n - 1 -> (n <= fuel)%nat ->
    0 <= i -> hi + 1 < ULONG_MOD ->
    bind_range w max_node fuel i hi m t
    = bind_indices w max_node (zrange i n) m t.
Proof.
  induction n as [|n IH]; intros fuel i hi m t Hhi Hfuel Hi Hwrap.
  - assert (E : (i <=? hi) = false) by (apply Z.leb_gt; lia).
    destruct fuel; cbn [bind_range zrange bind_indices]; rewrite E; reflexivity.
  - destruct fuel as [|fuel]; [lia|].
    assert (E : (i <=? hi) = true) by (apply Z.leb_le; lia).
    cbn [bind_range zrange bind_indices]. rewrite E.
    unfold bind_index. rewrite bind_assoc. apply bind_ext. intros m1 t1.
    rewrite bind_assoc. apply bind_ext. intros r t2.
    destruct r as [errno|].
    + rewrite bind_assoc. apply bind_ext. intros [] t3. reflexivity.
    + rewrite (to_ulong_small (i + 1)) by lia.
      rewrite (bind_Ret _ _ t2 t2 m1) by reflexivity.
      apply IH; lia.
Qed.

Lemma bind_indices_app (w : world) (max_node : Z) (a b : list Z) :
  forall (m : list Z) (t : trace),
    bind_indices w max_node (a ++ b) m t
    = bind (bind_indices w max_node a m) (bind_indices w max_node b) t.
Proof.
  induction a as [|i a IH]; intros m t.
  - reflexivity.
  - cbn [app bind_indices]. rewrite bind_assoc. apply bind_ext. exact IH.
Qed.

(** One index: the bit is set, the call is recorded, and the kernel's
    answer decides between going on and leaving. *)
Lemma bind_index_step (w : world) (max_node : Z) (m : list Z) (i : Z) (t : trace) :
  0 <= i < ULONG_BITS * Z.of_nat (length m) ->
  exists m1,
    STRESS_SETBIT m i = Some m1
    /\ bind_index w max_node m i t
       = match set_mempolicy w (length (policy_calls t)) m1 max_node with
         | None =>
             (Ret m1, mk_trace (stderr t) (policy_calls t ++ [(m1, max_node)]))
         | Some errno =>
             (Exit EXIT_FAILURE,
              mk_trace (stderr t ++ [ErrSetPolicy i errno])
                (policy_calls t ++ [(m1, max_node)]))
         end.
Proof.
  intros Hi. destruct (setbit_in_bounds m i Hi) as [m1 Hset].
  exists m1. split; [exact Hset|].
  unfold bind_index. unfold bind at 1. rewrite Hset. unfold lift_ub, ret.
  unfold bind at 1. unfold shim_set_mempolicy.
  destruct (set_mempolicy w (length (policy_calls t)) m1 max_node); reflexivity.
Qed.

Lemma checked_tail_shape (w : world) (max_node lo hi : Z) :
  0 <= max_node < ULONG_MOD ->
  0 <= lo <= hi ->
  (exists d,
      is_error d = true
      /\ forall (m : list Z) (t : trace),
           (stress_check_numa_range max_node lo ;;;
            stress_check_numa_range max_node hi ;;;
            bind_range w max_node (Z.to_nat (hi - lo + 1)) lo hi m) t
           = (Exit EXIT_FAILURE, mk_trace (stderr t ++ [d]) (policy_calls t)))
  \/ (hi < max_node
      /\ forall (m : list Z) (t : trace),
           (stress_check_numa_range max_node lo ;;;
            stress_check_numa_range max_node hi ;;;
            bind_range w max_node (Z.to_nat (hi - lo + 1)) lo hi m) t
           = bind_indices w max_node (zrange lo (Z.to_nat (hi - lo + 1))) m t).
Proof.
  intros Hmax Hlo.
  destruct (Z_lt_le_dec lo max_node) as [Hl|Hl].
  2:{ left. unfold stress_check_numa_range.
      replace (lo >=? max_node) with true
        by (symmetry; rewrite Z.geb_leb; apply Z.leb_le; lia).
      destruct (max_node >? 1); eexists; (split; [|intros m t; reflexivity]);
        reflexivity. }
  destruct (Z_lt_le_dec hi max_node) as [Hh|Hh].
  2:{ left. unfold stress_check_numa_range.
      replace (lo >=? max_node) with false
        by (symmetry; rewrite Z.geb_leb; apply Z.leb_gt; lia).
      replace (hi >=? max_node) with true
        by (symmetry; rewrite Z.geb_leb; apply Z.leb_le; lia).
      destruct (max_node >? 1); eexists; (split; [|intros m t; reflexivity]);
        reflexivity. }
  right. split; [exact Hh|]. intros m t.
  rewrite (bind_Ret _ _ t t tt) by (apply check_numa_range_pass; exact Hl).
  rewrite (bind_Ret _ _ t t tt) by (apply check_numa_range_pass; exact Hh).
  apply bind_range_unroll; lia.
Qed.

Lemma bind_token_shape (w : world) (max_node : Z) (token : cstr) :
  0 <= max_node < ULONG_MOD ->
  token_dies w max_node token \/ token_binds w max_node token.
Proof.
  intros Hmax.
  assert (Htail : forall lo hi : Z,
             0 <= lo <= hi ->
             (forall (m : list Z) (t : trace),
                 bind_token w max_node m token t
                 = (stress_check_numa_range max_node lo ;;;
                    stress_check_numa_range max_node hi ;;;
                    bind_range w max_node (Z.to_nat (hi - lo + 1)) lo hi m) t) ->
             token_dies w max_node token \/ token_binds w max_node token).
  { intros lo hi Hlo Heq.
    destruct (checked_tail_shape w max_node lo hi Hmax Hlo)
      as [(d & Hd & E) | (Hh & E)].
    - left. exists d. split; [exact Hd|]. intros m t. rewrite Heq. apply E.
    - right. exists lo, (Z.to_nat (hi - lo + 1)).
      repeat split; try lia. intros m t. rewrite Heq. apply E. }
  assert (Hdie : forall d : diag,
             is_error d = true ->
             (forall (m : list Z) (t : trace),
                 bind_token w max_node m token t
                 = (Exit EXIT_FAILURE,
                    mk_trace (stderr t ++ [d]) (policy_calls t))) ->
             token_dies w max_node token \/ token_binds w max_node token).
  { intros d Hd E. left. exists d. auto. }
  unfold bind_token, stress_parse_node in *.
  destruct (sscanf_lu token) as [lo|] eqn:Elo.
  2:{ apply (Hdie (ErrInvalidNumber token) eq_refl). intros m t. reflexivity. }
  pose proof (sscanf_lu_range _ _ Elo) as Hlo.
  destruct (after_hyphen token) as [tmpptr|].
  - destruct (nonempty tmpptr).
    + destruct (sscanf_lu tmpptr) as [hi|] eqn:Ehi.
      * pose proof (sscanf_lu_range _ _ Ehi) as Hhi.
        destruct (hi <=? lo) eqn:Ecmp.
        -- apply (Hdie (ErrRangeOrder token) eq_refl). intros m t.
           unfold bind at 1. unfold ret at 1. unfold bind at 1.
           unfold bind at 1. unfold ret at 1. rewrite Ecmp. reflexivity.
        -- apply Z.leb_gt in Ecmp. apply (Htail lo hi); [lia|]. intros m t.
           unfold bind at 1. unfold ret at 1. unfold bind at 1.
           unfold bind at 1. unfold ret at 1.
           replace (hi <=? lo) with false by (symmetry; apply Z.leb_gt; lia).
           reflexivity.
      * apply (Hdie (ErrInvalidNumber tmpptr) eq_refl). intros m t. reflexivity.
    + apply (Hdie (ErrExpectNumber token) eq_refl). intros m t. reflexivity.
  - apply (Htail lo lo); [lia|]. intros m t. reflexivity.
Qed.

Lemma bind_ext_l {A B : Type} (m m' : M A) (k : A -> M B) (t : trace) :
  m t = m' t -> bind m k t = bind m' k t.
Proof. intros H. unfold bind. rewrite H. reflexivity. Qed.

Lemma zrange_below (lo : Z) (n : nat) (max_node : Z) :
  0 <= lo -> lo + Z.of_nat n <= max_node ->
  Forall (fun i => 0 <= i < max_node) (zrange lo n).
Proof.
  intros H0 Hmax. apply Forall_forall. intros i Hi.
  apply in_zrange in Hi. lia.
Qed.

(** The whole token loop amounts to binding one list of indices, all
    below [max_node], and then returning or leaving with one
    diagnostic; the list and the ending depend on the tokens only. *)
Lemma bind_tokens_shape (w : world) (max_node : Z) :
  0 <= max_node < ULONG_MOD ->
  forall tokens : list cstr,
  exists (idxs : list Z) (ending : option diag),
    Forall (fun i => 0 <= i < max_node) idxs
    /\ (forall d, ending = Some d -> is_error d = true)
    /\ forall (m : list Z) (t : trace),
         bind_tokens w max_node m tokens t
         = bind (bind_indices w max_node idxs m) (finish ending) t.
Proof.
  intros Hmax tokens. induction tokens as [|p tokens IH].
  - exists [], None. split; [constructor|]. split; [discriminate|].
    intros m t. reflexivity.
  - destruct (bind_token_shape w max_node p Hmax)
      as [(d & Hd & E) | (lo & n & Hlo & Hn & Hn1 & E)].
    + exists [], (Some d). split; [constructor|].
      split; [intros d' [= <-]; exact Hd|].
      intros m t. cbn [bind_tokens]. rewrite (bind_Exit _ _ _ _ _ (E m t)).
      reflexivity.
    + destruct IH as (idxs & ending & Hin & Hend & Hrest).
      exists (zrange lo n ++ idxs), ending.
      split; [apply Forall_app; split; [apply zrange_below; lia | exact Hin]|].
      split; [exact Hend|].
      intros m t. cbn [bind_tokens].
      rewrite (bind_ext_l _ _ _ t (E m t)).
      rewrite (bind_ext _ _ _ t Hrest).
      rewrite <- bind_assoc. apply bind_ext_l.
      symmetry. apply bind_indices_app.
Qed.

Lemma bind_indices_cumulative (w : world) (max_node : Z) :
  forall (idxs m seen : list Z) (t : trace),
    Forall (fun i => 0 <= i < max_node) idxs ->
    max_node <= ULONG_BITS * Z.of_nat (length m) ->
    mask_holds m seen ->
    exists out t' calls,
      bind_indices w max_node idxs m t = (out, t')
      /\ policy_calls t' = policy_calls t ++ calls
      /\ cumulative max_node seen idxs calls
      /\ match out with
         | Ret m' =>
             length calls = length idxs /\ mask_holds m' (seen ++ idxs)
             /\ length m' = length m /\ stderr t' = stderr t
         | Exit c =>
             c = EXIT_FAILURE
             /\ exists i errno, stderr t' = stderr t ++ [ErrSetPolicy i errno]
         | Undef => False
         end.
Proof.
  induction idxs as [|i idxs IH]; intros m seen t Hin Hcap Hm.
  - exists (Ret m), t, []. cbn [bind_indices]. unfold ret.
    rewrite !app_nil_r. split; [reflexivity|]. split; [reflexivity|].
    split; [apply cumulative_nil|]. auto.
  - inversion Hin as [|? ? Hi Hrest]; subst.
    destruct (bind_index_step w max_node m i t ltac:(lia)) as (m1 & Hset & Hstep).
    pose proof (mask_holds_setbit m m1 seen i Hset ltac:(lia) Hm) as Hm1.
    pose proof (setbit_length _ _ _ Hset) as Hl1.
    cbn [bind_indices].
    destruct (set_mempolicy w (length (policy_calls t)) m1 max_node) as [errno|].
    + rewrite (bind_Exit _ _ _ _ _ Hstep).
      eexists _, _, [(m1, max_node)]. split; [reflexivity|].
      cbn [policy_calls stderr]. split; [reflexivity|].
      split; [constructor; [exact Hm1 | constructor]|].
      split; [reflexivity|]. exists i, errno. reflexivity.
    + rewrite (bind_Ret _ _ _ _ _ Hstep).
      destruct (IH m1 (seen ++ [i])
                  (mk_trace (stderr t) (policy_calls t ++ [(m1, max_node)]))
                  Hrest ltac:(rewrite Hl1; exact Hcap) Hm1)
        as (out & t' & calls & Hrun & Hcalls & Hcum & Hout).
      exists out, t', ((m1, max_node) :: calls).
      split; [exact Hrun|].
      split; [rewrite Hcalls; cbn [policy_calls]; rewrite <- app_assoc; reflexivity|].
      split; [constructor; assumption|].
      destruct out as [m'|c|]; [|exact Hout|exact Hout].
      destruct Hout as (Hlen & Hm' & Hl' & Herr).
      rewrite <- app_assoc in Hm'. cbn [app] in Hm'. cbn [length].
      repeat split; try (apply Hm'; assumption); try lia; assumption.
Qed.

Lemma in_firstn_in (l : list Z) (n : nat) (x : Z) : In x (firstn n l) -> In x l.
Proof.
  revert n. induction l as [|y l IH]; intros n H.
  - destruct n; exact H.
  - destruct n as [|n]; [contradiction|].
    cbn [firstn In] in *. destruct H as [H|H]; [left; exact H | right; eauto].
Qed.

Lemma finish_calls (ending : option diag) (m : list Z) (t : trace) :
  policy_calls (snd (finish ending m t)) = policy_calls t.
Proof. destruct ending; reflexivity. Qed.

(** The calls of the static binder follow one list of indices below
    [max_node], whatever the argument. *)
Lemma set_mbind_calls_follow_indices (w : world) (arg : cstr) :
  let max_node := snd (stress_numa_count_mem_nodes (proc_status w)) in
  let calls := policy_calls (snd (stress_set_mbind w arg empty_trace)) in
  exists idxs : list Z,
    Forall (fun i => 0 <= i < max_node) idxs
    /\ (length calls <= length idxs)%nat
    /\ (forall (k : nat) (m : list Z) (mx : Z),
           nth_error calls k = Some (m, mx) ->
           mx = max_node
           /\ mask_holds m (firstn (S k) idxs)
           /\ (forall b : Z, 0 <= b -> mask_bit m b = true -> b < max_node)).
Proof.
  cbv zeta.
  pose proof (count_mem_nodes_bounds (proc_status w)) as Hb. cbv zeta in Hb.
  unfold stress_set_mbind.
  destruct (stress_numa_count_mem_nodes (proc_status w)) as [found max_node].
  cbn [fst snd] in *. destruct Hb as [_ Hmax].
  assert (Hnone : forall t : trace, policy_calls t = [] ->
            exists idxs : list Z,
              Forall (fun i => 0 <= i < max_node) idxs
              /\ (length (policy_calls t) <= length idxs)%nat
              /\ (forall (k : nat) (m : list Z) (mx : Z),
                     nth_error (policy_calls t) k = Some (m, mx) ->
                     mx = max_node
                     /\ mask_holds m (firstn (S k) idxs)
                     /\ (forall b : Z, 0 <= b -> mask_bit m b = true -> b < max_node))).
  { intros t Ht. exists []. rewrite Ht. split; [constructor|].
    split; [simpl; lia|]. intros k m mx Hk. destruct k; discriminate. }
  destruct (found <? 1); [apply Hnone; reflexivity|].
  destruct (calloc_ok w); cbn [negb]; [|apply Hnone; reflexivity].
  destruct (optdup_ok w); cbn [negb]; [|apply Hnone; reflexivity].
  destruct (bind_tokens_shape w max_node ltac:(rewrite ULONG_MOD_val; lia)
              (strtok_tokens arg)) as (idxs & ending & Hin & Hend & Hshape).
  exists idxs. split; [exact Hin|].
  set (m0 := repeat 0 (Z.to_nat (to_ulong (max_node + (SIZEOF_ULONG * 8 - 1))
                                 / (SIZEOF_ULONG * 8)))).
  destruct (bind_indices_cumulative w max_node idxs m0 [] empty_trace Hin
              (nodemask_capacity max_node Hmax) (mask_holds_zero _))
    as (out & t' & calls & Hrun & Hcalls & Hcum & Hout).
  cbn [policy_calls empty_trace app] in Hcalls.
  assert (Hsame : policy_calls
                    (snd ((bind_tokens w max_node m0 (strtok_tokens arg);;; ret 0)
                            empty_trace)) = calls).
  { unfold bind at 1. rewrite Hshape.
    destruct out as [m'|c|]; [| |contradiction].
    - rewrite (bind_Ret _ _ _ _ _ Hrun).
      destruct ending as [d|]; exact Hcalls.
    - rewrite (bind_Exit _ _ _ _ _ Hrun). exact Hcalls. }
  rewrite Hsame.
  destruct (cumulative_nth _ _ _ _ Hcum) as [Hlen Hnth].
  split; [exact Hlen|].
  intros k m mx Hk. destruct (Hnth k m mx Hk) as [Hmx Hholds].
  cbn [app] in Hholds. split; [exact Hmx|]. split; [exact Hholds|].
  intros b Hb Hbit. apply (Hholds b Hb) in Hbit.
  apply in_firstn_in in Hbit.
  rewrite Forall_forall in Hin. apply Hin in Hbit. lia.
Qed.

(** X5: whatever the argument, well formed or not, the memory-policy
    calls of the static binder follow one list of node indices, all
    below [max_node]: every call passes [max_node], the [k]-th call
    binds exactly the first [k] indices of that list, so no call ever
    names a node at or beyond [max_node] and no node, once bound, is
    dropped by a later call. *)
Theorem mbind_any_argument_binds_in_range (w : world) (arg : cstr) :
  let max_node := snd (stress_numa_count_mem_nodes (proc_status w)) in
  let calls := policy_calls (snd (stress_set_mbind w arg empty_trace)) in
  exists idxs : list Z,
    Forall (fun i => 0 <= i < max_node) idxs
    /\ (length calls <= length idxs)%nat
    /\ (forall (k : nat) (m : list Z) (mx : Z),
           nth_error calls k = Some (m, mx) ->
           mx = max_node
           /\ mask_holds m (firstn (S k) idxs)
           /\ (forall b : Z, 0 <= b -> mask_bit m b = true -> b < max_node)).
Proof. exact (set_mbind_calls_follow_indices w arg). Qed.

(** X6: every run of the static binder ends in one of three ways, and
    the count of nodes decides which.  When the node counter returns
    0, and only then, the binder writes the single warning that no
    node was found and returns 0 with no call made.  Otherwise it
    either returns 0 having written nothing to stderr, or leaves with
    [_exit(EXIT_FAILURE)] after exactly one error diagnostic.  It never
    writes the mask out of bounds and its binding loop always ends. *)
Theorem mbind_outcome_and_diagnostics (w : world) (arg : cstr) :
  let found := fst (stress_numa_count_mem_nodes (proc_status w)) in
  let res := stress_set_mbind w arg empty_trace in
  (found = 0 /\ res = (Ret 0, mk_trace [WarnNoNodes arg] []))
  \/ (found <> 0
      /\ ((fst res = Ret 0 /\ stderr (snd res) = [])
          \/ (fst res = Exit EXIT_FAILURE
              /\ exists d, is_error d = true /\ stderr (snd res) = [d]))).
Proof.
  cbv zeta.
  pose proof (count_mem_nodes_bounds (proc_status w)) as Hb. cbv zeta in Hb.
  unfold stress_set_mbind.
  destruct (stress_numa_count_mem_nodes (proc_status w)) as [found max_node].
  cbn [fst snd] in *. destruct Hb as [Hfound Hmax].
  destruct (found <? 1) eqn:Ef.
  { apply Z.ltb_lt in Ef. left. split; [|reflexivity].
    destruct Hfound as [Hf|Hf]; [|lia].
    subst found. unfold ULONG_MAX in Ef. rewrite ULONG_MOD_val in Ef. lia. }
  apply Z.ltb_ge in Ef. right. split; [lia|].
  destruct (calloc_ok w); cbn [negb].
  2:{ right. cbn. split; [reflexivity|]. exists ErrNodemaskAlloc. auto. }
  destruct (optdup_ok w); cbn [negb].
  2:{ right. cbn. split; [reflexivity|]. exists (ErrDupArg arg). auto. }
  destruct (bind_tokens_any w max_node ltac:(rewrite ULONG_MOD_val; lia)
              (strtok_tokens arg) _ empty_trace (nodemask_capacity max_node Hmax))
    as (calls & Hcalls & Hout).
  destruct (bind_tokens w max_node _ (strtok_tokens arg) empty_trace)
    as [[m1|c|] t1] eqn:E; cbn [fst snd] in *; [| |contradiction].
  - rewrite (bind_Ret _ _ _ _ _ E). unfold ret. cbn [fst snd].
    destruct Hout as [_ Herr]. left. split; [reflexivity|]. exact Herr.
  - rewrite (bind_Exit _ _ _ _ _ E). cbn [fst snd].
    destruct Hout as (-> & d & Hd & Herr). right. split; [reflexivity|].
    exists d. split; [exact Hd|]. rewrite Herr. reflexivity.
Qed.

(** On a well-formed, in-range element the token loop body is the
    binding of its nodes, one index after the other. *)
Lemma bind_token_wf_eq (w : world) (max_node : Z) (r : node_range)
  (m : list Z) (t : trace) :
  max_node < ULONG_MOD ->
  range_ok max_node r ->
  bind_token w max_node m (range_text r) t
  = bind_indices w max_node (range_nodes r) m t.
Proof.
  intros Hmax Hok. unfold bind_token, range_nodes.
  destruct r as [lo|lo hi]; cbn [range_ok range_text range_lo range_hi] in *.
  - destruct Hok as [Hlo Hlt].
    destruct (numeral_parts lo Hlo) as [_ Hdig].
    pose proof (numeral_value_nonneg lo Hlo) as H0.
    rewrite (bind_Ret _ _ _ _ _ (parse_node_numeral_only lo t Hlo)).
    rewrite saturate_small by (unfold ULONG_MAX; lia).
    rewrite (after_hyphen_none lo (digits_hyphen_free lo Hdig)).
    rewrite (bind_Ret _ _ t t (numeral_value lo)) by reflexivity.
    rewrite (bind_Ret _ _ t t tt) by (apply check_numa_range_pass; exact Hlt).
    rewrite (bind_Ret _ _ t t tt) by (apply check_numa_range_pass; exact Hlt).
    apply bind_range_unroll; lia.
  - destruct Hok as (Hlo & Hhi & Hlt & Hltm).
    destruct (numeral_parts lo Hlo) as [_ Hdlo].
    destruct (numeral_parts hi Hhi) as [Hnhi Hdhi].
    pose proof (numeral_value_nonneg lo Hlo) as H0.
    rewrite (bind_Ret _ _ t t (saturate (numeral_value lo)))
      by (apply parse_node_numeral; [exact Hlo | reflexivity]).
    rewrite saturate_small by (unfold ULONG_MAX; lia).
    rewrite (after_hyphen_split lo hi (digits_hyphen_free lo Hdlo)).
    rewrite Hnhi.
    rewrite (bind_Ret _ _ t t (numeral_value hi)).
    2:{ rewrite (bind_Ret _ _ _ _ _ (parse_node_numeral_only hi t Hhi)).
        rewrite saturate_small by (unfold ULONG_MAX; lia).
        replace (numeral_value hi <=? numeral_value lo) with false
          by (symmetry; apply Z.leb_gt; lia).
        reflexivity. }
    rewrite (bind_Ret _ _ t t tt) by (apply check_numa_range_pass; lia).
    rewrite (bind_Ret _ _ t t tt) by (apply check_numa_range_pass; lia).
    apply bind_range_unroll; lia.
Qed.

Lemma bind_tokens_wf_eq (w : world) (max_node : Z) (rs : list node_range) :
  max_node < ULONG_MOD ->
  Forall (range_ok max_node) rs ->
  forall (m : list Z) (t : trace),
    bind_tokens w max_node m (map range_text rs) t
    = bind_indices w max_node (spec_nodes rs) m t.
Proof.
  intros Hmax Hok. induction Hok as [|r rs Hr _ IH]; intros m t.
  - reflexivity.
  - cbn [map bind_tokens spec_nodes flat_map]. fold (spec_nodes rs).
    rewrite bind_indices_app.
    rewrite (bind_ext_l _ _ _ t (bind_token_wf_eq w max_node r m t Hmax Hr)).
    apply bind_ext. exact IH.
Qed.

(** On a well-formed, in-range specification the static binder is the
    binding of the traversal, index by index, followed by [return 0]. *)
Lemma set_mbind_wf_eq (w : world) (rs : list node_range) (found max_node : Z) :
  stress_numa_count_mem_nodes (proc_status w) = (found, max_node) ->
  1 <= found -> calloc_ok w = true -> optdup_ok w = true ->
  Forall (range_ok max_node) rs ->
  stress_set_mbind w (spec_text rs) empty_trace
  = (bind_indices w max_node (spec_nodes rs)
       (repeat 0 (Z.to_nat (to_ulong (max_node + (SIZEOF_ULONG * 8 - 1))
                            / (SIZEOF_ULONG * 8)))) ;;; ret 0) empty_trace.
Proof.
  intros Hcount Hfound Hcalloc Hdup Hok.
  pose proof (count_mem_nodes_bounds (proc_status w)) as Hb. cbv zeta in Hb.
  rewrite Hcount in Hb. cbn [fst snd] in Hb. destruct Hb as [_ Hmax].
  unfold stress_set_mbind. rewrite Hcount.
  replace (found <? 1) with false by (symmetry; apply Z.ltb_ge; lia).
  rewrite Hcalloc, Hdup. cbn [negb].
  rewrite (spec_text_tokens max_node rs Hok).
  apply bind_ext_l. apply bind_tokens_wf_eq; [rewrite ULONG_MOD_val; lia | exact Hok].
Qed.

(** X7: a range is shorthand for the list of its nodes.  Two
    well-formed, in-range specifications with the same left-to-right
    traversal (such as "1-3,5" and "1,2-3,5") make the static binder
    behave identically: same calls, same diagnostics, same outcome,
    whatever the kernel answers. *)
Theorem mbind_same_traversal_same_run
  (w : world) (rs1 rs2 : list node_range) (found max_node : Z) :
  stress_numa_count_mem_nodes (proc_status w) = (found, max_node) ->
  1 <= found -> optdup_ok w = true ->
  Forall (range_ok max_node) rs1 ->
  Forall (range_ok max_node) rs2 ->
  spec_nodes rs1 = spec_nodes rs2 ->
  stress_set_mbind w (spec_text rs1) empty_trace
  = stress_set_mbind w (spec_text rs2) empty_trace.
Proof.
  intros Hcount Hfound Hdup Hok1 Hok2 Hsame.
  destruct (calloc_ok w) eqn:Hcalloc.
  - rewrite (set_mbind_wf_eq w rs1 found max_node) by assumption.
    rewrite (set_mbind_wf_eq w rs2 found max_node) by assumption.
    rewrite Hsame. reflexivity.
  - unfold stress_set_mbind. rewrite Hcount.
    replace (found <? 1) with false by (symmetry; apply Z.ltb_ge; lia).
    rewrite Hcalloc. reflexivity.
Qed.

Lemma mbind_same_traversal_same_run_witness :
  stress_set_mbind (world_with "ff")
    (spec_text [Range (cs "1") (cs "3"); Single (cs "5")]) empty_trace
  = stress_set_mbind (world_with "ff")
      (spec_text [Single (cs "1"); Range (cs "2") (cs "3"); Single (cs "5")])
      empty_trace.
Proof.
  apply (mbind_same_traversal_same_run (world_with "ff")
           [Range (cs "1") (cs "3"); Single (cs "5")]
           [Single (cs "1"); Range (cs "2") (cs "3"); Single (cs "5")] 8 8).
  - reflexivity.
  - lia.
  - reflexivity.
  - repeat constructor; cbn; lia.
  - repeat constructor; cbn; lia.
  - reflexivity.
Defined.

Lemma bind_indices_refused (w : world) (max_node : Z) (errno : Z) :
  forall (idxs m : list Z) (t : trace) (j : nat),
    Forall (fun i => 0 <= i < max_node) idxs ->
    max_node <= ULONG_BITS * Z.of_nat (length m) ->
    (j < length idxs)%nat ->
    (forall (k : nat) (m' : list Z) (mx : Z),
        (length (policy_calls t) <= k < length (policy_calls t) + j)%nat ->
        set_mempolicy w k m' mx = None) ->
    (forall (m' : list Z) (mx : Z),
        set_mempolicy w (length (policy_calls t) + j) m' mx = Some errno) ->
    exists t',
      bind_indices w max_node idxs m t = (Exit EXIT_FAILURE, t')
      /\ stderr t' = stderr t ++ [ErrSetPolicy (nth j idxs 0) errno]
      /\ length (policy_calls t') = (length (policy_calls t) + j + 1)%nat.
Proof.
  induction idxs as [|i idxs IH]; intros m t j Hin Hcap Hj Hacc Hrej.
  - simpl in Hj. lia.
  - inversion Hin as [|? ? Hi Hrest]; subst.
    destruct (bind_index_step w max_node m i t ltac:(lia)) as (m1 & Hset & Hstep).
    pose proof (setbit_length _ _ _ Hset) as Hl1.
    cbn [bind_indices]. destruct j as [|j].
    + rewrite Nat.add_0_r in Hrej. rewrite Hrej in Hstep.
      rewrite (bind_Exit _ _ _ _ _ Hstep). eexists. split; [reflexivity|].
      cbn [stderr policy_calls nth]. split; [reflexivity|].
      rewrite length_app. cbn [length]. lia.
    + rewrite (Hacc (length (policy_calls t)) m1 max_node ltac:(lia)) in Hstep.
      rewrite (bind_Ret _ _ _ _ _ Hstep).
      destruct (IH m1 (mk_trace (stderr t) (policy_calls t ++ [(m1, max_node)])) j
                  Hrest ltac:(rewrite Hl1; exact Hcap) ltac:(simpl in Hj; lia))
        as (t' & Hrun & Herr & Hlen).
      * intros k m' mx Hk. cbn [policy_calls] in Hk.
        rewrite length_app in Hk. cbn [length] in Hk. apply Hacc. lia.
      * intros m' mx. cbn [policy_calls]. rewrite length_app. cbn [length].
        replace (length (policy_calls t) + 1 + j)%nat
          with (length (policy_calls t) + S j)%nat by lia.
        apply Hrej.
      * exists t'. split; [exact Hrun|]. cbn [stderr policy_calls nth] in *.
        split; [exact Herr|]. rewrite Hlen, length_app. cbn [length]. lia.
Qed.

(** X8: a refused [set_mempolicy] call is fatal and nothing is retried.
    On a well-formed, in-range specification, if the kernel accepts the
    first [j] calls and refuses the next one with [errno], the process
    leaves with [_exit(EXIT_FAILURE)], the only diagnostic names the
    [j]-th node of the traversal (counting from 0) and that [errno],
    and exactly [j + 1] calls were made. *)
Theorem mbind_refused_call_is_fatal
  (w : world) (rs : list node_range) (found max_node : Z) (j : nat) (errno : Z) :
  stress_numa_count_mem_nodes (proc_status w) = (found, max_node) ->
  1 <= found -> calloc_ok w = true -> optdup_ok w = true ->
  Forall (range_ok max_node) rs ->
  (j < length (spec_nodes rs))%nat ->
  (forall (k : nat) (m : list Z) (mx : Z),
      (k < j)%nat -> set_mempolicy w k m mx = None) ->
  (forall (m : list Z) (mx : Z), set_mempolicy w j m mx = Some errno) ->
  let res := stress_set_mbind w (spec_text rs) empty_trace in
  fst res = Exit EXIT_FAILURE
  /\ stderr (snd res) = [ErrSetPolicy (nth j (spec_nodes rs) 0) errno]
  /\ length (policy_calls (snd res)) = S j.
Proof.
  intros Hcount Hfound Hcalloc Hdup Hok Hj Hacc Hrej. cbv zeta.
  rewrite (set_mbind_wf_eq w rs found max_node) by assumption.
  pose proof (count_mem_nodes_bounds (proc_status w)) as Hb. cbv zeta in Hb.
  rewrite Hcount in Hb. cbn [fst snd] in Hb. destruct Hb as [_ Hmax].
  assert (Hin : Forall (fun i => 0 <= i < max_node) (spec_nodes rs)).
  { clear -Hok. induction Hok as [|r rs Hr _ IH]; [constructor|].
    cbn [spec_nodes flat_map]. apply Forall_app. split; [|exact IH].
    unfold range_nodes. apply zrange_below.
    - destruct r as [lo|lo hi]; cbn [range_ok range_lo] in *;
        apply numeral_value_nonneg; tauto.
    - destruct r as [lo|lo hi]; cbn [range_ok range_lo range_hi] in *.
      + destruct Hr as [Hlo Hlt]. lia.
      + destruct Hr as (Hlo & Hhi & Hlt & Hltm). lia. }
  destruct (bind_indices_refused w max_node errno (spec_nodes rs) _ empty_trace j
              Hin (nodemask_capacity max_node Hmax) Hj)
    as (t' & Hrun & Herr & Hlen).
  - intros k m' mx Hk. cbn in Hk. apply Hacc. lia.
  - intros m' mx. cbn [policy_calls empty_trace length Nat.add]. apply Hrej.
  - rewrite (bind_Exit _ _ _ _ _ Hrun). cbn [fst snd].
    split; [reflexivity|]. split; [exact Herr|].
    rewrite Hlen. cbn. lia.
Qed.

Lemma mbind_refused_call_is_fatal_witness :
  let res := stress_set_mbind
               (mk_world (Some (status_with "ff")) true true true
                  (fun k _ _ => if Nat.eqb k 2 then Some 22 else None))
               (spec_text [Single (cs "0"); Range (cs "2") (cs "4")])
               empty_trace in
  fst res = Exit EXIT_FAILURE
  /\ stderr (snd res)
     = [ErrSetPolicy
          (nth 2 (spec_nodes [Single (cs "0"); Range (cs "2") (cs "4")]) 0) 22]
  /\ length (policy_calls (snd res)) = 3%nat.
Proof.
  apply (mbind_refused_call_is_fatal
           (mk_world (Some (status_with "ff")) true true true
              (fun k _ _ => if Nat.eqb k 2 then Some 22 else None))
           [Single (cs "0"); Range (cs "2") (cs "4")] 8 8 2 22).
  - reflexivity.
  - lia.
  - reflexivity.
  - reflexivity.
  - repeat constructor; cbn; lia.
  - vm_compute. lia.
  - intros k m mx Hk. cbn [set_mempolicy].
    destruct k as [|[|k]]; [reflexivity | reflexivity | lia].
  - intros m mx. reflexivity.
Defined.

(** ** The static binder: more rejected and tolerated input *)

Lemma bind_tokens_stop (w : world) (max_node : Z) (token : cstr) (post : list cstr) :
  0 <= max_node < ULONG_MOD ->
  token_dies w max_node token ->
  forall (pre : list cstr) (m : list Z) (t : trace),
    max_node <= ULONG_BITS * Z.of_nat (length m) ->
    exists t',
      bind_tokens w max_node m (pre ++ token :: post) t = (Exit EXIT_FAILURE, t')
      /\ policy_calls t' = policy_calls (snd (bind_tokens w max_node m pre t))
      /\ stderr t' <> [].
Proof.
  intros Hmax (d & Hd & Hdie) pre. induction pre as [|p pre IH]; intros m t Hcap.
  - cbn [app bind_tokens].
    rewrite (bind_Exit _ _ _ _ _ (Hdie m t)). eexists. split; [reflexivity|].
    cbn [policy_calls stderr snd]. unfold ret. cbn [snd].
    split; [reflexivity|].
    intros Habs. apply app_eq_nil in Habs. destruct Habs; discriminate.
  - cbn [app bind_tokens].
    destruct (bind_token_any w max_node p m t Hmax Hcap) as (calls & Hcalls & Hout).
    destruct (bind_token w max_node m p t) as [[m1|c|] t1] eqn:E;
      cbn [fst snd] in *; [| |contradiction].
    + destruct Hout as [Hl1 _].
      rewrite !(bind_Ret _ _ _ _ _ E).
      apply IH. rewrite Hl1. exact Hcap.
    + destruct Hout as (-> & d' & Hd' & Herr).
      rewrite !(bind_Exit _ _ _ _ _ E). exists t1.
      split; [reflexivity|]. split; [reflexivity|].
      rewrite Herr. intros Habs. apply app_eq_nil in Habs.
      destruct Habs; discriminate.
Qed.

Lemma set_mbind_stop (w : world) (arg before token : cstr) (post : list cstr) :
  strtok_tokens arg = strtok_tokens before ++ token :: post ->
  1 <= fst (stress_numa_count_mem_nodes (proc_status w)) ->
  token_dies w (snd (stress_numa_count_mem_nodes (proc_status w))) token ->
  exists t,
    stress_set_mbind w arg empty_trace = (Exit EXIT_FAILURE, t)
    /\ stderr t <> []
    /\ policy_calls t = policy_calls (snd (stress_set_mbind w before empty_trace)).
Proof.
  intros Htok Hfound Hbad.
  pose proof (count_mem_nodes_bounds (proc_status w)) as Hb. cbv zeta in Hb.
  unfold stress_set_mbind.
  destruct (stress_numa_count_mem_nodes (proc_status w)) as [found max_node].
  cbn [fst snd] in *. destruct Hb as [_ Hmax].
  replace (found <? 1) with false by (symmetry; apply Z.ltb_ge; lia).
  destruct (calloc_ok w); cbn [negb].
  2:{ eexists. split; [reflexivity|]. split; [|reflexivity]. discriminate. }
  destruct (optdup_ok w); cbn [negb].
  2:{ eexists. split; [reflexivity|]. split; [|reflexivity]. discriminate. }
  rewrite Htok.
  destruct (bind_tokens_stop w max_node token post
              ltac:(rewrite ULONG_MOD_val; lia) Hbad (strtok_tokens before)
              _ empty_trace (nodemask_capacity max_node Hmax))
    as (t' & Hrun & Hcalls & Herr).
  rewrite (bind_Exit _ _ _ _ _ Hrun). exists t'.
  split; [reflexivity|]. split; [exact Herr|].
  rewrite Hcalls.
  destruct (bind_tokens w max_node _ (strtok_tokens before) empty_trace)
    as [[m1|c|] t1] eqn:E.
  - rewrite (bind_Ret _ _ _ _ _ E). reflexivity.
  - rewrite (bind_Exit _ _ _ _ _ E). reflexivity.
  - unfold bind. rewrite E. reflexivity.
Qed.

Lemma saturate_range (v : Z) : 0 <= v -> 0 <= saturate v <= ULONG_MAX.
Proof.
  intros H. unfold saturate.
  destruct (ULONG_MAX <? v) eqn:E;
    [apply Z.ltb_lt in E | apply Z.ltb_ge in E];
    unfold ULONG_MAX in *; rewrite ULONG_MOD_val in *; lia.
Qed.

Lemma saturate_ge (v bound : Z) : bound <= ULONG_MAX -> bound <= v -> bound <= saturate v.
Proof.
  intros Hb Hv. unfold saturate. destruct (ULONG_MAX <? v); lia.
Qed.

Lemma token_dies_of_tail (w : world) (max_node : Z) (token : cstr) (lo hi : Z) :
  0 <= max_node < ULONG_MOD ->
  0 <= lo <= hi -> max_node <= hi ->
  (forall (m : list Z) (t : trace),
      bind_token w max_node m token t
      = (stress_check_numa_range max_node lo ;;;
         stress_check_numa_range max_node hi ;;;
         bind_range w max_node (Z.to_nat (hi - lo + 1)) lo hi m) t) ->
  token_dies w max_node token.
Proof.
  intros Hmax Hlo Hhi Heq.
  destruct (checked_tail_shape w max_node lo hi Hmax Hlo) as [(d & Hd & E) | (Hh & _)];
    [|lia].
  exists d. split; [exact Hd|]. intros m t. rewrite Heq. apply E.
Qed.

Lemma range_beyond_dies (w : world) (max_node : Z) (r : node_range) :
  0 <= max_node < ULONG_MOD ->
  range_beyond max_node r ->
  token_dies w max_node (range_text r).
Proof.
  intros Hmax Hr.
  destruct r as [lo|lo hi]; cbn [range_beyond range_text] in *.
  - destruct Hr as [Hlo Hge].
    destruct (numeral_parts lo Hlo) as [_ Hdig].
    pose proof (numeral_value_nonneg lo Hlo) as H0.
    pose proof (saturate_range _ H0) as Hs.
    apply (token_dies_of_tail w max_node lo
             (saturate (numeral_value lo)) (saturate (numeral_value lo)));
      [exact Hmax | lia | apply saturate_ge; [unfold ULONG_MAX; lia | exact Hge] |].
    intros m t. unfold bind_token.
    rewrite (bind_Ret _ _ _ _ _ (parse_node_numeral_only lo t Hlo)).
    rewrite (after_hyphen_none lo (digits_hyphen_free lo Hdig)).
    rewrite (bind_Ret _ _ t t (saturate (numeral_value lo))) by reflexivity.
    reflexivity.
  - destruct Hr as (Hlo & Hhi & Hlt & Hge).
    destruct (numeral_parts lo Hlo) as [_ Hdlo].
    destruct (numeral_parts hi Hhi) as [Hnhi Hdhi].
    pose proof (numeral_value_nonneg lo Hlo) as H0.
    pose proof (saturate_range _ H0) as Hs.
    assert (Hparse : forall (m : list Z) (t : trace),
               bind_token w max_node m (lo ++ ch_minus :: hi) t
               = (hi' <- (if saturate (numeral_value hi) <=? saturate (numeral_value lo)
                          then fprintf_stderr (ErrRangeOrder (lo ++ ch_minus :: hi))
                               ;;; _exit EXIT_FAILURE
                          else ret (saturate (numeral_value hi))) ;;
                  stress_check_numa_range max_node (saturate (numeral_value lo)) ;;;
                  stress_check_numa_range max_node hi' ;;;
                  bind_range w max_node
                    (Z.to_nat (hi' - saturate (numeral_value lo) + 1))
                    (saturate (numeral_value lo)) hi' m) t).
    { intros m t. unfold bind_token.
      rewrite (bind_Ret _ _ t t (saturate (numeral_value lo)))
        by (apply parse_node_numeral; [exact Hlo | reflexivity]).
      rewrite (after_hyphen_split lo hi (digits_hyphen_free lo Hdlo)).
      rewrite Hnhi. apply bind_ext_l.
      rewrite (bind_Ret _ _ _ _ _ (parse_node_numeral_only hi t Hhi)).
      reflexivity. }
    destruct (saturate (numeral_value hi) <=? saturate (numeral_value lo)) eqn:Ecmp.
    + exists (ErrRangeOrder (lo ++ ch_minus :: hi)). split; [reflexivity|].
      intros m t. rewrite Hparse. reflexivity.
    + apply Z.leb_gt in Ecmp.
      apply (token_dies_of_tail w max_node (lo ++ ch_minus :: hi)
               (saturate (numeral_value lo)) (saturate (numeral_value hi)));
        [exact Hmax | lia | apply saturate_ge; [unfold ULONG_MAX; lia | exact Hge] |].
      intros m t. rewrite Hparse. reflexivity.
Qed.

(** X9: a node, or the upper end of a range, that is not below
    [max_node] is fatal wherever the element stands in the list, and
    the checks come before the loop: no call is made for that element,
    not even for the nodes of the range that are in range.  The calls
    made are those of the elements before it. *)
Theorem mbind_out_of_range_binds_nothing
  (w : world) (arg before : cstr) (r : node_range) (post : list cstr) :
  strtok_tokens arg = strtok_tokens before ++ range_text r :: post ->
  1 <= fst (stress_numa_count_mem_nodes (proc_status w)) ->
  range_beyond (snd (stress_numa_count_mem_nodes (proc_status w))) r ->
  let res := stress_set_mbind w arg empty_trace in
  fst res = Exit EXIT_FAILURE
  /\ stderr (snd res) <> []
  /\ policy_calls (snd res)
     = policy_calls (snd (stress_set_mbind w before empty_trace)).
Proof.
  intros Htok Hfound Hr. cbv zeta.
  pose proof (count_mem_nodes_bounds (proc_status w)) as [_ Hmax].
  destruct (set_mbind_stop w arg before (range_text r) post Htok Hfound)
    as (t & Hrun & Herr & Hcalls).
  - apply range_beyond_dies; [rewrite ULONG_MOD_val; lia | exact Hr].
  - rewrite Hrun. cbn [fst snd]. auto.
Qed.

Lemma mbind_out_of_range_binds_nothing_witness :
  let res := stress_set_mbind (world_with "ff") (cs "1,6-9,2") empty_trace in
  fst res = Exit EXIT_FAILURE
  /\ stderr (snd res) <> []
  /\ policy_calls (snd res)
     = policy_calls (snd (stress_set_mbind (world_with "ff") (cs "1") empty_trace)).
Proof.
  apply (mbind_out_of_range_binds_nothing (world_with "ff")
           (cs "1,6-9,2") (cs "1") (Range (cs "6") (cs "9")) [cs "2"]).
  - reflexivity.
  - vm_compute. discriminate.
  - cbn. repeat split; vm_compute; discriminate.
Defined.

Lemma sscanf_lu_negative (ds : cstr) :
  numeral ds = true ->
  sscanf_lu (ch_minus :: ds)
  = Some (if ULONG_MAX <? numeral_value ds then ULONG_MAX
          else to_ulong (- numeral_value ds)).
Proof.
  intros Hds. destruct (numeral_parts ds Hds) as [Hne Hd].
  destruct ds as [|c ds]; [discriminate|].
  pose proof Hd as Hd'. cbn [forallb] in Hd'.
  apply Bool.andb_true_iff in Hd'. destruct Hd' as [Hc _].
  unfold sscanf_lu. cbn [skip_space].
  change (isspace ch_minus) with false. cbv iota.
  rewrite ascii_eqb_refl. rewrite Hc.
  assert (E : scan_digits 0 (c :: ds) = numeral_value (c :: ds)).
  { pose proof (scan_digits_numeral (c :: ds) [] 0 Hd eq_refl) as H.
    rewrite app_nil_r in H. exact H. }
  rewrite E. reflexivity.
Qed.

Lemma to_ulong_negate (v : Z) :
  0 < v <= ULONG_MAX -> to_ulong (- v) = ULONG_MOD - v.
Proof.
  intros H. unfold to_ulong, ULONG_MAX in *.
  replace (- v) with (ULONG_MOD - v + (-1) * ULONG_MOD) by lia.
  rewrite Z.mod_add by (rewrite ULONG_MOD_val; lia).
  apply Z.mod_small. lia.
Qed.

Lemma negative_dies (w : world) (max_node : Z) (ds : cstr) :
  0 <= max_node <= 4 * 8191 ->
  numeral ds = true ->
  token_dies w max_node (ch_minus :: ds).
Proof.
  intros Hmax Hds.
  destruct (numeral_parts ds Hds) as [Hne Hd].
  pose proof (numeral_value_nonneg ds Hds) as H0.
  set (v := numeral_value ds) in *.
  set (lo := if ULONG_MAX <? v then ULONG_MAX else to_ulong (- v)).
  assert (Hparse : forall (m : list Z) (t : trace),
             bind_token w max_node m (ch_minus :: ds) t
             = (hi' <- (if saturate v <=? lo
                        then fprintf_stderr (ErrRangeOrder (ch_minus :: ds))
                             ;;; _exit EXIT_FAILURE
                        else ret (saturate v)) ;;
                stress_check_numa_range max_node lo ;;;
                stress_check_numa_range max_node hi' ;;;
                bind_range w max_node (Z.to_nat (hi' - lo + 1)) lo hi' m) t).
  { intros m t. unfold bind_token, stress_parse_node.
    rewrite (sscanf_lu_negative ds Hds). fold v. fold lo.
    rewrite (bind_Ret _ _ t t lo) by reflexivity.
    cbn [after_hyphen]. rewrite ascii_eqb_refl. rewrite Hne.
    apply bind_ext_l.
    rewrite <- (app_nil_r ds) at 1.
    rewrite (sscanf_lu_numeral ds [] Hds eq_refl). fold v.
    rewrite (bind_Ret _ _ t t (saturate v)) by reflexivity. reflexivity. }
  destruct (saturate v <=? lo) eqn:Ecmp.
  - exists (ErrRangeOrder (ch_minus :: ds)). split; [reflexivity|].
    intros m t. rewrite Hparse. reflexivity.
  - apply Z.leb_gt in Ecmp.
    assert (Hbig : 0 <= lo /\ 2 ^ 63 <= saturate v).
    { unfold lo, saturate in *.
      destruct (ULONG_MAX <? v) eqn:E; [lia|].
      apply Z.ltb_ge in E.
      destruct (Z.eq_dec v 0) as [Hv|Hv].
      - rewrite Hv in Ecmp. change (to_ulong (- 0)) with 0 in Ecmp. lia.
      - rewrite (to_ulong_negate v) in * by lia.
        unfold ULONG_MAX in *. rewrite ULONG_MOD_val in *. lia. }
    apply (token_dies_of_tail w max_node (ch_minus :: ds) lo (saturate v));
      [rewrite ULONG_MOD_val; lia | lia | lia |].
    intros m t. rewrite Hparse. reflexivity.
Qed.

(** X10: a node number written with a minus sign is always fatal.
    [sscanf] reads it as a huge unsigned value and the same hyphen then
    starts the "range end"; whichever check fires (range order or
    range bound), the process leaves with [_exit(EXIT_FAILURE)] after a
    diagnostic and no call is made for the token. *)
Theorem mbind_negative_node_is_fatal
  (w : world) (arg before ds : cstr) (post : list cstr) :
  strtok_tokens arg = strtok_tokens before ++ (ch_minus :: ds) :: post ->
  1 <= fst (stress_numa_count_mem_nodes (proc_status w)) ->
  numeral ds = true ->
  let res := stress_set_mbind w arg empty_trace in
  fst res = Exit EXIT_FAILURE
  /\ stderr (snd res) <> []
  /\ policy_calls (snd res)
     = policy_calls (snd (stress_set_mbind w before empty_trace)).
Proof.
  intros Htok Hfound Hds. cbv zeta.
  pose proof (count_mem_nodes_bounds (proc_status w)) as [_ Hmax].
  destruct (set_mbind_stop w arg before (ch_minus :: ds) post Htok Hfound)
    as (t & Hrun & Herr & Hcalls).
  - apply negative_dies; assumption.
  - rewrite Hrun. cbn [fst snd]. auto.
Qed.

Lemma mbind_negative_node_is_fatal_witness :
  let res := stress_set_mbind (world_with "ff") (cs "0,-1") empty_trace in
  fst res = Exit EXIT_FAILURE
  /\ stderr (snd res) <> []
  /\ policy_calls (snd res)
     = policy_calls (snd (stress_set_mbind (world_with "ff") (cs "0") empty_trace)).
Proof.
  apply (mbind_negative_node_is_fatal (world_with "ff")
           (cs "0,-1") (cs "0") (cs "1") []).
  - reflexivity.
  - vm_compute. discriminate.
  - reflexivity.
Defined.

Lemma ends_number_app (ds tail : cstr) :
  ds <> [] -> ends_number ((ds ++ tail)) = ends_number ds.
Proof. destruct ds; [congruence | reflexivity]. Qed.









Lemma strtok_tokens_comma (s : cstr) :
  strtok_tokens (ch_comma :: s) = strtok_tokens s.
Proof.
  unfold strtok_tokens. cbn [comma_fields]. rewrite ascii_eqb_refl. reflexivity.
Qed.

Lemma strtok_tokens_commas (n : nat) (s : cstr) :
  strtok_tokens (repeat ch_comma n ++ s) = strtok_tokens s.
Proof.
  induction n as [|n IH]; [reflexivity|].
  cbn [repeat app]. rewrite strtok_tokens_comma. exact IH.
Qed.

Lemma strtok_tokens_padded (lead : nat) (ts : list (cstr * nat)) :
  Forall (fun tn => comma_free (fst tn) = true /\ nonempty (fst tn) = true) ts ->
  strtok_tokens (padded_text lead ts) = map fst ts.
Proof.
  intros H. unfold padded_text. rewrite strtok_tokens_commas.
  induction H as [|[t n] ts [Hc Hn] _ IH]; [reflexivity|].
  cbn [map concat fst snd repeat] in *.
  rewrite <- app_assoc. cbn [app].
  rewrite strtok_tokens_app, strtok_tokens_commas, IH.
  rewrite strtok_tokens_single by assumption. reflexivity.
Qed.

(** X12: stray commas are ignored.  An argument in which the tokens
    are preceded, separated and followed by any number of extra commas
    is processed exactly like the plain comma-separated list; and an
    argument that is empty or holds only commas makes the static
    binder return 0 without any call or diagnostic. *)
Theorem mbind_stray_commas_ignored
  (w : world) (lead : nat) (ts : list (cstr * nat)) :
  Forall (fun tn => comma_free (fst tn) = true /\ nonempty (fst tn) = true) ts ->
  1 <= fst (stress_numa_count_mem_nodes (proc_status w)) ->
  calloc_ok w = true -> optdup_ok w = true ->
  stress_set_mbind w (padded_text lead ts) empty_trace
  = stress_set_mbind w (join_commas (map fst ts)) empty_trace
  /\ stress_set_mbind w (repeat ch_comma lead) empty_trace = (Ret 0, empty_trace).
Proof.
  intros Hts Hfound Hcalloc Hdup.
  assert (Hjoin : strtok_tokens (join_commas (map fst ts)) = map fst ts).
  { apply strtok_tokens_join. clear -Hts.
    induction Hts as [|tn ts Htn _ IH]; cbn [map]; constructor; assumption. }
  pose proof (strtok_tokens_commas lead []) as Hempty.
  rewrite app_nil_r in Hempty.
  unfold stress_set_mbind.
  destruct (stress_numa_count_mem_nodes (proc_status w)) as [found max_node].
  cbn [fst] in Hfound.
  replace (found <? 1) with false by (symmetry; apply Z.ltb_ge; lia).
  rewrite Hcalloc, Hdup. cbn [negb].
  rewrite (strtok_tokens_padded lead ts Hts), Hjoin, Hempty.
  split; reflexivity.
Qed.

Lemma mbind_stray_commas_ignored_witness :
  stress_set_mbind (world_with "ff")
    (padded_text 1 [(cs "2", 1%nat); (cs "4-5", 0%nat)]) empty_trace
  = stress_set_mbind (world_with "ff")
      (join_commas (map fst [(cs "2", 1%nat); (cs "4-5", 0%nat)])) empty_trace
  /\ stress_set_mbind (world_with "ff") (repeat ch_comma 1) empty_trace
     = (Ret 0, empty_trace).
Proof.
  apply (mbind_stray_commas_ignored (world_with "ff") 1
           [(cs "2", 1%nat); (cs "4-5", 0%nat)]).
  - repeat constructor.
  - vm_compute. discriminate.
  - reflexivity.
  - reflexivity.
Defined.

(** ** The randomized binder: any buffer size *)

Lemma set_word_twice (a : list Z) (k : nat) (x y : Z) :
  set_word (set_word a k x) k y = set_word a k y.
Proof.
  revert k. induction a as [|z a IH]; intros k; [reflexivity|].
  destruct k; cbn [set_word]; [reflexivity | rewrite IH; reflexivity].
Qed.

Lemma set_word_same (a : list Z) (k : nat) :
  set_word a k (nth k a 0) = a.
Proof.
  revert k. induction a as [|z a IH]; intros k; [reflexivity|].
  destruct k; cbn [set_word nth]; [reflexivity | rewrite IH; reflexivity].
Qed.

Lemma clear_set_bit (j : Z) :
  0 <= j < ULONG_BITS ->
  Z.land (Z.lor 0 (Z.shiftl 1 j)) (Z.lxor ULONG_MAX (Z.shiftl 1 j)) = 0.
Proof.
  intros Hj. apply Z.bits_inj'. intros n Hn.
  rewrite Z.land_spec, Z.lor_spec, Z.lxor_spec, Z.bits_0.
  rewrite Z.shiftl_1_l, Z.pow2_bits_eqb by lia.
  destruct (j =? n) eqn:E; [|reflexivity].
  apply Z.eqb_eq in E. subst n. rewrite ulong_max_bits by exact Hj. reflexivity.
Qed.

(** On a mask of zero words, setting a bit and clearing it again gives
    the mask back. *)
Lemma set_then_clear_zero (m m1 m2 : list Z) (i : Z) :
  Forall (fun x => x = 0) m ->
  STRESS_SETBIT m i = Some m1 -> STRESS_CLRBIT m1 i = Some m2 -> m2 = m.
Proof.
  intros Hz Hset Hclr.
  pose proof (setbit_length _ _ _ Hset) as Hl1.
  unfold STRESS_SETBIT in Hset. unfold STRESS_CLRBIT in Hclr.
  destruct (in_bounds m i) eqn:Hin; [|discriminate].
  destruct (in_bounds m1 i); [|discriminate].
  symmetry in Hset, Hclr. apply some_inj in Hset. apply some_inj in Hclr.
  apply in_bounds_spec in Hin.
  assert (Hk : (Z.to_nat (i / ULONG_BITS) < length m)%nat).
  { unfold ULONG_BITS in *.
    pose proof (Z.div_mod i 64 ltac:(lia)).
    pose proof (Z.mod_pos_bound i 64 ltac:(lia)). lia. }
  rewrite Hclr, Hset. rewrite nth_set_word by exact Hk.
  rewrite Nat.eqb_refl, set_word_twice.
  rewrite (nth_all_zero m _ Hz), land_63 by lia.
  rewrite clear_set_bit by (apply Z.mod_pos_bound; reflexivity).
  rewrite <- (nth_all_zero m (Z.to_nat (i / ULONG_BITS)) Hz) at 1.
  apply set_word_same.
Qed.

Lemma page_offsets_length (off ps : Z) (n : nat) : length (page_offsets off ps n) = n.
Proof. revert off. induction n; intros off; simpl; [reflexivity | now rewrite IHn]. Qed.

Lemma in_page_offsets (off ps : Z) (n : nat) (x : Z) :
  0 < ps -> In x (page_offsets off ps n) ->
  off <= x <= off + (Z.of_nat n - 1) * ps.
Proof.
  intros Hps. revert off. induction n as [|n IH]; intros off H; [contradiction|].
  cbn [page_offsets In] in H. destruct H as [<-|H]; [nia|].
  apply IH in H. nia.
Qed.

Section RandomizeAnySize.

Variable rng : Type.
Variable stress_mwc32modn : Z -> rng -> Z * rng.

Hypothesis mwc32modn_range :
  forall (n : Z) (g : rng), 0 < n -> 0 <= fst (stress_mwc32modn n g) < n.

Lemma randomize_loop_pages (nm : stress_numa_mask_t) (page_size : Z) :
  1 <= nodes nm < 2 ^ 32 ->
  0 < page_size ->
  forall (n fuel : nat) (buffer_size off : Z) (m : list Z) (g : rng),
    buffer_size <= off + Z.of_nat n * page_size ->
    (n = O \/ off + (Z.of_nat n - 1) * page_size < buffer_size) ->
    (n <= fuel)%nat ->
    nodes nm <= ULONG_BITS * Z.of_nat (length m) ->
    Forall (fun x => x = 0) m ->
    exists calls,
      randomize_loop rng stress_mwc32modn fuel nm page_size buffer_size off m g
        = Some (m, mwc_state rng stress_mwc32modn (nodes nm) n g, calls)
      /\ map mb_offset calls = page_offsets off page_size n
      /\ Forall (fun c => mb_len c = page_size /\ mb_maxnode c = max_nodes nm
                          /\ exists node, 0 <= node < nodes nm
                                          /\ single_bit (mb_mask c) node)
           calls.
Proof.
  intros Hnodes Hps.
  assert (Hu : to_uint32 (nodes nm) = nodes nm).
  { unfold to_uint32. apply Z.mod_small. lia. }
  induction n as [|n IH]; intros fuel buffer_size off m g Hup Hlow Hfuel Hcap Hz.
  - exists []. destruct fuel; cbn [randomize_loop mwc_state];
      (replace (off <? buffer_size) with false
        by (symmetry; apply Z.ltb_ge; lia));
      repeat split; constructor.
  - destruct fuel as [|fuel]; [lia|]. cbn [randomize_loop mwc_state page_offsets].
    destruct Hlow as [Hlow|Hlow]; [discriminate|].
    replace (off <? buffer_size) with true
      by (symmetry; apply Z.ltb_lt; nia).
    rewrite Hu.
    pose proof (mwc32modn_range (nodes nm) g ltac:(lia)) as Hr.
    destruct (stress_mwc32modn (nodes nm) g) as [node g1]. cbn [fst snd] in *.
    destruct (setbit_in_bounds m node ltac:(lia)) as [m1 Hset].
    rewrite Hset.
    pose proof (setbit_length _ _ _ Hset) as Hl1.
    destruct (clrbit_in_bounds m1 node ltac:(rewrite Hl1; lia)) as [m2 Hclr2].
    rewrite Hclr2.
    pose proof (set_then_clear_zero m m1 m2 node Hz Hset Hclr2) as ->.
    assert (Hsingle : single_bit m1 node).
    { intros b Hb. rewrite (mask_bit_setbit _ _ _ _ Hset Hb).
      rewrite (mask_bit_all_zero m b Hz). apply Bool.orb_false_r. }
    destruct (IH fuel buffer_size (off + page_size) m g1)
      as (calls & Hrun & Hoffs & Hall);
      [lia | destruct n; [left; reflexivity | right; lia] | lia
       | exact Hcap | exact Hz |].
    rewrite Hrun. eexists. split; [reflexivity|].
    cbn [map mb_offset]. split; [rewrite Hoffs; reflexivity|].
    constructor; [|exact Hall].
    cbn [mb_mask mb_len mb_maxnode]. repeat split. exists node. auto.
Qed.

Lemma pages_of_buffer (page_size buffer_size : Z) :
  0 < page_size -> 0 <= buffer_size ->
  let n := Z.to_nat (ceil_div buffer_size page_size) in
  buffer_size <= Z.of_nat n * page_size
  /\ (n = O \/ (Z.of_nat n - 1) * page_size < buffer_size)
  /\ (n <= Z.to_nat buffer_size)%nat.
Proof.
  intros Hps Hbs. cbv zeta. unfold ceil_div.
  pose proof (Z.div_mod (- buffer_size) page_size ltac:(lia)) as Hdm.
  pose proof (Z.mod_pos_bound (- buffer_size) page_size Hps) as Hmod.
  set (q := - buffer_size / page_size) in *.
  assert (Hq : 0 <= - q) by nia.
  rewrite Z2Nat.id by exact Hq.
  split; [nia|]. split.
  - destruct (Z.eq_dec q 0) as [->|Hne]; [left; reflexivity | right; nia].
  - apply Z2Nat.inj_le; nia.
Qed.

(** X13: for any buffer size the randomized binder makes one call per
    page started: [ceil(buffer_size / page_size)] calls at the offsets
    0, [page_size], [2 * page_size], ..., each below [buffer_size] and
    each for a full [page_size] bytes.  The calls thus cover
    [buffer_size] rounded up to a whole number of pages: the call for a
    partial last page reaches beyond the end of the buffer, and an
    empty buffer gets no call. *)
Theorem randomize_pages_any_buffer_size
  (nm : stress_numa_mask_t) (page_size buffer_size : Z) (g : rng) :
  mask_ok nm ->
  0 < page_size -> 0 <= buffer_size ->
  exists nm' g' calls,
    stress_numa_randomize_pages rng stress_mwc32modn nm page_size buffer_size g
      = Some (nm', g', calls)
    /\ map mb_offset calls
       = page_offsets 0 page_size (Z.to_nat (ceil_div buffer_size page_size))
    /\ Forall (fun c => 0 <= mb_offset c < buffer_size /\ mb_len c = page_size)
         calls
    /\ buffer_size <= Z.of_nat (length calls) * page_size < buffer_size + page_size.
Proof.
  intros Hok Hps Hbs.
  pose proof (mask_ok_capacity nm Hok) as Hcap.
  destruct Hok as [Hn Hm He Hs Hl].
  destruct (pages_of_buffer page_size buffer_size Hps Hbs) as (Hup & Hlow & Hfuel).
  set (n := Z.to_nat (ceil_div buffer_size page_size)) in *.
  unfold stress_numa_randomize_pages.
  destruct (randomize_loop_pages nm page_size ltac:(lia) Hps n
              (Z.to_nat buffer_size) buffer_size 0 (memset_zero (mask nm)) g)
    as (calls & Hrun & Hoffs & Hall);
    [lia | destruct Hlow; [left; assumption | right; lia] | exact Hfuel
     | rewrite memset_zero_length; lia | apply memset_zero_all_zero |].
  rewrite Hrun. eexists _, _, calls. split; [reflexivity|].
  split; [exact Hoffs|].
  assert (Hlen : length calls = n).
  { rewrite <- (length_map mb_offset), Hoffs. apply page_offsets_length. }
  split.
  - apply Forall_forall. intros c Hc.
    rewrite Forall_forall in Hall. destruct (Hall c Hc) as (Hclen & _).
    apply (in_map mb_offset) in Hc. rewrite Hoffs in Hc.
    destruct Hlow as [Hn0|Hlow]; [rewrite Hn0 in Hc; contradiction|].
    apply (in_page_offsets 0 page_size n _ Hps) in Hc. lia.
  - rewrite Hlen. destruct Hlow as [Hn0|Hlow]; [rewrite Hn0 in *; lia | lia].
Qed.

End RandomizeAnySize.

Section RandomizeEdges.

Variable rng : Type.
Variable stress_mwc32modn : Z -> rng -> Z * rng.

(** X14: with a page size of 0 and a non-empty buffer the page loop
    makes no progress: whatever bound is put on the number of
    iterations, it yields no result, and neither does the function. *)
Theorem randomize_pages_zero_page_size
  (nm : stress_numa_mask_t) (buffer_size : Z) (g : rng) :
  0 < buffer_size ->
  (forall (fuel : nat) (m : list Z) (g0 : rng),
      randomize_loop rng stress_mwc32modn fuel nm 0 buffer_size 0 m g0 = None)
  /\ stress_numa_randomize_pages rng stress_mwc32modn nm 0 buffer_size g = None.
Proof.
  intros Hbs.
  assert (Hloop : forall (fuel : nat) (m : list Z) (g0 : rng),
             randomize_loop rng stress_mwc32modn fuel nm 0 buffer_size 0 m g0
             = None).
  { induction fuel as [|fuel IH]; intros m g0; cbn [randomize_loop];
      (replace (0 <? buffer_size) with true by (symmetry; apply Z.ltb_lt; lia));
      [reflexivity|].
    destruct (stress_mwc32modn (to_uint32 (nodes nm)) g0) as [node g1].
    destruct (STRESS_SETBIT m node) as [m1|]; [|reflexivity].
    destruct (STRESS_CLRBIT m1 node) as [m2|]; [|reflexivity].
    change (0 + 0) with 0. rewrite IH. reflexivity. }
  split; [exact Hloop|].
  unfold stress_numa_randomize_pages. rewrite Hloop. reflexivity.
Qed.

Hypothesis mwc32modn_range :
  forall (n : Z) (g : rng), 0 < n -> 0 <= fst (stress_mwc32modn n g) < n.

(** X15: the randomized binder leaves the mask exactly as the variant
    for platforms without NUMA support does, with every word zero: the
    two differ only by the calls made.  A mask whose words were zero,
    as the allocator returns it, comes back unchanged.  The generator
    is advanced once per page. *)
Theorem randomize_pages_mask_restored
  (nm : stress_numa_mask_t) (page_size buffer_size : Z) (g : rng) :
  mask_ok nm ->
  0 < page_size -> 0 <= buffer_size ->
  exists calls,
    stress_numa_randomize_pages rng stress_mwc32modn nm page_size buffer_size g
    = Some (stress_numa_randomize_pages_fallback nm,
            mwc_state rng stress_mwc32modn (nodes nm)
              (Z.to_nat (ceil_div buffer_size page_size)) g,
            calls)
    /\ (Forall (fun x => x = 0) (mask nm) ->
        stress_numa_randomize_pages_fallback nm = nm).
Proof.
  intros Hok Hps Hbs.
  pose proof (mask_ok_capacity nm Hok) as Hcap.
  destruct Hok as [Hn Hm He Hs Hl].
  destruct (pages_of_buffer page_size buffer_size Hps Hbs) as (Hup & Hlow & Hfuel).
  set (n := Z.to_nat (ceil_div buffer_size page_size)) in *.
  unfold stress_numa_randomize_pages.
  destruct (randomize_loop_pages rng stress_mwc32modn mwc32modn_range
              nm page_size ltac:(lia) Hps n
              (Z.to_nat buffer_size) buffer_size 0 (memset_zero (mask nm)) g)
    as (calls & Hrun & Hoffs & Hall);
    [lia | destruct Hlow; [left; assumption | right; lia] | exact Hfuel
     | rewrite memset_zero_length; lia | apply memset_zero_all_zero |].
  rewrite Hrun. exists calls. split; [reflexivity|].
  intros Hz. unfold stress_numa_randomize_pages_fallback.
  destruct nm as [nd mx el sz mk]. cbn [nodes max_nodes numa_elements mask_size mask] in *.
  f_equal. clear -Hz. unfold memset_zero.
  induction Hz as [|x l Hx _ IH]; [reflexivity|].
  cbn [map]. rewrite IH, Hx. reflexivity.
Qed.

End RandomizeEdges.

Lemma randomize_pages_any_buffer_size_witness :
  exists nm' g' calls,
    stress_numa_randomize_pages Z counter_mwc32modn sample_mask 4096 10000 5
      = Some (nm', g', calls)
    /\ map mb_offset calls
       = page_offsets 0 4096 (Z.to_nat (ceil_div 10000 4096))
    /\ Forall (fun c => 0 <= mb_offset c < 10000 /\ mb_len c = 4096) calls
    /\ 10000 <= Z.of_nat (length calls) * 4096 < 10000 + 4096.
Proof.
  apply (randomize_pages_any_buffer_size Z counter_mwc32modn).
  - intros n g Hn. unfold counter_mwc32modn. cbn [fst].
    apply Z.mod_pos_bound. exact Hn.
  - constructor; cbn; try lia; reflexivity.
  - lia.
  - lia.
Defined.

Lemma randomize_pages_zero_page_size_witness :
  (forall (fuel : nat) (m : list Z) (g0 : Z),
      randomize_loop Z counter_mwc32modn fuel sample_mask 0 4096 0 m g0 = None)
  /\ stress_numa_randomize_pages Z counter_mwc32modn sample_mask 0 4096 5 = None.
Proof.
  apply (randomize_pages_zero_page_size Z counter_mwc32modn sample_mask 4096 5).
  lia.
Defined.

Lemma randomize_pages_mask_restored_witness :
  exists calls,
    stress_numa_randomize_pages Z counter_mwc32modn sample_mask 4096 10000 5
    = Some (stress_numa_randomize_pages_fallback sample_mask,
            mwc_state Z counter_mwc32modn (nodes sample_mask)
              (Z.to_nat (ceil_div 10000 4096)) 5,
            calls)
    /\ (Forall (fun x => x = 0) (mask sample_mask) ->
        stress_numa_randomize_pages_fallback sample_mask = sample_mask).
Proof.
  apply (randomize_pages_mask_restored Z counter_mwc32modn).
  - intros n g Hn. unfold counter_mwc32modn. cbn [fst].
    apply Z.mod_pos_bound. exact Hn.
  - constructor; cbn; try lia; reflexivity.
  - lia.
  - lia.
Defined.

(** ** Allocation and release of masks *)

Lemma remove_fresh (b : nat) (l : list nat) :
  ~ In b l -> remove Nat.eq_dec b l = l.
Proof. apply notin_remove. Qed.

Lemma heap_free_pushed (b : nat) (l : list nat) (n : nat) :
  ~ In b l ->
  heap_free (Some b) (mk_heap (b :: l) n) = Some (mk_heap l n).
Proof.
  intros Hb. unfold heap_free. cbn [live fresh].
  destruct (in_dec Nat.eq_dec b (b :: l)) as [_|Hn]; [|exfalso; apply Hn; left; reflexivity].
  cbn [remove]. destruct (Nat.eq_dec b b); [|congruence].
  rewrite remove_fresh by exact Hb. reflexivity.
Qed.

Lemma heap_fresh_not_live (h : heap) : heap_ok h -> ~ In (fresh h) (live h).
Proof.
  intros [_ Hlt] Hin. rewrite Forall_forall in Hlt. apply Hlt in Hin. lia.
Qed.

(** What the allocator does to the heap. *)
Lemma mask_alloc_heap_shape (w : world) (h : heap) :
  heap_ok h ->
  exists (res : option numa_mask_ref) (h' : heap),
    stress_numa_mask_alloc_heap w h = Some (res, h')
    /\ heap_ok h'
    /\ option_map ref_value res = stress_numa_mask_alloc w
    /\ match res with
       | None => live h' = live h
       | Some r =>
           live h' = ref_mask r :: ref_struct r :: live h
           /\ ref_mask r <> ref_struct r
           /\ ~ In (ref_mask r) (live h) /\ ~ In (ref_struct r) (live h)
       end.
Proof.
  intros Hok. pose proof (heap_fresh_not_live h Hok) as Hfresh.
  destruct Hok as [Hnd Hlt].
  unfold stress_numa_mask_alloc_heap, stress_numa_mask_alloc, heap_alloc.
  destruct (malloc_ok w); cbn [negb].
  2:{ exists None, h. repeat split; assumption. }
  destruct (stress_numa_count_mem_nodes (proc_status w)) as [r mx].
  assert (Hback : heap_ok (mk_heap (live h) (S (fresh h)))).
  { split; [exact Hnd|]. cbn [live fresh].
    eapply Forall_impl; [|exact Hlt]. cbn. intros; lia. }
  destruct ((to_long r <? 1) || (mx <? 1)).
  { rewrite heap_free_pushed by exact Hfresh.
    exists None, (mk_heap (live h) (S (fresh h))). repeat split; apply Hback. }
  destruct (calloc_ok w); cbn [negb].
  2:{ rewrite heap_free_pushed by exact Hfresh.
      exists None, (mk_heap (live h) (S (fresh h))). repeat split; apply Hback. }
  cbn [live fresh].
  eexists (Some _), _. split; [reflexivity|].
  cbn [live fresh ref_mask ref_struct ref_value option_map].
  assert (Hrest : Forall (fun b => (b < S (S (fresh h)))%nat) (live h)).
  { eapply Forall_impl; [|exact Hlt]. cbn. intros; lia. }
  repeat split.
  - constructor.
    + intros [H|H]; [lia|]. rewrite Forall_forall in Hlt. apply Hlt in H. lia.
    + constructor; assumption.
  - cbn [live fresh]. constructor; [lia|]. constructor; [lia | exact Hrest].
  - lia.
  - intros H. rewrite Forall_forall in Hlt. apply Hlt in H. lia.
  - exact Hfresh.
Qed.

(** X16: the allocator neither leaks nor misuses the heap.  It agrees
    with its heap-free reading on the mask returned; when it returns
    NULL, whether an allocation failed or no node was found, every
    block it had obtained has been released and the heap holds what it
    held before; when it returns a mask, the heap holds exactly two
    more blocks, the structure and its buffer, both new and distinct. *)
Theorem mask_alloc_heap_discipline (w : world) (h : heap) :
  heap_ok h ->
  exists (res : option numa_mask_ref) (h' : heap),
    stress_numa_mask_alloc_heap w h = Some (res, h')
    /\ heap_ok h'
    /\ option_map ref_value res = stress_numa_mask_alloc w
    /\ match res with
       | None => live h' = live h
       | Some r =>
           live h' = ref_mask r :: ref_struct r :: live h
           /\ ref_mask r <> ref_struct r
           /\ ~ In (ref_mask r) (live h) /\ ~ In (ref_struct r) (live h)
       end.
Proof. exact (mask_alloc_heap_shape w h). Qed.

Lemma mask_alloc_heap_discipline_witness :
  exists (res : option numa_mask_ref) (h' : heap),
    stress_numa_mask_alloc_heap (world_with "ff") (mk_heap [3%nat; 1%nat] 7)
    = Some (res, h')
    /\ heap_ok h'
    /\ option_map ref_value res = stress_numa_mask_alloc (world_with "ff")
    /\ match res with
       | None => live h' = live (mk_heap [3%nat; 1%nat] 7)
       | Some r =>
           live h' = ref_mask r :: ref_struct r :: live (mk_heap [3%nat; 1%nat] 7)
           /\ ref_mask r <> ref_struct r
           /\ ~ In (ref_mask r) (live (mk_heap [3%nat; 1%nat] 7))
           /\ ~ In (ref_struct r) (live (mk_heap [3%nat; 1%nat] 7))
       end.
Proof.
  apply (mask_alloc_heap_discipline (world_with "ff") (mk_heap [3%nat; 1%nat] 7)).
  split; cbn [live fresh].
  - repeat constructor; cbn; intuition lia.
  - repeat constructor; lia.
Defined.

(** X17: allocation followed by [stress_numa_mask_free] makes exactly
    two calls of [free], the first for the buffer, read from the
    structure while that is still allocated, the second for the
    structure, and leaves the heap holding what it held before the
    allocation; [stress_numa_mask_free(NULL)] frees nothing; and
    nothing guards a second release of the same mask, which reads the
    structure after it was freed. *)
Theorem mask_free_releases_allocation
  (w : world) (h h1 : heap) (r : numa_mask_ref) :
  heap_ok h ->
  stress_numa_mask_alloc_heap w h = Some (Some r, h1) ->
  exists h2,
    stress_numa_mask_free (Some r) h1 = Some ([ref_mask r; ref_struct r], h2)
    /\ live h2 = live h
    /\ heap_ok h2
    /\ stress_numa_mask_free (Some r) h2 = None
    /\ stress_numa_mask_free None h2 = Some ([], h2).
Proof.
  intros Hok Halloc.
  destruct (mask_alloc_heap_shape w h Hok) as (res & h' & E & Hok' & _ & Hshape).
  rewrite Halloc in E. apply some_inj in E.
  assert (res = Some r /\ h' = h1) as [-> ->] by (split; congruence).
  destruct Hshape as (Hlive & Hne & Hm & Hs).
  destruct h1 as [l1 n1]. cbn [live] in Hlive. subst l1.
  unfold stress_numa_mask_free, heap_load. cbn [live].
  destruct (in_dec Nat.eq_dec (ref_struct r)
              (ref_mask r :: ref_struct r :: live h)) as [_|Hout];
    [|exfalso; apply Hout; right; left; reflexivity].
  rewrite heap_free_pushed by (intros [H|H]; [congruence | contradiction]).
  rewrite heap_free_pushed by exact Hs.
  exists (mk_heap (live h) n1). split; [reflexivity|]. split; [reflexivity|].
  split.
  { destruct Hok' as [Hnd Hlt]. cbn [live fresh] in *.
    inversion Hnd as [|? ? _ Hnd1]; subst. inversion Hnd1; subst.
    inversion Hlt as [|? ? _ Hlt1]; subst. inversion Hlt1; subst.
    split; assumption. }
  split; [|reflexivity].
  cbn [live].
  destruct (in_dec Nat.eq_dec (ref_struct r) (live h)); [contradiction | reflexivity].
Qed.

Lemma mask_free_releases_allocation_witness :
  exists h2,
    stress_numa_mask_free
      (Some (mk_numa_mask_ref 7 8 (mk_numa_mask 8 8 1 8 [0])))
      (mk_heap [8%nat; 7%nat; 3%nat; 1%nat] 9)
    = Some ([ref_mask (mk_numa_mask_ref 7 8 (mk_numa_mask 8 8 1 8 [0]));
             ref_struct (mk_numa_mask_ref 7 8 (mk_numa_mask 8 8 1 8 [0]))], h2)
    /\ live h2 = live (mk_heap [3%nat; 1%nat] 7)
    /\ heap_ok h2
    /\ stress_numa_mask_free
         (Some (mk_numa_mask_ref 7 8 (mk_numa_mask 8 8 1 8 [0]))) h2 = None
    /\ stress_numa_mask_free None h2 = Some ([], h2).
Proof.
  apply (mask_free_releases_allocation (world_with "ff") (mk_heap [3%nat; 1%nat] 7)).
  - split; cbn [live fresh].
    + repeat constructor; cbn; intuition lia.
    + repeat constructor; lia.
  - reflexivity.
Defined.

(** X18: the cached accessor and the allocator agree.  Whenever the
    allocator returns a mask, the first call of [stress_numa_nodes] on
    the same status file returns that mask's node count. *)
Theorem numa_nodes_agrees_with_mask (w : world) (nm : stress_numa_mask_t) :
  stress_numa_mask_alloc w = Some nm ->
  stress_numa_nodes (proc_status w) nodes_cache_init = (nodes nm, nodes nm, true).
Proof.
  intros Halloc. apply mask_alloc_some in Halloc.
  destruct Halloc as [[Hn Hm _ _ _] (_ & Hnodes & _)].
  destruct (numa_nodes_first (proc_status w)) as [E _]. cbv zeta in E.
  rewrite E, <- Hnodes.
  replace (nodes nm =? ULONG_MAX) with false
    by (symmetry; apply Z.eqb_neq; unfold ULONG_MAX; rewrite ULONG_MOD_val; lia).
  replace (nodes nm <? 1) with false by (symmetry; apply Z.ltb_ge; lia).
  reflexivity.
Qed.

Lemma numa_nodes_agrees_with_mask_witness :
  stress_numa_nodes (proc_status (world_with "00000000,00000007"))
    nodes_cache_init
  = (nodes sample_mask, nodes sample_mask, true).
Proof.
  apply (numa_nodes_agrees_with_mask (world_with "00000000,00000007") sample_mask).
  reflexivity.
Defined.

(** ** The static binder after a failed discovery *)

(** X19: when the node counter fails with [*max_node] left at 0 (the
    status file cannot be opened or has no [Mems_allowed:] line), the
    static binder never reaches the kernel and never prints the "no
    NUMA nodes found" warning: an argument with at least one token
    ends in [_exit(EXIT_FAILURE)], and only an argument without tokens
    returns 0, silently. *)
Theorem mbind_after_failed_discovery (w : world) (arg : cstr) :
  stress_numa_count_mem_nodes (proc_status w) = (ULONG_MAX, 0) ->
  let res := stress_set_mbind w arg empty_trace in
  policy_calls (snd res) = []
  /\ ~ In (WarnNoNodes arg) (stderr (snd res))
  /\ (strtok_tokens arg <> [] -> fst res = Exit EXIT_FAILURE)
  /\ (strtok_tokens arg = [] -> calloc_ok w = true -> optdup_ok w = true ->
      res = (Ret 0, empty_trace)).
Proof.
  intros Hcount. cbv zeta.
  pose proof (set_mbind_calls_follow_indices w arg) as Hsafe. cbv zeta in Hsafe.
  pose proof (set_mbind_discovery_failure w arg) as Hwarn. cbv zeta in Hwarn.
  rewrite Hcount in Hsafe, Hwarn. cbn [fst snd] in Hsafe, Hwarn.
  destruct Hsafe as (idxs & Hin & Hlen & _).
  destruct (Hwarn eq_refl) as [Hnowarn _].
  assert (Hidxs : idxs = []).
  { destruct idxs as [|i idxs]; [reflexivity|].
    inversion Hin; subst. lia. }
  subst idxs. cbn [length] in Hlen.
  split.
  { destruct (policy_calls (snd (stress_set_mbind w arg empty_trace)));
      [reflexivity | simpl in Hlen; lia]. }
  split; [exact Hnowarn|].
  unfold stress_set_mbind. rewrite Hcount.
  change (ULONG_MAX <? 1) with false. cbv iota.
  split.
  - intros Htok.
    destruct (calloc_ok w); cbn [negb]; [|reflexivity].
    destruct (optdup_ok w); cbn [negb]; [|reflexivity].
    destruct (strtok_tokens arg) as [|p rest]; [congruence|].
    cbn [bind_tokens].
    destruct (bind_token_shape w 0 p ltac:(rewrite ULONG_MOD_val; lia))
      as [(d & Hd & E) | (lo & n & Hlo & Hn & Hn1 & _)]; [|lia].
    rewrite (bind_Exit _ _ _ (mk_trace ([] ++ [d]) []) EXIT_FAILURE).
    + reflexivity.
    + rewrite (bind_Exit _ _ _ _ _ (E _ empty_trace)). reflexivity.
  - intros Htok Hcalloc Hdup. rewrite Hcalloc, Hdup, Htok. reflexivity.
Qed.

Lemma mbind_after_failed_discovery_witness :
  let res := stress_set_mbind world_without_status (cs "0,1") empty_trace in
  policy_calls (snd res) = []
  /\ ~ In (WarnNoNodes (cs "0,1")) (stderr (snd res))
  /\ (strtok_tokens (cs "0,1") <> [] -> fst res = Exit EXIT_FAILURE)
  /\ (strtok_tokens (cs "0,1") = [] ->
      calloc_ok world_without_status = true ->
      optdup_ok world_without_status = true ->
      res = (Ret 0, empty_trace)).
Proof.
  apply (mbind_after_failed_discovery world_without_status (cs "0,1")).
  reflexivity.
Defined.

(** ** The node counter: white space inside the bitmask *)




(** ** The node counter: a NUL byte in the line *)

Lemma count_on_bytes (before : list cstr) (s : stream) (bytes : cstr)
  (rest : stream) :
  Forall other_line before ->
  fgets BUFFER_SIZE s = Some (bytes, rest) ->
  strncmp_eq bytes mems_label 13 = true ->
  stress_numa_count_mem_nodes (Some (concat before ++ s))
  = scan_nodes (c_string bytes) (strlen bytes - 2) (mk_count_state 0 0 0).
Proof.
  intros Hbefore Hget Hlabel. unfold stress_numa_count_mem_nodes.
  rewrite (find_label_reaches before s bytes rest Hbefore Hget Hlabel).
  - cbv beta iota zeta. rewrite strlen_c_string. reflexivity.
  - pose proof (concat_lines_length before Hbefore). rewrite length_app. lia.
Qed.

Lemma strlen_before_nul (text rest : cstr) :
  no_nul text = true -> strlen (text ++ zero :: rest) = length text.
Proof.
  induction text as [|c text IH]; [reflexivity|].
  cbn [no_nul forallb app strlen length]. intros H.
  apply Bool.andb_true_iff in H. destruct H as [Hc Ht].
  apply Bool.negb_true_iff in Hc. rewrite Hc, (IH Ht). reflexivity.
Qed.

Lemma c_string_before_nul (text rest : cstr) :
  no_nul text = true -> c_string (text ++ zero :: rest) = text.
Proof.
  intros H. unfold c_string. rewrite (strlen_before_nul text rest H).
  rewrite firstn_app, Nat.sub_diag, firstn_all. cbn [firstn]. apply app_nil_r.
Qed.

Lemma strncmp_eq_app (n : nat) :
  forall a b x : cstr,
    (n <= length b)%nat ->
    strncmp_eq a b n = true -> strncmp_eq (a ++ x) b n = true.
Proof.
  induction n as [|n IH]; intros a b x Hb H; [reflexivity|].
  destruct a as [|c a], b as [|e b]; cbn [strncmp_eq app length] in *;
    try discriminate; try lia.
  apply Bool.andb_true_iff in H. destruct H as [Hc Ha].
  rewrite Hc, (IH a b x ltac:(lia) Ha). reflexivity.
Qed.

Lemma strncmp_eq_length (n : nat) :
  forall a b : cstr,
    (n <= length b)%nat -> strncmp_eq a b n = true -> (n <= length a)%nat.
Proof.
  induction n as [|n IH]; intros a b Hb H; [lia|].
  destruct a as [|c a], b as [|e b]; cbn [strncmp_eq length] in *;
    try discriminate; try lia.
  apply Bool.andb_true_iff in H. destruct H as [_ Ha].
  pose proof (IH a b ltac:(lia) Ha). lia.
Qed.

(** X21: a NUL byte in the [Mems_allowed:] line ends the string the
    scan works on.  [fgets] reads the line whole, but [strlen] and
    [sscanf] stop at the NUL: the counter behaves exactly as if the
    file ended just before that byte, whatever follows it on the line
    and in the file. *)
Theorem count_mem_nodes_nul_ends_line
  (before : list cstr) (text rest : cstr) (after : stream) :
  Forall other_line before ->
  strncmp_eq text mems_label 13 = true ->
  no_nul text = true ->
  no_newline text = true ->
  no_newline rest = true ->
  Z.of_nat (length (text ++ [zero] ++ rest ++ [ch_nl])) <= 8191 ->
  stress_numa_count_mem_nodes
    (Some (concat before ++ (text ++ [zero] ++ rest ++ [ch_nl]) ++ after))
  = stress_numa_count_mem_nodes (Some (concat before ++ text)).
Proof.
  intros Hbefore Hlabel Hnul Hnl Hrest Hlen.
  pose proof (strncmp_eq_length 13 text mems_label ltac:(cbn; lia) Hlabel) as H13.
  assert (Hline : text ++ [zero] ++ rest ++ [ch_nl]
                  = (text ++ zero :: rest) ++ [ch_nl]).
  { rewrite <- !app_assoc. reflexivity. }
  assert (Hget : fgets BUFFER_SIZE ((text ++ [zero] ++ rest ++ [ch_nl]) ++ after)
                 = Some (text ++ [zero] ++ rest ++ [ch_nl], after)).
  { rewrite Hline, <- app_assoc. cbn [app]. apply fgets_line.
    - change (zero :: rest) with ([zero] ++ rest).
      rewrite (no_newline_app text), (no_newline_app [zero]), Hnl, Hrest.
      reflexivity.
    - rewrite <- Hline. exact Hlen. }
  rewrite (count_on_bytes before _ _ after Hbefore Hget
             (strncmp_eq_app 13 text mems_label _ ltac:(cbn; lia) Hlabel)).
  change ([zero] ++ rest ++ [ch_nl]) with (zero :: rest ++ [ch_nl]).
  rewrite (strlen_before_nul text _ Hnul), (c_string_before_nul text _ Hnul).
  assert (Hget' : fgets BUFFER_SIZE text = Some (text, [])).
  { apply fgets_eof; [destruct text; [simpl in H13; lia | discriminate] | exact Hnl |].
    rewrite !length_app in Hlen. lia. }
  rewrite (count_on_buffer before text text [] Hbefore Hget' Hlabel Hnul).
  reflexivity.
Qed.

Lemma count_mem_nodes_nul_ends_line_witness :
  stress_numa_count_mem_nodes
    (Some (concat [cs "Name:" ++ [ch_tab] ++ cs "sh" ++ [ch_nl]]
           ++ ((mems_label ++ [ch_tab] ++ cs "0f3") ++ [zero] ++ cs "ff"
               ++ [ch_nl]) ++ cs "Cpus_allowed:" ++ [ch_tab] ++ cs "f" ++ [ch_nl]))
  = stress_numa_count_mem_nodes
      (Some (concat [cs "Name:" ++ [ch_tab] ++ cs "sh" ++ [ch_nl]]
             ++ (mems_label ++ [ch_tab] ++ cs "0f3"))).
Proof.
  apply (count_mem_nodes_nul_ends_line
           [cs "Name:" ++ [ch_tab] ++ cs "sh" ++ [ch_nl]]
           (mems_label ++ [ch_tab] ++ cs "0f3") (cs "ff")
           (cs "Cpus_allowed:" ++ [ch_tab] ++ cs "f" ++ [ch_nl])).
  - constructor; [|constructor].
    exists (cs "Name:" ++ [ch_tab] ++ cs "sh").
    repeat split; try reflexivity. vm_compute. discriminate.
  - reflexivity.
  - reflexivity.
  - reflexivity.
  - reflexivity.
  - vm_compute. discriminate.
Defined.
